(** * The CMAF ingester of livesim2 (cmd/livesim2/app/cmaf-ingester.go)

    A shallow embedding of the ingester registry ([cmafIngesterMgr]), of the
    ingest session ([cmafIngester.start], [sendMediaSegments],
    [sendMediaSegment]) and of the streaming bridge ([cmafSource]), with the
    properties the specification states about them.

    Conventions.
    - Go's [int], [int64] and [time.Duration] are 64-bit two's complement,
      [uint64] and [uint32] are unsigned; all are carried as [Z] and every
      arithmetic result goes through the wrap-around of its type ([Go.int],
      [Go.uint64], [Go.uint32]).
    - Functions of the repository that live in other files (configuration,
      asset, manifest and segment production) are Section variables: every
      theorem holds whatever they compute.
    - What the environment decides (the wall clock, which case of a [select]
      is ready, what other goroutines do between two atomic operations) is
      given to the functions as an explicit input tape. *)

From Stdlib Require Import ZArith List String Bool Lia Sorted DecimalString.
From Stdlib Require Strings.Byte.
From stdpp Require Import gmap strings.
Import ListNotations.
Local Open Scope Z_scope.

(** ** Machine integers *)

Module Go.

Definition uint64 (x : Z) : Z := x mod 2 ^ 64.
Definition uint32 (x : Z) : Z := x mod 2 ^ 32.
(** [int], [int64], [time.Duration]: signed, 64 bits. *)
Definition int (x : Z) : Z := (x + 2 ^ 63) mod 2 ^ 64 - 2 ^ 63.

Definition MaxInt : Z := 2 ^ 63 - 1.
Definition MinInt : Z := - 2 ^ 63.

(** [time.Millisecond] and [time.Hour], in nanoseconds. *)
Definition Millisecond : Z := 1000000.
Definition Hour : Z := 3600 * 1000000000.

(** [%d] of an integer and [%v] of an error value. *)
Definition fmt_d (x : Z) : string := NilZero.string_of_int (Z.to_int x).
Definition fmt_v (err : option string) : string :=
  match err with Some e => e | None => "<nil>" end.

Lemma int_id x : MinInt <= x <= MaxInt -> int x = x.
Proof.
  unfold int, MinInt, MaxInt. intros H.
  rewrite Z.mod_small by lia. lia.
Qed.

Lemma uint64_id x : 0 <= x < 2 ^ 64 -> uint64 x = x.
Proof. intros H. unfold uint64. now apply Z.mod_small. Qed.

End Go.

(** ** Data *)

Module CmafIngesterRequest.
Record t := {
  User : string;
  PassWord : string;
  Dest : string;
  URL : string;
  TestNowMS : option Z
}.
End CmafIngesterRequest.

Inductive ingesterState :=
| ingesterStateNotStarted
| ingesterStateRunning
| ingesterStateStopped.

Definition ingesterState_eqb (a b : ingesterState) : bool :=
  match a, b with
  | ingesterStateNotStarted, ingesterStateNotStarted
  | ingesterStateRunning, ingesterStateRunning
  | ingesterStateStopped, ingesterStateStopped => true
  | _, _ => false
  end.

Record cmafRepData := {
  repID : string;
  contentType : string;
  mimeType : string;
  initPath : string;
  mediaPattern : string
}.

(** The fields of [ResponseConfig] this file reads or writes; [Fields] stands
    for all the others. [URLParts] is a slice: [append] on a sub-slice of it
    writes into its backing array (see [appendPart]). *)
Record ResponseConfig (Fields : Type) := {
  URLParts : list string;
  SegTimelineFlag : bool;
  otherFields : Fields
}.
Arguments URLParts {Fields} _.
Arguments SegTimelineFlag {Fields} _.
Arguments otherFields {Fields} _.

(** [cmafIngester]. [log] is the logger's [ingester] attribute; the channel
    [nextSegTrigger] has no content and is the tape of wake-ups of
    [Session.loop]; [mgr] is the registry the session is stored in. *)
Record cmafIngester (Fields Asset : Type) := {
  user : string;
  passWord : string;
  dest : string;
  url : string;
  log : Z;
  TestNowMS : option Z;
  cfg : ResponseConfig Fields;
  asset : Asset;
  repsData : list cmafRepData;
  report : list string
}.
Arguments user {Fields Asset} _.
Arguments passWord {Fields Asset} _.
Arguments dest {Fields Asset} _.
Arguments url {Fields Asset} _.
Arguments log {Fields Asset} _.
Arguments TestNowMS {Fields Asset} _.
Arguments cfg {Fields Asset} _.
Arguments asset {Fields Asset} _.
Arguments repsData {Fields Asset} _.
Arguments report {Fields Asset} _.

(** ** The ingester registry: [cmafIngesterMgr] *)

Module Registry.

(** The manifest types of the dash-mpd library, with the fields
    [NewCmafIngester] reads. *)
Record SegmentTemplateType := {
  Initialization : string;
  Media : string
}.

Record AdaptationSetType (Representation : Type) := {
  ContentType : string;
  Representations : list Representation
}.
Arguments ContentType {Representation} _.
Arguments Representations {Representation} _.

Record Period (Representation : Type) := {
  AdaptationSets : list (AdaptationSetType Representation)
}.
Arguments AdaptationSets {Representation} _.

Record MPD (Representation : Type) := {
  Periods : list (Period Representation)
}.
Arguments Periods {Representation} _.

(** The errors [NewCmafIngester] returns, one constructor per [fmt.Errorf]. *)
Inductive createError :=
| ErrNotRunning
| ErrConfig (cause : string)
| ErrUnknownAsset (contentPart : string)
| ErrLiveMPD (cause : string)
| ErrUnknownContentType (contentType : string).

(** What a call does: it returns [(nr, err)] or it panics. *)
Inductive result :=
| Return (nr : Z) (err : option createError)
| Panicked (why : string).

(** The atomic counter [cm.nr]. *)
Definition Load (counter : Z) : Z := counter.

Definition CompareAndSwap (counter old new : Z) : bool * Z :=
  if counter =? old then (true, new) else (false, counter).

(** The loop "Get unique atomic number". [others] is what other callers of
    [NewCmafIngester] do to the counter meanwhile: its k-th element is the
    number of allocations that other callers complete between the [Load] and
    the [CompareAndSwap] of this caller's k-th attempt; once the list is
    used up nobody interferes. An attempt succeeds when the counter still
    holds [prev]. The result is the caller's number and the counter. *)
Fixpoint allocate (others : list nat) (counter : Z) : Z * Z :=
  let prev := Load counter in
  let nr := Go.uint64 (prev + 1) in
  match others with
  | [] => (nr, snd (CompareAndSwap counter prev nr))
  | k :: others' =>
      let counter1 := Go.uint64 (counter + Z.of_nat k) in
      let '(swapped, counter2) := CompareAndSwap counter1 prev nr in
      if swapped then (nr, counter2) else allocate others' counter2
  end.

Definition mimeTypeOf (contentType : string) : option string :=
  if String.eqb contentType "video" then Some "video/mp4"%string
  else if String.eqb contentType "audio" then Some "audio/mp4"%string
  else if String.eqb contentType "text" then Some "application/mp4"%string
  else None.

Section Create.

Variables Fields Asset Representation HTTPRequest : Type.

(** [httptest.NewRequest("GET", url, nil)]: [None] when it panics on a
    target it cannot parse. *)
Variable NewRequest : string -> option HTTPRequest.
(** [mpdReq.URL.RawQuery = q]. *)
Variable setRawQuery : HTTPRequest -> string -> HTTPRequest.
(** [cfgFromRequest]: [(nowMS, cfg)] or the text of the error. *)
Variable cfgFromRequest : HTTPRequest -> Z -> (Z * ResponseConfig Fields) + string.
Variable URLContentPart : ResponseConfig Fields -> string.
Variable findAsset : string -> option Asset.
(** [path.Split]. *)
Variable pathSplit : string -> string * string.
Variable LiveMPD :
  Asset -> string -> ResponseConfig Fields -> Z -> MPD Representation + string.
Variable orderAdaptationSetsByContentType :
  list (AdaptationSetType Representation) -> list (AdaptationSetType Representation).
Variable RepId : Representation -> string.
(** [r.GetSegmentTemplate()]: [None] for a nil pointer. *)
Variable GetSegmentTemplate : Representation -> option SegmentTemplateType.
Variable replaceIdentifiers : Representation -> string -> string.

Record cmafIngesterMgr := {
  nr : Z;
  ingesters : gmap Z (cmafIngester Fields Asset);
  state : ingesterState
}.

Definition NewCmafIngesterMgr : cmafIngesterMgr :=
  {| nr := 0; ingesters := ∅; state := ingesterStateNotStarted |}.

Definition Start (cm : cmafIngesterMgr) : cmafIngesterMgr :=
  {| nr := nr cm; ingesters := ingesters cm; state := ingesterStateRunning |}.

Definition set_nr (cm : cmafIngesterMgr) (n : Z) : cmafIngesterMgr :=
  {| nr := n; ingesters := ingesters cm; state := state cm |}.

Definition store (cm : cmafIngesterMgr) (n : Z) (c : cmafIngester Fields Asset)
  : cmafIngesterMgr :=
  {| nr := nr cm; ingesters := <[n := c]> (ingesters cm); state := state cm |}.

(** What stops the loops over the adaptation sets. *)
Inductive repsError :=
| UnknownContentType (contentType : string)
| NilSegmentTemplate.

(** The inner loop [for _, r := range a.Representations]. *)
Fixpoint appendReps (contentType mimeType : string) (reps : list Representation)
  (repsData : list cmafRepData) : list cmafRepData + repsError :=
  match reps with
  | [] => inl repsData
  | r :: reps' =>
      match GetSegmentTemplate r with
      | None => inr NilSegmentTemplate
      | Some segTmpl =>
          let rd := {| repID := RepId r;
                       contentType := contentType;
                       mimeType := mimeType;
                       initPath := replaceIdentifiers r (Initialization segTmpl);
                       mediaPattern := replaceIdentifiers r (Media segTmpl) |} in
          appendReps contentType mimeType reps' (repsData ++ [rd])
      end
  end.

(** The outer loop [for _, a := range adaptationSets]. *)
Fixpoint collectReps (sets : list (AdaptationSetType Representation))
  (repsData : list cmafRepData) : list cmafRepData + repsError :=
  match sets with
  | [] => inl repsData
  | a :: sets' =>
      match mimeTypeOf (ContentType a) with
      | None => inr (UnknownContentType (ContentType a))
      | Some mimeType =>
          match appendReps (ContentType a) mimeType (Representations a) repsData with
          | inl repsData' => collectReps sets' repsData'
          | inr e => inr e
          end
      end
  end.

Definition rawQueryOf (testNowMS : Z) : string :=
  ("nowMS=" +:+ Go.fmt_d testNowMS)%string.

(** [NewCmafIngester]. Returns what the call does and the registry after it. *)
Definition NewCmafIngester (cm : cmafIngesterMgr) (others : list nat)
  (req : CmafIngesterRequest.t) : result * cmafIngesterMgr :=
  if negb (ingesterState_eqb (state cm) ingesterStateRunning) then
    (Return 0 (Some ErrNotRunning), cm)
  else
    let '(n, counter) := allocate others (nr cm) in
    let cm := set_nr cm counter in
    let log := n in
    match NewRequest (CmafIngesterRequest.URL req) with
    | None => (Panicked "httptest.NewRequest", cm)
    | Some mpdReq =>
    let mpdReq :=
      match CmafIngesterRequest.TestNowMS req with
      | Some t => setRawQuery mpdReq (rawQueryOf t)
      | None => mpdReq
      end in
    match cfgFromRequest mpdReq log with
    | inr errHT => (Return 0 (Some (ErrConfig errHT)), cm)
    | inl (nowMS, cfg) =>
    let contentPart := URLContentPart cfg in
    match findAsset contentPart with
    | None => (Return 0 (Some (ErrUnknownAsset contentPart)), cm)
    | Some asset =>
    let mpdName := snd (pathSplit contentPart) in
    match LiveMPD asset mpdName cfg nowMS with
    | inr err => (Return 0 (Some (ErrLiveMPD err)), cm)
    | inl liveMPD =>
    match Periods liveMPD with
    | [] => (Panicked "index out of range [0]", cm)
    | period :: _ =>
    let adaptationSets := orderAdaptationSetsByContentType (AdaptationSets period) in
    match collectReps adaptationSets [] with
    | inr (UnknownContentType contentType) =>
        (Return 0 (Some (ErrUnknownContentType contentType)), cm)
    | inr NilSegmentTemplate => (Panicked "nil pointer dereference", cm)
    | inl repsData =>
    let c := {| user := CmafIngesterRequest.User req;
                passWord := CmafIngesterRequest.PassWord req;
                dest := CmafIngesterRequest.Dest req;
                url := CmafIngesterRequest.URL req;
                log := log;
                TestNowMS := CmafIngesterRequest.TestNowMS req;
                cfg := cfg;
                asset := asset;
                repsData := repsData;
                report := [] |} in
    (Return n None, store cm n c)
    end end end end end end.

(** Modelled from the spec: the removal of a session by the control layer
    ("destroyed when removed from the Registry"); the source file has no such
    function. It deletes the key and touches nothing else. *)
Definition remove (cm : cmafIngesterMgr) (id : Z) : cmafIngesterMgr :=
  {| nr := nr cm; ingesters := delete id (ingesters cm); state := state cm |}.

(** A history of the registry: calls in the order they take effect. *)
Inductive op :=
| OpStart
| OpCreate (others : list nat) (req : CmafIngesterRequest.t)
| OpRemove (id : Z).

Fixpoint run (cm : cmafIngesterMgr) (ops : list op) : list result * cmafIngesterMgr :=
  match ops with
  | [] => ([], cm)
  | OpStart :: ops' => run (Start cm) ops'
  | OpCreate others req :: ops' =>
      let '(r, cm1) := NewCmafIngester cm others req in
      let '(rs, cm2) := run cm1 ops' in
      (r :: rs, cm2)
  | OpRemove id :: ops' => run (remove cm id) ops'
  end.

(** The ids of the calls that succeeded, in call order. *)
Fixpoint created (rs : list result) : list Z :=
  match rs with
  | Return n None :: rs' => n :: created rs'
  | _ :: rs' => created rs'
  | [] => []
  end.

(** How many numbers a history can take from the counter at most. *)
Fixpoint demand (ops : list op) : Z :=
  match ops with
  | OpCreate others _ :: ops' =>
      1 + Z.of_nat (list_sum others) + demand ops'
  | _ :: ops' => demand ops'
  | [] => 0
  end.

(** In a registry that a history has produced no stored id is above the
    counter. *)
Definition bounded (cm : cmafIngesterMgr) : Prop :=
  forall k, is_Some (ingesters cm !! k) -> k <= nr cm.

Definition succeeded (r : result) : bool :=
  match r with Return _ None => true | _ => false end.

(** *** The counter *)

Lemma allocate_spec others counter :
  0 <= counter ->
  counter + 1 + Z.of_nat (list_sum others) < 2 ^ 64 ->
  counter < fst (allocate others counter)
  /\ snd (allocate others counter) = fst (allocate others counter)
  /\ fst (allocate others counter) <= counter + 1 + Z.of_nat (list_sum others).
Proof.
  revert counter. induction others as [|k others IH]; intros counter H0 Hlt.
  - cbn [allocate list_sum foldr] in *. unfold Load, CompareAndSwap.
    rewrite Z.eqb_refl. cbn [fst snd].
    rewrite Go.uint64_id by lia. lia.
  - cbn [allocate].
    change (list_sum (k :: others)) with (k + list_sum others)%nat in *.
    rewrite Nat2Z.inj_add in *.
    unfold Load, CompareAndSwap.
    rewrite (Go.uint64_id (counter + Z.of_nat k)) by lia.
    rewrite (Go.uint64_id (counter + 1)) by lia.
    destruct (Z.eqb_spec (counter + Z.of_nat k) counter) as [E|E]; cbn [fst snd].
    + lia.
    + specialize (IH (counter + Z.of_nat k)). lia.
Qed.

(** The three ways a call can end, with the registry each leaves. *)
Lemma NewCmafIngester_cases cm others req r cm' :
  NewCmafIngester cm others req = (r, cm') ->
  (state cm <> ingesterStateRunning
   /\ r = Return 0 (Some ErrNotRunning) /\ cm' = cm)
  \/ (state cm = ingesterStateRunning
      /\ (exists c,
             r = Return (fst (allocate others (nr cm))) None
             /\ cm' = store (set_nr cm (snd (allocate others (nr cm))))
                        (fst (allocate others (nr cm))) c))
  \/ (state cm = ingesterStateRunning
      /\ cm' = set_nr cm (snd (allocate others (nr cm)))
      /\ ((exists e, r = Return 0 (Some e) /\ e <> ErrNotRunning)
          \/ exists why, r = Panicked why)).
Proof.
  unfold NewCmafIngester.
  destruct (state cm) eqn:Hs; cbn [ingesterState_eqb negb];
    try (intros [= <- <-]; left; repeat split; congruence).
  destruct (allocate others (nr cm)) as [n counter]; cbn [fst snd].
  intros H. right.
  repeat case_match; simplify_eq;
    try (left; split; [reflexivity|]; eexists; split; reflexivity);
    right; (split; [reflexivity|]); (split; [reflexivity|]);
    try (right; eexists; reflexivity);
    left; eexists; (split; [reflexivity|discriminate]).
Qed.

(** What a call does to the counter and to the map. *)
Lemma NewCmafIngester_counter cm others req :
  0 <= nr cm ->
  nr cm + 1 + Z.of_nat (list_sum others) < 2 ^ 64 ->
  nr cm <= nr (snd (NewCmafIngester cm others req))
        <= nr cm + 1 + Z.of_nat (list_sum others)
  /\ (forall n, fst (NewCmafIngester cm others req) = Return n None ->
        nr cm < n /\ n = nr (snd (NewCmafIngester cm others req))
        /\ exists c, ingesters (snd (NewCmafIngester cm others req))
                     = <[n := c]> (ingesters cm))
  /\ (succeeded (fst (NewCmafIngester cm others req)) = false ->
        ingesters (snd (NewCmafIngester cm others req)) = ingesters cm).
Proof.
  intros H0 Hlt.
  destruct (allocate_spec others (nr cm) H0 Hlt) as (Ha1 & Ha2 & Ha3).
  destruct (NewCmafIngester cm others req) as [r cm'] eqn:E.
  apply NewCmafIngester_cases in E. cbn [fst snd].
  destruct E as [(_ & -> & ->) | [(_ & c & -> & ->) | (_ & -> & Hr)]];
    cbn [store set_nr nr ingesters succeeded].
  - split; [lia|]. split; [intros n [=] | reflexivity].
  - split; [lia|]. split; [|discriminate].
    intros n [= <-]. split; [lia|]. split; [lia|]. exists c. reflexivity.
  - split; [lia|]. split; [|reflexivity].
    intros n ->. destruct Hr as [(e & [=] & _) | (why & [=])].
Qed.

Lemma NewCmafIngester_bounded cm others req :
  0 <= nr cm ->
  nr cm + 1 + Z.of_nat (list_sum others) < 2 ^ 64 ->
  bounded cm -> bounded (snd (NewCmafIngester cm others req)).
Proof.
  intros H0 Hlt Hb.
  destruct (NewCmafIngester_counter cm others req H0 Hlt) as (Hnr & Hok & Hfail).
  destruct (NewCmafIngester cm others req) as [r cm']; cbn [fst snd] in *.
  intros k Hk. destruct (succeeded r) eqn:Hs.
  - destruct r as [n [e|]|why]; try discriminate.
    destruct (Hok n eq_refl) as (Hlt' & -> & c & Hc). rewrite Hc in Hk.
    destruct (decide (nr cm' = k)) as [<-|Hne]; [lia|].
    rewrite lookup_insert_ne in Hk by assumption.
    specialize (Hb k Hk). lia.
  - rewrite (Hfail eq_refl) in Hk. specialize (Hb k Hk). lia.
Qed.

Lemma demand_nonneg ops : 0 <= demand ops.
Proof. induction ops as [|[]]; cbn [demand]; lia. Qed.

Lemma demand_app ops1 ops2 : demand (ops1 ++ ops2) = demand ops1 + demand ops2.
Proof. induction ops1 as [|[] ops1 IH]; cbn [demand app]; lia. Qed.

(** Along a history the counter only grows, every id created is above the
    counter the history started from, and the ids come out in increasing
    order. *)
Lemma run_increasing ops : forall cm,
  0 <= nr cm ->
  nr cm + demand ops < 2 ^ 64 ->
  nr cm <= nr (snd (run cm ops)) <= nr cm + demand ops
  /\ Forall (fun i => nr cm < i <= nr (snd (run cm ops))) (created (fst (run cm ops)))
  /\ StronglySorted Z.lt (created (fst (run cm ops))).
Proof.
  induction ops as [|o ops IH]; intros cm H0 Hlt.
  - cbn [run demand created fst snd]. split; [lia|]. split; constructor.
  - destruct o as [|others req|id]; cbn [run demand] in *.
    + apply (IH (Start cm)); assumption.
    + pose proof (demand_nonneg ops) as Hd.
      destruct (NewCmafIngester_counter cm others req H0 ltac:(lia)) as (Hnr1 & Hid & _).
      destruct (NewCmafIngester cm others req) as [r cm1]; cbn [fst snd] in *.
      destruct (IH cm1 ltac:(lia) ltac:(lia)) as (Hnr2 & Hall & Hsorted).
      destruct (run cm1 ops) as [rs cm2]; cbn [fst snd] in *.
      assert (Hrest : Forall (fun i => nr cm < i <= nr cm2) (created rs)).
      { eapply Forall_impl; [exact Hall|]. cbn. intros; lia. }
      split; [lia|].
      destruct r as [n [e|]|why]; cbn [created]; try (split; assumption).
      destruct (Hid n eq_refl) as (Hn1 & Hn2 & _). split.
      * constructor; [lia | assumption].
      * constructor; [assumption|].
        eapply Forall_impl; [exact Hall|]. cbn. intros; lia.
    + apply (IH (remove cm id)); assumption.
Qed.

Lemma run_bounded ops : forall cm,
  0 <= nr cm ->
  nr cm + demand ops < 2 ^ 64 ->
  bounded cm -> bounded (snd (run cm ops)).
Proof.
  induction ops as [|o ops IH]; intros cm H0 Hlt Hb; [exact Hb|].
  pose proof (demand_nonneg ops) as Hd.
  destruct o as [|others req|id]; cbn [run demand] in *.
  - apply (IH (Start cm)); assumption.
  - pose proof (NewCmafIngester_bounded cm others req H0 ltac:(lia) Hb) as Hb1.
    destruct (NewCmafIngester_counter cm others req H0 ltac:(lia)) as (Hnr1 & _).
    destruct (NewCmafIngester cm others req) as [r cm1]; cbn [fst snd] in *.
    specialize (IH cm1 ltac:(lia) ltac:(lia) Hb1).
    destruct (run cm1 ops) as [rs cm2]. exact IH.
  - apply (IH (remove cm id)); [assumption|assumption|].
    unfold bounded. cbn [remove nr ingesters]. intros k Hk. apply Hb.
    destruct (decide (id = k)) as [->|Hne].
    + rewrite lookup_delete_eq in Hk. destruct Hk; discriminate.
    + rewrite lookup_delete_ne in Hk; assumption.
Qed.

(** An id at or below the counter that is free stays free: later calls only
    store above the counter. *)
Lemma run_free ops : forall cm k,
  0 <= nr cm ->
  nr cm + demand ops < 2 ^ 64 ->
  k <= nr cm ->
  ingesters cm !! k = None ->
  ingesters (snd (run cm ops)) !! k = None.
Proof.
  induction ops as [|o ops IH]; intros cm k H0 Hlt Hk Hnone; [exact Hnone|].
  pose proof (demand_nonneg ops) as Hd.
  destruct o as [|others req|id]; cbn [run demand] in *.
  - apply (IH (Start cm)); assumption.
  - destruct (NewCmafIngester_counter cm others req H0 ltac:(lia)) as (Hnr1 & Hok & Hfail).
    destruct (NewCmafIngester cm others req) as [r cm1]; cbn [fst snd] in *.
    specialize (IH cm1 k ltac:(lia) ltac:(lia) ltac:(lia)).
    destruct (run cm1 ops) as [rs cm2]; cbn [fst snd] in *. apply IH.
    destruct (succeeded r) eqn:Hs.
    + destruct r as [n [e|]|why]; try discriminate.
      destruct (Hok n eq_refl) as (Hlt' & Hn & c & ->).
      rewrite lookup_insert_ne by lia. exact Hnone.
    + rewrite (Hfail eq_refl). exact Hnone.
  - apply (IH (remove cm id)); try assumption.
    cbn [remove ingesters].
    destruct (decide (id = k)) as [->|Hne].
    + apply lookup_delete_eq.
    + rewrite lookup_delete_ne by assumption. exact Hnone.
Qed.

Lemma run_app ops1 ops2 cm :
  run cm (ops1 ++ ops2)
  = (fst (run cm ops1) ++ fst (run (snd (run cm ops1)) ops2),
     snd (run (snd (run cm ops1)) ops2)).
Proof.
  revert cm. induction ops1 as [|o ops1 IH]; intros cm.
  - cbn [app run fst snd]. destruct (run cm ops2); reflexivity.
  - destruct o as [|others req|id]; cbn [app run].
    + apply IH.
    + destruct (NewCmafIngester cm others req) as [r cm1].
      rewrite IH. destruct (run cm1 ops1) as [rs cm2]. reflexivity.
    + apply IH.
Qed.

Lemma created_app rs1 rs2 : created (rs1 ++ rs2) = created rs1 ++ created rs2.
Proof.
  induction rs1 as [|[n [e|]|why] rs1 IH]; cbn [created app]; congruence.
Qed.

Lemma sorted_NoDup (l : list Z) : StronglySorted Z.lt l -> List.NoDup l.
Proof.
  induction 1 as [|x l Hs IH Hall]; constructor; [|exact IH].
  intros Hin. rewrite List.Forall_forall in Hall.
  specialize (Hall x Hin). lia.
Qed.

(** *** Ids, the not-running state and failed calls *)

(** C6. In every history of a registry (calls of [Start], of
    [NewCmafIngester], also failing ones and ones that raced with other
    callers, and removals of sessions), the ids of the calls that succeeded
    strictly increase in call order, so no id is returned twice; this holds
    as long as the 64-bit counter does not wrap around. *)
Theorem create_ids_strictly_increase (cm : cmafIngesterMgr) (ops : list op) :
  0 <= nr cm ->
  nr cm + demand ops < 2 ^ 64 ->
  StronglySorted Z.lt (created (fst (run cm ops)))
  /\ List.NoDup (created (fst (run cm ops)))
  /\ Forall (fun i => nr cm < i) (created (fst (run cm ops))).
Proof.
  intros H0 Hlt.
  destruct (run_increasing ops cm H0 Hlt) as (_ & Hall & Hsorted).
  split; [exact Hsorted|]. split; [apply sorted_NoDup, Hsorted|].
  eapply Forall_impl; [exact Hall|]. cbn. intros; lia.
Qed.

(** C7. A call of [NewCmafIngester] on a registry whose state is not
    running returns id 0 with the not-running error and leaves the registry
    as it was: same counter, same sessions, same state. *)
Theorem create_not_running (cm : cmafIngesterMgr) (others : list nat)
  (req : CmafIngesterRequest.t) :
  state cm <> ingesterStateRunning ->
  NewCmafIngester cm others req = (Return 0 (Some ErrNotRunning), cm).
Proof.
  intros Hs. unfold NewCmafIngester.
  destruct (state cm); [reflexivity | congruence | reflexivity].
Qed.

(** C10. A call of [NewCmafIngester] that fails after the id allocation
    (with any error but not-running: configuration, unknown asset, manifest,
    content type) returns 0, leaves the sessions as they were and the counter
    at the allocated id [a]; [a] is above every id handed out before, is bound
    to no session then or after any later history, and is not among the ids
    the history creates. *)
Theorem failed_create_consumes_id (ops1 ops2 : list op) (others : list nat)
  (req : CmafIngesterRequest.t) (n : Z) (e : createError) :
  let cm1 := snd (run NewCmafIngesterMgr ops1) in
  let cm2 := snd (NewCmafIngester cm1 others req) in
  let a := fst (allocate others (nr cm1)) in
  demand (ops1 ++ OpCreate others req :: ops2) < 2 ^ 64 ->
  fst (NewCmafIngester cm1 others req) = Return n (Some e) ->
  e <> ErrNotRunning ->
  n = 0
  /\ nr cm2 = a
  /\ nr cm1 < a
  /\ ingesters cm2 = ingesters cm1
  /\ ingesters (snd (run cm2 ops2)) !! a = None
  /\ ~ In a (created (fst (run NewCmafIngesterMgr
                             (ops1 ++ OpCreate others req :: ops2)))).
Proof.
  intros cm1 cm2 a Hlt Hr He.
  rewrite demand_app in Hlt. cbn [demand] in Hlt.
  pose proof (demand_nonneg ops1) as Hd1.
  pose proof (demand_nonneg ops2) as Hd2.
  assert (Hnew : nr NewCmafIngesterMgr = 0) by reflexivity.
  destruct (run_increasing ops1 NewCmafIngesterMgr ltac:(lia) ltac:(lia))
    as (Hnr1 & Hall1 & _).
  assert (Hb1 : bounded cm1).
  { apply run_bounded; [lia | lia |]. intros k [c Hc].
    cbn in Hc. rewrite lookup_empty in Hc. discriminate. }
  fold cm1 in Hnr1, Hall1.
  destruct (allocate_spec others (nr cm1) ltac:(lia) ltac:(lia)) as (Ha1 & Ha2 & Ha3).
  fold a in Ha1, Ha2, Ha3.
  rewrite run_app. cbn [fst snd run]. fold cm1.
  destruct (NewCmafIngester cm1 others req) as [r cm2'] eqn:E.
  cbn [fst snd] in *. subst r cm2.
  apply NewCmafIngester_cases in E.
  destruct E as [(_ & [= -> ->] & _) | [(_ & c & [=] & _) | (Hrun & -> & Hr)]];
    [congruence|].
  cbn [set_nr nr ingesters]. fold a. rewrite Ha2.
  assert (Hn : n = 0).
  { destruct Hr as [(e0 & [= -> _] & _) | (why & [=])]. reflexivity. }
  assert (Hfree : ingesters cm1 !! a = None).
  { destruct (ingesters cm1 !! a) as [c|] eqn:Hc; [|reflexivity].
    specialize (Hb1 a ltac:(eexists; exact Hc)). lia. }
  set (cm2 := set_nr cm1 a).
  destruct (run_increasing ops2 cm2 ltac:(cbn; lia) ltac:(cbn; lia)) as (_ & Hall2 & _).
  split; [exact Hn|]. split; [reflexivity|]. split; [exact Ha1|].
  split; [reflexivity|]. split.
  - apply run_free; cbn [cm2 set_nr nr ingesters]; try lia. exact Hfree.
  - destruct (run cm2 ops2) as [rs2 cm3]; cbn [fst snd] in *.
    rewrite created_app. cbn [created]. subst n. cbn [created].
    rewrite in_app_iff. intros [Hin|Hin].
    + rewrite List.Forall_forall in Hall1. specialize (Hall1 a Hin). lia.
    + rewrite List.Forall_forall in Hall2. specialize (Hall2 a Hin). cbn in Hall2. lia.
Qed.

(** *** Further properties of the registry *)

(** The descriptors the two loops build for a list of adaptation sets: one
    per representation, set by set. *)
Definition setSegments (a : AdaptationSetType Representation) : list (string * string) :=
  List.map (fun r => (ContentType a, RepId r)) (Representations a).

Lemma appendReps_spec ct mt reps : forall acc rds,
  appendReps ct mt reps acc = inl rds ->
  exists new,
    rds = acc ++ new
    /\ List.map (fun rd => (contentType rd, repID rd)) new
       = List.map (fun r => (ct, RepId r)) reps
    /\ Forall (fun rd => mimeType rd = mt) new.
Proof.
  induction reps as [|r reps IH]; intros acc rds H; cbn [appendReps] in H.
  - injection H as <-. exists []. rewrite List.app_nil_r. repeat split. constructor.
  - destruct (GetSegmentTemplate r) as [tmpl|]; [|discriminate].
    destruct (IH _ _ H) as (new & -> & Hm & Hall).
    eexists (_ :: new). rewrite <- List.app_assoc. split; [reflexivity|].
    cbn [List.map repID contentType]. rewrite Hm. split; [reflexivity|].
    constructor; [reflexivity | exact Hall].
Qed.

Lemma collectReps_spec sets : forall acc rds,
  collectReps sets acc = inl rds ->
  exists new,
    rds = acc ++ new
    /\ List.map (fun rd => (contentType rd, repID rd)) new
       = List.flat_map setSegments sets
    /\ Forall (fun rd => mimeTypeOf (contentType rd) = Some (mimeType rd)) new.
Proof.
  induction sets as [|a sets IH]; intros acc rds H; cbn [collectReps] in H.
  - injection H as <-. exists []. rewrite List.app_nil_r. repeat split. constructor.
  - destruct (mimeTypeOf (ContentType a)) as [mt|] eqn:Emt; [|discriminate].
    destruct (appendReps (ContentType a) mt (Representations a) acc) as [rds1|e] eqn:Ea;
      [|discriminate].
    destruct (appendReps_spec _ _ _ _ _ Ea) as (new1 & -> & Hm1 & Hall1).
    destruct (IH _ _ H) as (new2 & -> & Hm2 & Hall2).
    exists (new1 ++ new2). rewrite <- List.app_assoc. split; [reflexivity|].
    cbn [List.flat_map]. rewrite List.map_app, Hm1, Hm2. split; [reflexivity|].
    apply List.Forall_app. split; [|exact Hall2].
    assert (Hct : Forall (fun rd => contentType rd = ContentType a) new1).
    { clear - Hm1. revert Hm1. generalize (Representations a).
      induction new1 as [|rd new1 IHn]; intros reps Hm; [constructor|].
      destruct reps as [|r reps]; [discriminate|]. cbn in Hm.
      injection Hm as Hc _ Hm. constructor; [exact Hc | eapply IHn; exact Hm]. }
    rewrite List.Forall_forall in *. intros rd Hin.
    rewrite (Hct rd Hin), (Hall1 rd Hin). exact Emt.
Qed.

(** X1. A call of [NewCmafIngester] that succeeds stores under the id it
    returns a session that carries the request's user, password, destination,
    URL and fixed time, the id as its logger's attribute and an empty report;
    it leaves every other entry of the registry and the state as they were. *)
Theorem create_stores_request (cm cm' : cmafIngesterMgr) (others : list nat)
  (req : CmafIngesterRequest.t) (n : Z) :
  NewCmafIngester cm others req = (Return n None, cm') ->
  (exists c,
      ingesters cm' !! n = Some c
      /\ user c = CmafIngesterRequest.User req
      /\ passWord c = CmafIngesterRequest.PassWord req
      /\ dest c = CmafIngesterRequest.Dest req
      /\ url c = CmafIngesterRequest.URL req
      /\ TestNowMS c = CmafIngesterRequest.TestNowMS req
      /\ log c = n
      /\ report c = [])
  /\ (forall k, k <> n -> ingesters cm' !! k = ingesters cm !! k)
  /\ state cm' = ingesterStateRunning
  /\ state cm = ingesterStateRunning.
Proof.
  unfold NewCmafIngester.
  destruct (state cm) eqn:Hs; cbn [ingesterState_eqb negb]; try discriminate.
  destruct (allocate others (nr cm)) as [a counter].
  intros H. repeat case_match; simplify_eq;
    cbn [store set_nr ingesters state nr];
    (split; [|split; [|split; [exact Hs | reflexivity]]]);
    [ eexists; rewrite lookup_insert_eq; split; [reflexivity|]; repeat split
    | intros k Hk; apply lookup_insert_ne; congruence
    | eexists; rewrite lookup_insert_eq; split; [reflexivity|]; repeat split
    | intros k Hk; apply lookup_insert_ne; congruence ].
Qed.

(** X2. The session a successful call stores has one descriptor per
    representation of the manifest's first period, in the order of the
    ordered adaptation sets and of the representations within each set; each
    descriptor has the content type of its adaptation set, which is video,
    audio or text, and the MIME type that goes with it. *)
Theorem create_descriptors (cm cm' : cmafIngesterMgr) (others : list nat)
  (req : CmafIngesterRequest.t) (n : Z) (c : cmafIngester Fields Asset) :
  NewCmafIngester cm others req = (Return n None, cm') ->
  ingesters cm' !! n = Some c ->
  exists nowMS liveMPD period,
    LiveMPD (asset c) (snd (pathSplit (URLContentPart (cfg c)))) (cfg c) nowMS
    = inl liveMPD
    /\ hd_error (Periods liveMPD) = Some period
    /\ List.map (fun rd => (contentType rd, repID rd)) (repsData c)
       = List.flat_map setSegments
           (orderAdaptationSetsByContentType (AdaptationSets period))
    /\ Forall (fun rd => mimeTypeOf (contentType rd) = Some (mimeType rd)) (repsData c)
    /\ Forall (fun rd => contentType rd = "video"%string
                         \/ contentType rd = "audio"%string
                         \/ contentType rd = "text"%string) (repsData c).
Proof.
  unfold NewCmafIngester.
  destruct (state cm) eqn:Hs; cbn [ingesterState_eqb negb]; try discriminate.
  destruct (allocate others (nr cm)) as [a counter].
  intros H Hc.
  assert (Htypes : forall rds : list cmafRepData,
    Forall (fun rd => mimeTypeOf (contentType rd) = Some (mimeType rd)) rds ->
    Forall (fun rd => contentType rd = "video"%string
                      \/ contentType rd = "audio"%string
                      \/ contentType rd = "text"%string) rds).
  { intros rds Hall. eapply Forall_impl; [exact Hall|]. cbn. intros rd Hrd.
    unfold mimeTypeOf in Hrd.
    destruct (String.eqb_spec (contentType rd) "video"); [auto|].
    destruct (String.eqb_spec (contentType rd) "audio"); [auto|].
    destruct (String.eqb_spec (contentType rd) "text"); [auto | discriminate]. }
  repeat case_match; simplify_eq;
    cbn [store set_nr ingesters] in Hc; rewrite lookup_insert_eq in Hc;
    injection Hc as <-; cbn [asset cfg repsData];
    match goal with E : collectReps _ [] = inl _ |- _ =>
      destruct (collectReps_spec _ _ _ E) as (new & Hnew & Hm & Hall)
    end;
    cbn [app] in Hnew; subst new;
    match goal with E : LiveMPD _ _ _ ?now = inl ?m, P : Periods ?m = ?p :: _ |- _ =>
      exists now, m, p; split; [exact E|]; split; [rewrite P; reflexivity|]
    end;
    (split; [exact Hm|]); (split; [exact Hall|]); apply Htypes, Hall.
Qed.

(** X3. The registry has one lifecycle transition, to running: once it is
    running it stays running through every history, no later call of
    [NewCmafIngester] is refused for not running, and the stopped state is
    never entered from a registry that is not stopped. *)
Theorem registry_stays_running (cm : cmafIngesterMgr) (ops : list op) :
  (state cm <> ingesterStateStopped ->
   state (snd (run cm ops)) <> ingesterStateStopped)
  /\ (state cm = ingesterStateRunning ->
      state (snd (run cm ops)) = ingesterStateRunning
      /\ Forall (fun r => forall n, r <> Return n (Some ErrNotRunning)) (fst (run cm ops))).
Proof.
  assert (Hstate : forall cm others req,
            state (snd (NewCmafIngester cm others req)) = state cm).
  { intros cm0 others req.
    destruct (NewCmafIngester cm0 others req) as [r cm1] eqn:E.
    apply NewCmafIngester_cases in E.
    destruct E as [(_ & _ & ->) | [(_ & c & _ & ->) | (_ & -> & _)]]; reflexivity. }
  revert cm. induction ops as [|o ops IH]; intros cm.
  - cbn. split; [auto|]. intros; split; [assumption | constructor].
  - destruct o as [|others req|id]; cbn [run].
    + destruct (IH (Start cm)) as [_ IH2]. specialize (IH2 eq_refl).
      split; [intros _; destruct IH2 as [-> _]; discriminate | intros _; exact IH2].
    + pose proof (Hstate cm others req) as Hs.
      destruct (NewCmafIngester cm others req) as [r cm1] eqn:E. cbn [snd] in Hs.
      destruct (IH cm1) as [IH1 IH2].
      destruct (run cm1 ops) as [rs cm2]; cbn [fst snd] in *.
      split; [intros H; apply IH1; congruence|].
      intros Hrun. destruct (IH2 ltac:(congruence)) as [Hst Hall].
      split; [exact Hst|]. constructor; [|exact Hall].
      intros n0 ->. apply NewCmafIngester_cases in E.
      destruct E as [(Hne & _) | [(_ & c & [=] & _) | (_ & _ & [(e & [= _ <-] & He) | (w & [=])])]];
        congruence.
    + apply (IH (remove cm id)).
Qed.

End Create.

(** *** A small world to run the registry in

    One asset, [testpic], with a video and an audio representation; a URL
    resolves when it is not [bad]. *)

Module World.

Definition cfgOf (u : string) : ResponseConfig unit :=
  {| URLParts := [""; "livesim2"; u; "Manifest.mpd"]%string;
     SegTimelineFlag := false;
     otherFields := tt |}.

(** A request is its target and its raw query. *)
Definition NewRequest (u : string) : option (string * string) :=
  if String.eqb u "" then None else Some (u, ""%string).

Definition setRawQuery (r : string * string) (q : string) : string * string :=
  (fst r, q).

Definition cfgFromRequest (r : string * string) (log : Z)
  : (Z * ResponseConfig unit) + string :=
  if String.eqb (fst r) "bad" then inr "bad url"%string else inl (0, cfgOf (fst r)).

Definition URLContentPart (c : ResponseConfig unit) : string :=
  nth 2 (URLParts c) ""%string.

Definition findAsset (contentPart : string) : option string :=
  if String.eqb contentPart "testpic" then Some contentPart else None.

Definition pathSplit (s : string) : string * string := (""%string, s).

Definition LiveMPD (a name : string) (c : ResponseConfig unit) (nowMS : Z)
  : MPD string + string :=
  inl {| Periods :=
           [ {| AdaptationSets :=
                  [ {| ContentType := "video"; Representations := ["V300"%string] |};
                    {| ContentType := "audio"; Representations := ["A48"%string] |} ] |} ] |}.

Definition GetSegmentTemplate (r : string) : option SegmentTemplateType :=
  Some {| Initialization := "init.mp4"; Media := "$Number$.m4s" |}.

Definition replaceIdentifiers (r s : string) : string := (r +:+ "/" +:+ s)%string.

Definition mgr : Type := cmafIngesterMgr unit string.

Definition create : mgr -> list nat -> CmafIngesterRequest.t -> result * mgr :=
  NewCmafIngester unit string string (string * string) NewRequest setRawQuery cfgFromRequest
    URLContentPart findAsset pathSplit LiveMPD (fun sets => sets) (fun r => r)
    GetSegmentTemplate replaceIdentifiers.

Definition history : mgr -> list op -> list result * mgr :=
  run unit string string (string * string) NewRequest setRawQuery cfgFromRequest
    URLContentPart findAsset pathSplit LiveMPD (fun sets => sets) (fun r => r)
    GetSegmentTemplate replaceIdentifiers.

Definition new : mgr := NewCmafIngesterMgr unit string.

Definition request (u : string) : CmafIngesterRequest.t :=
  {| CmafIngesterRequest.User := "";
     CmafIngesterRequest.PassWord := "";
     CmafIngesterRequest.Dest := "http://dest";
     CmafIngesterRequest.URL := u;
     CmafIngesterRequest.TestNowMS := Some 1000 |}.

End World.

Example create_stores_session :
  fst (World.create (Start _ _ World.new) [] (World.request "testpic")) = Return 1 None
  /\ repsData
       <$> ingesters _ _ (snd (World.create (Start _ _ World.new) [] (World.request "testpic"))) !! 1
     = Some [ {| repID := "V300"; contentType := "video"; mimeType := "video/mp4";
                 initPath := "V300/init.mp4"; mediaPattern := "V300/$Number$.m4s" |};
              {| repID := "A48"; contentType := "audio"; mimeType := "audio/mp4";
                 initPath := "A48/init.mp4"; mediaPattern := "A48/$Number$.m4s" |} ].
Proof. split; vm_compute; reflexivity. Qed.

(** Ids 1, 5 and 6: id 2 is lost to a failed call, 3 and 4 go to two callers
    that overtake the third call between its load and its compare-and-swap. *)
Example history_ids :
  created (fst (World.history World.new
    [OpStart; OpCreate [] (World.request "testpic");
     OpCreate [] (World.request "nope");
     OpCreate [2%nat] (World.request "testpic");
     OpRemove 1;
     OpCreate [] (World.request "testpic")])) = [1; 5; 6].
Proof. vm_compute. reflexivity. Qed.

Lemma create_ids_strictly_increase_witness :
  let ops := [OpStart; OpCreate [] (World.request "testpic");
              OpCreate [] (World.request "nope");
              OpCreate [2%nat] (World.request "testpic");
              OpRemove 1;
              OpCreate [] (World.request "testpic")] in
  0 <= nr _ _ World.new
  /\ nr _ _ World.new + demand ops < 2 ^ 64
  /\ StronglySorted Z.lt (created (fst (World.history World.new ops)))
  /\ List.NoDup (created (fst (World.history World.new ops)))
  /\ Forall (fun i => nr _ _ World.new < i) (created (fst (World.history World.new ops))).
Proof.
  intros ops.
  split; [vm_compute; discriminate|]. split; [vm_compute; reflexivity|].
  apply create_ids_strictly_increase; [vm_compute; discriminate | vm_compute; reflexivity].
Defined.

Lemma create_not_running_witness :
  state _ _ World.new <> ingesterStateRunning
  /\ World.create World.new [] (World.request "testpic")
     = (Return 0 (Some ErrNotRunning), World.new).
Proof.
  split; [discriminate|].
  apply create_not_running. discriminate.
Defined.

Lemma failed_create_consumes_id_witness :
  let ops1 := [OpStart; OpCreate [] (World.request "testpic")] in
  let ops2 := [OpCreate [] (World.request "testpic")] in
  let req := World.request "nope" in
  let cm1 := snd (World.history World.new ops1) in
  let cm2 := snd (World.create cm1 [] req) in
  let a := fst (allocate [] (nr _ _ cm1)) in
  (demand (ops1 ++ OpCreate [] req :: ops2) < 2 ^ 64
   /\ fst (World.create cm1 [] req) = Return 0 (Some (ErrUnknownAsset "nope"))
   /\ ErrUnknownAsset "nope" <> ErrNotRunning)
  /\ 0 = 0
  /\ nr _ _ cm2 = a
  /\ nr _ _ cm1 < a
  /\ ingesters _ _ cm2 = ingesters _ _ cm1
  /\ ingesters _ _ (snd (World.history cm2 ops2)) !! a = None
  /\ ~ In a (created (fst (World.history World.new (ops1 ++ OpCreate [] req :: ops2)))).
Proof.
  intros ops1 ops2 req cm1 cm2 a.
  assert (H1 : demand (ops1 ++ OpCreate [] req :: ops2) < 2 ^ 64)
    by (vm_compute; reflexivity).
  assert (H2 : fst (World.create cm1 [] req) = Return 0 (Some (ErrUnknownAsset "nope")))
    by (vm_compute; reflexivity).
  assert (H3 : ErrUnknownAsset "nope" <> ErrNotRunning) by discriminate.
  split; [auto|].
  exact (failed_create_consumes_id unit string string (string * string) World.NewRequest
           World.setRawQuery World.cfgFromRequest World.URLContentPart World.findAsset
           World.pathSplit World.LiveMPD (fun sets => sets) (fun r => r)
           World.GetSegmentTemplate World.replaceIdentifiers
           ops1 ops2 [] req 0 (ErrUnknownAsset "nope") H1 H2 H3).
Defined.

(** The ids around the failed call: 1 and 3, with 2 missing. *)
Example failed_create_gap :
  created (fst (World.history World.new
    [OpStart; OpCreate [] (World.request "testpic");
     OpCreate [] (World.request "nope");
     OpCreate [] (World.request "testpic")])) = [1; 3].
Proof. vm_compute. reflexivity. Qed.

(** A created session as the registry stores it. *)
Lemma create_stores_request_witness :
  let cm := Start _ _ World.new in
  let req := World.request "testpic" in
  exists cm',
    World.create cm [] req = (Return 1 None, cm')
    /\ (exists c,
          ingesters _ _ cm' !! 1 = Some c
          /\ user c = CmafIngesterRequest.User req
          /\ passWord c = CmafIngesterRequest.PassWord req
          /\ dest c = CmafIngesterRequest.Dest req
          /\ url c = CmafIngesterRequest.URL req
          /\ TestNowMS c = CmafIngesterRequest.TestNowMS req
          /\ log c = 1
          /\ report c = [])
    /\ (forall k, k <> 1 -> ingesters _ _ cm' !! k = ingesters _ _ cm !! k)
    /\ state _ _ cm' = ingesterStateRunning
    /\ state _ _ cm = ingesterStateRunning.
Proof.
  intros cm req. exists (snd (World.create cm [] req)).
  assert (H : World.create cm [] req = (Return 1 None, snd (World.create cm [] req)))
    by (vm_compute; reflexivity).
  split; [exact H|].
  exact (create_stores_request unit string string (string * string) World.NewRequest
           World.setRawQuery World.cfgFromRequest World.URLContentPart World.findAsset
           World.pathSplit World.LiveMPD (fun sets => sets) (fun r => r)
           World.GetSegmentTemplate World.replaceIdentifiers
           cm (snd (World.create cm [] req)) [] req 1 H).
Defined.

Lemma create_descriptors_witness :
  let cm := Start _ _ World.new in
  let req := World.request "testpic" in
  exists cm' c,
    World.create cm [] req = (Return 1 None, cm')
    /\ ingesters _ _ cm' !! 1 = Some c
    /\ exists nowMS liveMPD period,
         World.LiveMPD (asset c) (snd (World.pathSplit (World.URLContentPart (cfg c))))
           (cfg c) nowMS = inl liveMPD
         /\ hd_error (Periods liveMPD) = Some period
         /\ List.map (fun rd => (contentType rd, repID rd)) (repsData c)
            = List.flat_map (setSegments string (fun r => r)) (AdaptationSets period)
         /\ Forall (fun rd => mimeTypeOf (contentType rd) = Some (mimeType rd)) (repsData c)
         /\ Forall (fun rd => contentType rd = "video"%string
                              \/ contentType rd = "audio"%string
                              \/ contentType rd = "text"%string) (repsData c).
Proof.
  intros cm req.
  destruct (ingesters _ _ (snd (World.create cm [] req)) !! 1) as [c|] eqn:Hc;
    [|vm_compute in Hc; discriminate].
  exists (snd (World.create cm [] req)), c.
  assert (H : World.create cm [] req = (Return 1 None, snd (World.create cm [] req)))
    by (vm_compute; reflexivity).
  split; [exact H|]. split; [exact Hc|].
  exact (create_descriptors unit string string (string * string) World.NewRequest
           World.setRawQuery World.cfgFromRequest World.URLContentPart World.findAsset
           World.pathSplit World.LiveMPD (fun sets => sets) (fun r => r)
           World.GetSegmentTemplate World.replaceIdentifiers
           cm (snd (World.create cm [] req)) [] req 1 c H Hc).
Defined.

End Registry.

(** ** The streaming bridge: [cmafSource] *)

Module Source.

Definition bytes : Type := list Byte.byte.

(** An unbuffered channel of empty structs, as a receiver finds it: nobody is
    sending, a sender is blocked in its send, or the channel is closed. *)
Inductive chanState :=
| NoSender
| SenderWaiting
| Closed.

(** The bridge and the two signals [Read] selects on. [buf] is guarded by
    [mu]: [Write] and the buffer part of [Read] are atomic with respect to
    each other. *)
Record cmafSource := {
  buf : bytes;
  status : Z;
  ctxDone : bool;
  noMoreCh : chanState
}.

Definition set_buf (c : cmafSource) (b : bytes) : cmafSource :=
  {| buf := b; status := status c; ctxDone := ctxDone c; noMoreCh := noMoreCh c |}.

Definition set_noMoreCh (c : cmafSource) (s : chanState) : cmafSource :=
  {| buf := buf c; status := status c; ctxDone := ctxDone c; noMoreCh := s |}.

Definition newCmafSource : cmafSource :=
  {| buf := []; status := 0; ctxDone := false; noMoreCh := NoSender |}.

(** [Write]: appends under the lock and reports all of [b] written. *)
Definition Write (b : bytes) (c : cmafSource) : (Z * option string) * cmafSource :=
  ((Z.of_nat (length b), None), set_buf c (buf c ++ b)).

Definition WriteHeader (st : Z) (c : cmafSource) : cmafSource :=
  {| buf := buf c; status := st; ctxDone := ctxDone c; noMoreCh := noMoreCh c |}.

Definition cancel (c : cmafSource) : cmafSource :=
  {| buf := buf c; status := status c; ctxDone := true; noMoreCh := noMoreCh c |}.

(** [copy(p, src)]: the number of bytes copied and the new contents of [p]. *)
Definition copy (p src : bytes) : nat * bytes :=
  let n := Nat.min (length p) (length src) in
  (n, firstn n src ++ skipn n p).

(** What [Read] returns: [(n, nil)] with the new contents of [p], or
    [(0, io.EOF)]. *)
Inductive readResult :=
| ReadOK (n : nat) (p' : bytes)
| ReadEOF.

(** [Read] is in one of two places: about to take the lock and look at the
    buffer, or at the [select]. *)
Inductive readPos :=
| AtLock
| AtSelect.

(** The locked part of the loop body: [None] when the buffer is empty. *)
Definition readBuffered (p : bytes) (c : cmafSource) : option (readResult * cmafSource) :=
  if (0 <? length (buf c))%nat then
    let '(n, p') := copy p (buf c) in
    let c' := if (n <? length (buf c))%nat then set_buf c (skipn n (buf c))
              else set_buf c (firstn 0 (buf c)) in
    Some (ReadOK n p', c')
  else None.

(** The [select]: [None] is the default case (sleep 250 ms and go round).
    When both channels are ready Go picks one at random: [tie] says whether
    it is [ctx.Done()]. A receive from a blocked sender releases it. *)
Definition readSelect (tie : bool) (c : cmafSource) : option (readResult * cmafSource) :=
  match ctxDone c, noMoreCh c with
  | true, NoSender => Some (ReadEOF, c)
  | true, SenderWaiting =>
      if tie then Some (ReadEOF, c) else Some (ReadEOF, set_noMoreCh c NoSender)
  | true, Closed => Some (ReadEOF, c)
  | false, SenderWaiting => Some (ReadEOF, set_noMoreCh c NoSender)
  | false, Closed => Some (ReadEOF, c)
  | false, NoSender => None
  end.

(** What happens around a running [Read], in the order it happens. *)
Inductive action :=
| Step (tie : bool)      (* Read runs up to its next lock or select *)
| Written (b : bytes)    (* the producer calls Write(b) *)
| Cancelled              (* the lifetime context is cancelled *)
| Sending                (* the producer blocks in its send on noMoreCh *)
| Closing.               (* noMoreCh is closed *)

Definition act (a : action) (c : cmafSource) : cmafSource :=
  match a with
  | Step _ => c
  | Written b => snd (Write b c)
  | Cancelled => cancel c
  | Sending => match noMoreCh c with Closed => c | _ => set_noMoreCh c SenderWaiting end
  | Closing => set_noMoreCh c Closed
  end.

(** [Read], from the place [pos], along a tape of actions. [None]: the tape
    is used up and [Read] has not returned, it is still polling. Otherwise
    the result, the bridge, and the rest of the tape. *)
Fixpoint ReadFrom (pos : readPos) (p : bytes) (tape : list action) (c : cmafSource)
  : option (readResult * cmafSource * list action) :=
  match tape with
  | [] => None
  | Step tie :: tape' =>
      match pos with
      | AtLock =>
          match readBuffered p c with
          | Some (r, c') => Some (r, c', tape')
          | None => ReadFrom AtSelect p tape' c
          end
      | AtSelect =>
          match readSelect tie c with
          | Some (r, c') => Some (r, c', tape')
          | None => ReadFrom AtLock p tape' c
          end
      end
  | a :: tape' => ReadFrom pos p tape' (act a c)
  end.

Definition Read (p : bytes) (tape : list action) (c : cmafSource)
  : option (readResult * cmafSource * list action) :=
  ReadFrom AtLock p tape c.

Definition signalled (c : cmafSource) : bool :=
  ctxDone c || match noMoreCh c with NoSender => false | _ => true end.

Definition isStep (a : action) : bool :=
  match a with Step _ => true | _ => false end.

(** *** Lemmas *)

Lemma copy_spec p src :
  fst (copy p src) = Nat.min (length p) (length src)
  /\ (fst (copy p src) <= length p)%nat
  /\ length (snd (copy p src)) = length p
  /\ firstn (fst (copy p src)) (snd (copy p src)) = firstn (fst (copy p src)) src.
Proof.
  unfold copy. cbn [fst snd]. split; [reflexivity|].
  generalize (Nat.le_min_l (length p) (length src)).
  generalize (Nat.le_min_r (length p) (length src)).
  generalize (Nat.min (length p) (length src)). intros n Hsrc Hp.
  assert (Hn : length (firstn n src) = n).
  { rewrite length_firstn. lia. }
  split; [lia|]. split.
  - rewrite length_app, Hn, length_skipn. lia.
  - rewrite List.firstn_app, Hn, Nat.sub_diag. cbn [firstn].
    rewrite List.app_nil_r. rewrite <- Hn at 1. apply List.firstn_all.
Qed.

(** With bytes in the buffer the locked part returns at once: at most
    [length p] bytes, taken from the front, and the rest stays. *)
Lemma readBuffered_nonempty p c :
  buf c <> [] ->
  let n := Nat.min (length p) (length (buf c)) in
  readBuffered p c
  = Some (ReadOK n (firstn n (buf c) ++ skipn n p), set_buf c (skipn n (buf c))).
Proof.
  intros Hne n. unfold readBuffered, copy. fold n.
  assert (Hlen : (0 < length (buf c))%nat).
  { destruct (buf c); [congruence | cbn; lia]. }
  destruct (Nat.ltb_spec 0 (length (buf c))) as [_|]; [|lia].
  destruct (Nat.ltb_spec n (length (buf c))) as [|Hge]; [reflexivity|].
  assert (n = length (buf c)) by (unfold n in *; lia).
  clearbody n. cbn [firstn].
  replace (skipn n (buf c)) with (@nil Byte.byte)
    by (symmetry; apply List.skipn_all2; lia).
  reflexivity.
Qed.

Lemma readBuffered_empty p c : buf c = [] -> readBuffered p c = None.
Proof. intros E. unfold readBuffered. rewrite E. reflexivity. Qed.

Lemma readSelect_quiet tie c : signalled c = false -> readSelect tie c = None.
Proof.
  unfold signalled, readSelect.
  destruct (ctxDone c), (noMoreCh c); cbn; congruence.
Qed.

Lemma readSelect_signalled tie c :
  signalled c = true ->
  exists c', readSelect tie c = Some (ReadEOF, c')
             /\ buf c' = buf c /\ ctxDone c' = ctxDone c.
Proof.
  unfold signalled, readSelect. destruct c as [b s d n].
  destruct d, n, tie; cbn; intros H;
    try discriminate; eexists; (split; [reflexivity|]); split; reflexivity.
Qed.

(** While nothing is written and no signal comes, [Read] on an empty buffer
    keeps polling. *)
Lemma ReadFrom_polls p steps : forall pos c,
  buf c = [] -> signalled c = false ->
  forallb isStep steps = true ->
  ReadFrom pos p steps c = None.
Proof.
  induction steps as [|a steps IH]; intros pos c Hb Hs Hall; [reflexivity|].
  cbn [forallb] in Hall. apply andb_prop in Hall as [Ha Hall].
  destruct a; try discriminate. cbn [ReadFrom].
  destruct pos.
  - rewrite readBuffered_empty by assumption. apply IH; assumption.
  - rewrite readSelect_quiet by assumption. apply IH; assumption.
Qed.

(** Whenever [Read] returns, it returns either bytes from the front of a
    non-empty buffer, at most [length p] of them, leaving the rest, or
    end-of-stream after a signal. *)
Lemma ReadFrom_sound p tape : forall pos c r c' tape',
  ReadFrom pos p tape c = Some (r, c', tape') ->
  match r with
  | ReadOK n p' =>
      exists b, b <> [] /\ n = Nat.min (length p) (length b)
                /\ p' = firstn n b ++ skipn n p /\ buf c' = skipn n b
  | ReadEOF => exists c0, signalled c0 = true /\ buf c' = buf c0
  end.
Proof.
  induction tape as [|a tape IH]; intros pos c r c' tape' H; [discriminate|].
  destruct a; cbn [ReadFrom] in H; try (eapply IH; exact H).
  destruct pos.
  - destruct (buf c) as [|x b] eqn:Hb.
    + rewrite readBuffered_empty in H by assumption. eapply IH; exact H.
    + rewrite readBuffered_nonempty in H by congruence.
      injection H as <- <- <-. exists (buf c).
      split; [congruence|]. repeat split; reflexivity.
  - destruct (signalled c) eqn:Hs.
    + destruct (readSelect_signalled tie c Hs) as (c1 & E & Hb1 & _).
      rewrite E in H. injection H as <- <- <-. exists c. split; assumption.
    + rewrite readSelect_quiet in H by assumption. eapply IH; exact H.
Qed.

(** C9. [Read] on a bridge whose buffer holds bytes returns at once, without
    an error, [n = min (len p, len buf)] bytes: the front of the buffer, in
    the front of [p]; the rest of the buffer stays for the next [Read]. On an
    empty buffer with no signal it polls for as long as nothing happens; when
    bytes are written meanwhile it returns bytes; when the context is done or
    the no-more-data channel has a sender or is closed, and the buffer is
    still empty, it returns end-of-stream and leaves the buffer empty. *)
Theorem Read_contract (p : bytes) (c : cmafSource) (tie tie' : bool)
  (tape : list action) :
  (buf c <> [] ->
     let n := Nat.min (length p) (length (buf c)) in
     (n <= length p)%nat
     /\ Read p (Step tie :: tape) c
        = Some (ReadOK n (firstn n (buf c) ++ skipn n p),
                set_buf c (skipn n (buf c)), tape)
     /\ firstn n (buf c) ++ skipn n (buf c) = buf c)
  /\ (buf c = [] -> signalled c = false ->
        (forall steps, forallb isStep steps = true -> Read p steps c = None)
        /\ forall b, b <> [] ->
             let n := Nat.min (length p) (length b) in
             Read p (Step tie :: Step tie' :: Written b :: Step tie :: tape) c
             = Some (ReadOK n (firstn n b ++ skipn n p),
                     set_buf c (skipn n b), tape))
  /\ (buf c = [] -> signalled c = true ->
        exists c', Read p (Step tie :: Step tie' :: tape) c = Some (ReadEOF, c', tape)
                   /\ buf c' = []).
Proof.
  split; [|split].
  - intros Hne n. split; [unfold n; lia|]. split.
    + unfold Read. cbn [ReadFrom]. rewrite readBuffered_nonempty by assumption.
      reflexivity.
    + apply List.firstn_skipn.
  - intros Hb Hs. split.
    + intros steps Hall. apply ReadFrom_polls; assumption.
    + intros b Hne n. unfold Read. cbn [ReadFrom act].
      rewrite readBuffered_empty by assumption.
      rewrite readSelect_quiet by assumption.
      assert (Hw : buf (snd (Write b c)) = b).
      { cbn. rewrite Hb. reflexivity. }
      rewrite readBuffered_nonempty by (rewrite Hw; assumption).
      rewrite Hw. reflexivity.
  - intros Hb Hs. unfold Read. cbn [ReadFrom].
    rewrite readBuffered_empty by assumption.
    destruct (readSelect_signalled tie' c Hs) as (c' & E & Hb' & _).
    exists c'. rewrite E. split; [reflexivity | congruence].
Qed.

(** A bridge holding three bytes, read into a buffer of two: two bytes come
    out and one stays; the next read gets it; the one after polls. *)
Example Read_twice :
  let c := set_buf newCmafSource [Byte.x0a; Byte.x0b; Byte.x0c] in
  let p := [Byte.x00; Byte.x00] in
  Read p [Step false] c = Some (ReadOK 2 [Byte.x0a; Byte.x0b], set_buf c [Byte.x0c], [])
  /\ Read p [Step false] (set_buf c [Byte.x0c])
     = Some (ReadOK 1 [Byte.x0c; Byte.x00], set_buf c [], [])
  /\ Read p [Step false; Step false; Step false; Step false] (set_buf c []) = None
  /\ Read p [Step false; Sending; Step false] (set_buf c [])
     = Some (ReadEOF, set_buf c [], []).
Proof. repeat split. Qed.

(** Bytes written between the look at the buffer and the select are still in
    the buffer when a signal ends the read. *)
Example Read_signal_after_write :
  Read [Byte.x00] [Step false; Written [Byte.x0a]; Closing; Step false] newCmafSource
  = Some (ReadEOF, set_noMoreCh (set_buf newCmafSource [Byte.x0a]) Closed, []).
Proof. reflexivity. Qed.

Lemma Read_contract_witness :
  let c := set_buf newCmafSource [Byte.x0a; Byte.x0b; Byte.x0c] in
  let e := cancel newCmafSource in
  let p := [Byte.x00; Byte.x00] in
  (buf c <> [] /\ buf e = [] /\ signalled e = true)
  /\ (2 <= length p)%nat
  /\ Read p [Step false] c = Some (ReadOK 2 [Byte.x0a; Byte.x0b], set_buf c [Byte.x0c], [])
  /\ exists e', Read p [Step false; Step false] e = Some (ReadEOF, e', []) /\ buf e' = [].
Proof.
  intros c e p.
  assert (H1 : buf c <> []) by discriminate.
  assert (H2 : buf e = []) by reflexivity.
  assert (H3 : signalled e = true) by reflexivity.
  split; [auto|].
  destruct (Read_contract p c false false []) as (Hdata & _ & _).
  destruct (Read_contract p e false false []) as (_ & _ & Heof).
  destruct (Hdata H1) as (Hn & Hread & _).
  split; [exact Hn|]. split; [exact Hread|]. exact (Heof H2 H3).
Defined.

End Source.

(** ** One push unit: [sendMediaSegment] and [cmafSource.start]

    Three goroutines work on one segment of one representation: the unit
    ([sendMediaSegment], which runs [writeSegment] and then the handshake),
    the request ([cmafSource.start], which runs the PUT and then sends on
    [finishedCh]) and the transport, which calls [Read] for the request
    body. They meet at two unbuffered channels, [stopCh] (the bridge's
    [noMoreCh]) and [finishedCh]. The model is a transition system: an event
    says which goroutine moves and what the environment answers. *)

Module PushUnit.

Import Source.

(** The errors [sendMediaSegment] tells apart. *)
Inductive segError :=
| errNotFound
| errTooEarly (msg : string)
| errGone
| errOther (msg : string).

(** [sendMediaSegment]: inside [writeSegment]; blocked in
    [stopCh <- struct{}{}]; blocked in [<-finishedCh]; returned, its deferred
    calls done. *)
Inductive unitPc :=
| UProducing
| USendStop
| UWaitFinished
| UReturned.

(** [cmafSource.start]: not yet at [http.NewRequestWithContext]; inside
    [http.DefaultClient.Do]; at the deferred [c.finishedCh <- struct{}{}];
    returned. *)
Inductive startPc :=
| SNew
| SDo
| SSendFinished
| SReturned.

(** The transport's use of the request body. *)
Inductive bodyPc :=
| BNotStarted
| BReading (pos : readPos)
| BEnded.

Record state := {
  upc : unitPc;
  spc : startPc;
  bpc : bodyPc;
  src : cmafSource;
  finishedClosed : bool;
  wgDone : bool;
  sent : bytes;
  logged : list string;
  panicked : bool
}.

Definition init : state :=
  {| upc := UProducing; spc := SNew; bpc := BNotStarted; src := newCmafSource;
     finishedClosed := false; wgDone := false; sent := []; logged := [];
     panicked := false |}.

Inductive event :=
| StartRuns (requestOk : bool)  (* start reaches NewRequestWithContext, which succeeds or not *)
| DoReturns                     (* Do returns, with a response or an error *)
| StartSends                    (* start's deferred send on finishedCh goes through or panics *)
| BodyStep (tie : bool) (size : nat)  (* the transport's Read, on a buffer of [size] bytes, runs to its next lock or select *)
| BodyAbandoned                 (* the transport stops reading the body *)
| Produce (b : bytes)           (* writeSegment calls Write(b) on the bridge *)
| Produced (err : option segError)  (* writeSegment returns *)
| Cancel.                       (* the lifetime context is cancelled *)

Definition mk (u : unitPc) (s : startPc) (b : bodyPc) (c : cmafSource)
  (fc wd : bool) (out : bytes) (lg : list string) (pn : bool) : state :=
  {| upc := u; spc := s; bpc := b; src := c; finishedClosed := fc; wgDone := wd;
     sent := out; logged := lg; panicked := pn |}.

(** [http.Error(src, "writeSegment", http.StatusInternalServerError)]. *)
Definition httpError (c : cmafSource) : cmafSource :=
  snd (Write (String.list_byte_of_string "writeSegment
") (WriteHeader 500 c)).

(** The error branch of [sendMediaSegment]: the log line of the case and,
    in the default case, the 500 written into the bridge. *)
Definition onError (e : segError) (c : cmafSource) : string * cmafSource :=
  match e with
  | errNotFound => ("segment not found"%string, c)
  | errTooEarly _ => ("segment too early"%string, c)
  | errGone => ("segment gone"%string, c)
  | errOther _ => ("writeSegment"%string, httpError c)
  end.

(** The deferred calls of [sendMediaSegment], last registered first:
    [close(finishedCh)], [close(stopCh)], [wg.Done()]. *)
Definition unitReturns (st : state) (lg : list string) (c : cmafSource) (s : startPc)
  : state :=
  mk UReturned s (bpc st) (set_noMoreCh c Closed) true true (sent st) lg false.

Definition step (st : state) (ev : event) : option state :=
  if panicked st then None else
  match ev with
  | StartRuns ok =>
      match spc st with
      | SNew =>
          if ok then
            Some (mk (upc st) SDo (BReading AtLock) (src st) (finishedClosed st)
                    (wgDone st) (sent st) (logged st) false)
          else
            Some (mk (upc st) SSendFinished (bpc st) (src st) (finishedClosed st)
                    (wgDone st) (sent st) (logged st ++ ["creating request"%string]) false)
      | _ => None
      end
  | DoReturns =>
      match spc st with
      | SDo => Some (mk (upc st) SSendFinished (bpc st) (src st) (finishedClosed st)
                       (wgDone st) (sent st) (logged st) false)
      | _ => None
      end
  | StartSends =>
      match spc st with
      | SSendFinished =>
          if finishedClosed st then
            (* send on closed channel *)
            Some (mk (upc st) SSendFinished (bpc st) (src st) true (wgDone st)
                    (sent st) (logged st) true)
          else
            match upc st with
            | UWaitFinished =>
                (* the unit receives, returns and runs its deferred calls *)
                Some (unitReturns st (logged st) (src st) SReturned)
            | _ => None
            end
      | _ => None
      end
  | BodyStep tie size =>
      match bpc st with
      | BReading AtLock =>
          match readBuffered (repeat Byte.x00 size) (src st) with
          | Some (ReadOK n p', c') =>
              Some (mk (upc st) (spc st) (BReading AtLock) c' (finishedClosed st)
                      (wgDone st) (sent st ++ firstn n p') (logged st) false)
          | Some (ReadEOF, c') =>
              Some (mk (upc st) (spc st) BEnded c' (finishedClosed st)
                      (wgDone st) (sent st) (logged st) false)
          | None =>
              Some (mk (upc st) (spc st) (BReading AtSelect) (src st) (finishedClosed st)
                      (wgDone st) (sent st) (logged st) false)
          end
      | BReading AtSelect =>
          match readSelect tie (src st) with
          | Some (_, c') =>
              (* end of stream; a unit blocked in its send on stopCh goes on
                 to wait on finishedCh *)
              let u := match upc st, noMoreCh (src st), noMoreCh c' with
                       | USendStop, SenderWaiting, NoSender => UWaitFinished
                       | u, _, _ => u
                       end in
              Some (mk u (spc st) BEnded c' (finishedClosed st)
                      (wgDone st) (sent st) (logged st) false)
          | None =>
              Some (mk (upc st) (spc st) (BReading AtLock) (src st) (finishedClosed st)
                      (wgDone st) (sent st) (logged st) false)
          end
      | _ => None
      end
  | BodyAbandoned =>
      match bpc st with
      | BReading _ => Some (mk (upc st) (spc st) BEnded (src st) (finishedClosed st)
                              (wgDone st) (sent st) (logged st) false)
      | _ => None
      end
  | Produce b =>
      match upc st with
      | UProducing => Some (mk UProducing (spc st) (bpc st) (snd (Write b (src st)))
                              (finishedClosed st) (wgDone st) (sent st) (logged st) false)
      | _ => None
      end
  | Produced None =>
      match upc st with
      | UProducing => Some (mk USendStop (spc st) (bpc st)
                              (set_noMoreCh (src st) SenderWaiting)
                              (finishedClosed st) (wgDone st) (sent st) (logged st) false)
      | _ => None
      end
  | Produced (Some e) =>
      match upc st with
      | UProducing =>
          let '(line, c) := onError e (src st) in
          Some (unitReturns st (logged st ++ ["writeSegment"%string; line]) c (spc st))
      | _ => None
      end
  | Cancel =>
      Some (mk (upc st) (spc st) (bpc st) (cancel (src st)) (finishedClosed st)
              (wgDone st) (sent st) (logged st) false)
  end.

Fixpoint run (st : state) (evs : list event) : option state :=
  match evs with
  | [] => Some st
  | ev :: evs' =>
      match step st ev with
      | Some st' => run st' evs'
      | None => None
      end
  end.

(** The events of [cmafSource.start]. *)
Definition isStart (ev : event) : bool :=
  match ev with StartRuns _ | DoReturns | StartSends => true | _ => false end.

(** The unit has returned while the request has not: [finishedCh] is closed
    under a sender that is still to come. *)
Definition doomed (st : state) : Prop :=
  upc st = UReturned /\ spc st <> SReturned /\ finishedClosed st = true
  /\ wgDone st = true.

(** Before the unit returns, [finishedCh] is open and the request has not
    returned. *)
Definition early (st : state) : Prop :=
  upc st <> UReturned -> spc st <> SReturned /\ finishedClosed st = false.

(** How many of its steps [cmafSource.start] has left at most. *)
Definition rank (st : state) : nat :=
  match spc st with SNew => 3 | SDo => 2 | SSendFinished => 1 | SReturned => 0 end.

Fixpoint countStart (evs : list event) : nat :=
  match evs with
  | [] => 0
  | ev :: evs' => (if isStart ev then 1 else 0) + countStart evs'
  end.

(** *** Invariants *)

Ltac step_cases H :=
  unfold step in H;
  repeat match type of H with
         | context [match ?x with _ => _ end] => destruct x eqn:?
         end;
  try discriminate; injection H as <-.

Lemma step_early st ev st' : step st ev = Some st' -> early st -> early st'.
Proof.
  intros H He. unfold early in *.
  step_cases H; cbn; intros Hu; try congruence;
    try (destruct He as [Hs Hf]; [congruence|]; split; congruence).
Qed.

Lemma step_doomed st ev st' : step st ev = Some st' -> doomed st -> doomed st'.
Proof.
  intros H (Hu & Hs & Hf & Hw). unfold doomed.
  step_cases H; cbn; repeat split; congruence.
Qed.

Lemma run_early evs : forall st st', run st evs = Some st' -> early st -> early st'.
Proof.
  induction evs as [|ev evs IH]; intros st st' H He; cbn [run] in H.
  - injection H as <-. exact He.
  - destruct (step st ev) as [st1|] eqn:E; [|discriminate].
    eapply IH; [exact H|]. eapply step_early; eassumption.
Qed.

Lemma run_doomed evs : forall st st', run st evs = Some st' -> doomed st -> doomed st'.
Proof.
  induction evs as [|ev evs IH]; intros st st' H Hd; cbn [run] in H.
  - injection H as <-. exact Hd.
  - destruct (step st ev) as [st1|] eqn:E; [|discriminate].
    eapply IH; [exact H|]. eapply step_doomed; eassumption.
Qed.

Lemma run_split evs1 : forall evs2 st st',
  run st (evs1 ++ evs2) = Some st' ->
  exists st1, run st evs1 = Some st1 /\ run st1 evs2 = Some st'.
Proof.
  induction evs1 as [|ev evs1 IH]; intros evs2 st st' H; cbn [app run] in *.
  - eauto.
  - destruct (step st ev) as [st1|]; [|discriminate]. apply IH, H.
Qed.

(** A failing [writeSegment] makes the unit return at once. *)
Lemma failure_dooms st e st' :
  early st -> step st (Produced (Some e)) = Some st' -> doomed st'.
Proof.
  intros He H. unfold step in H.
  destruct (panicked st); [discriminate|].
  destruct (upc st) eqn:Hu; try discriminate.
  destruct (onError e (src st)) as [line c]. injection H as <-.
  destruct He as [Hs Hf]; [congruence|]. unfold doomed. cbn. auto.
Qed.

(** Every step of [cmafSource.start] that is not the panic brings it one
    step closer to its deferred send. *)
Lemma step_rank st ev st' :
  step st ev = Some st' -> panicked st' = false ->
  (rank st' + (if isStart ev then 1 else 0) <= rank st)%nat.
Proof.
  intros H Hp. unfold rank.
  step_cases H; cbn in *; try discriminate;
    repeat match goal with E : spc _ = _ |- _ => rewrite E end; cbn; lia.
Qed.

Lemma step_not_panicked st ev st' : step st ev = Some st' -> panicked st = false.
Proof. unfold step. destruct (panicked st); [discriminate | reflexivity]. Qed.

Lemma run_rank evs : forall st st',
  run st evs = Some st' -> panicked st' = false ->
  (rank st' + countStart evs <= rank st)%nat.
Proof.
  induction evs as [|ev evs IH]; intros st st' H Hp; cbn [run countStart] in *.
  - injection H as <-. lia.
  - destruct (step st ev) as [st1|] eqn:E; [|discriminate].
    specialize (IH st1 st' H Hp).
    assert (Hp1 : panicked st1 = false).
    { destruct evs as [|ev' evs']; cbn [run] in H.
      - congruence.
      - destruct (step st1 ev') eqn:E'; [|discriminate].
        eapply step_not_panicked; eassumption. }
    pose proof (step_rank st ev st1 E Hp1). lia.
Qed.

Lemma countStart_app evs1 evs2 :
  countStart (evs1 ++ evs2) = (countStart evs1 + countStart evs2)%nat.
Proof. induction evs1 as [|ev evs1 IH]; cbn [app countStart]; lia. Qed.

(** The request goroutine of a doomed unit is never blocked. *)
Lemma doomed_enabled st :
  doomed st -> panicked st = false ->
  exists ev st', isStart ev = true /\ step st ev = Some st'.
Proof.
  intros (Hu & Hs & Hf & Hw) Hp.
  destruct (spc st) eqn:E; [| | |congruence].
  - exists (StartRuns true). eexists. split; [reflexivity|].
    unfold step. rewrite Hp, E. reflexivity.
  - exists DoReturns. eexists. split; [reflexivity|].
    unfold step. rewrite Hp, E. reflexivity.
  - exists StartSends. eexists. split; [reflexivity|].
    unfold step. rewrite Hp, E, Hf. reflexivity.
Qed.

(** *** What a failing segment does to the process *)

(** C5 (the code at a failing segment). When [writeSegment] fails, with
    segment-not-found, too-early, gone or any other error, the unit returns
    and releases the round's wait group, and its deferred [close(finishedCh)]
    closes the channel that the request goroutine [cmafSource.start] sends on
    when it ends. From then on that goroutine never returns normally, it is
    never blocked, and its send on the closed channel panics: once it has
    taken its three steps (create the request, return from the PUT, send)
    the program has panicked. *)
Theorem failed_unit_panics (e : segError) (pre post : list event) (st : state) :
  run init (pre ++ Produced (Some e) :: post) = Some st ->
  upc st = UReturned
  /\ wgDone st = true
  /\ spc st <> SReturned
  /\ (panicked st = false ->
        exists ev st', isStart ev = true /\ step st ev = Some st')
  /\ ((3 <= countStart (pre ++ post))%nat -> panicked st = true).
Proof.
  intros H.
  assert (Hinit : early init) by (intros _; split; [discriminate | reflexivity]).
  destruct (run_split pre _ _ _ H) as (st1 & H1 & H2).
  cbn [run] in H2.
  destruct (step st1 (Produced (Some e))) as [st2|] eqn:E; [|discriminate].
  pose proof (run_early _ _ _ H1 Hinit) as He1.
  pose proof (failure_dooms _ _ _ He1 E) as Hd2.
  pose proof (run_doomed _ _ _ H2 Hd2) as Hd.
  destruct Hd as (Hu & Hs & Hf & Hw).
  split; [exact Hu|]. split; [exact Hw|]. split; [exact Hs|]. split.
  - intros Hp. apply doomed_enabled; [|exact Hp]. repeat split; assumption.
  - intros Hc. destruct (panicked st) eqn:Hp; [reflexivity|]. exfalso.
    pose proof (run_rank _ _ _ H Hp) as Hr.
    rewrite countStart_app in Hr, Hc. cbn [countStart isStart] in Hr.
    assert (rank init = 3%nat) by reflexivity.
    assert (1 <= rank st)%nat.
    { unfold rank. destruct (spc st); try lia. congruence. }
    lia.
Qed.

(** A segment that is not found, while the PUT is under way: the unit
    returns, the PUT ends, the request goroutine panics. *)
Definition notFoundTrace : list event * list event :=
  ([StartRuns true; BodyStep false 4096; BodyStep false 4096],
   [BodyStep false 4096; BodyStep false 4096; DoReturns; StartSends]).

Lemma failed_unit_panics_witness :
  exists st,
    run init (fst notFoundTrace ++ Produced (Some errNotFound) :: snd notFoundTrace)
    = Some st
    /\ upc st = UReturned
    /\ wgDone st = true
    /\ spc st <> SReturned
    /\ panicked st = true.
Proof.
  destruct (run init (fst notFoundTrace ++ Produced (Some errNotFound) :: snd notFoundTrace))
    as [st|] eqn:E; [|vm_compute in E; discriminate].
  exists st. split; [reflexivity|].
  destruct (failed_unit_panics errNotFound (fst notFoundTrace) (snd notFoundTrace) st E)
    as (Hu & Hw & Hs & _ & Hp).
  split; [exact Hu|]. split; [exact Hw|]. split; [exact Hs|].
  apply Hp. vm_compute. lia.
Defined.

(** The same segment when it is produced: the bridge hands the bytes to the
    transport, the unit and the request goroutine meet on both channels, and
    nothing panics. *)
Example produced_unit_returns :
  exists st,
    run init [StartRuns true; BodyStep false 4; Produce [Byte.x01; Byte.x02; Byte.x03];
              BodyStep false 2; BodyStep false 2; Produced None;
              BodyStep false 2; BodyStep false 2; BodyStep false 2;
              DoReturns; StartSends] = Some st
    /\ upc st = UReturned /\ spc st = SReturned /\ wgDone st = true
    /\ sent st = [Byte.x01; Byte.x02; Byte.x03] /\ panicked st = false.
Proof. eexists. split; [vm_compute; reflexivity|]. repeat split. Qed.

(** *** Further properties of the push unit: the bytes *)

(** The bytes an event puts into the bridge: those of a [Write] by
    [writeSegment], and the body [http.Error] writes in the default error
    case. *)
Definition writes (ev : event) : bytes :=
  match ev with
  | Produce b => b
  | Produced (Some e) => buf (snd (onError e newCmafSource))
  | _ => []
  end.

Fixpoint written (evs : list event) : bytes :=
  match evs with
  | [] => []
  | ev :: evs' => writes ev ++ written evs'
  end.

Definition isFailure (ev : event) : bool :=
  match ev with Produced (Some _) => true | _ => false end.

Lemma readBuffered_conserves p c r c' :
  readBuffered p c = Some (r, c') ->
  exists n p', r = ReadOK n p' /\ firstn n p' ++ buf c' = buf c.
Proof.
  intros H. destruct (buf c) as [|x b] eqn:Hb.
  - rewrite readBuffered_empty in H by assumption. discriminate.
  - rewrite readBuffered_nonempty in H by congruence.
    injection H as <- <-. eexists _, _. split; [reflexivity|].
    cbn [buf set_buf].
    pose proof (copy_spec p (buf c)) as (_ & _ & _ & Hc).
    unfold copy in Hc. cbn [fst snd] in Hc. rewrite Hc.
    rewrite List.firstn_skipn. exact Hb.
Qed.

Lemma readSelect_buf tie c r c' : readSelect tie c = Some (r, c') -> buf c' = buf c.
Proof.
  unfold readSelect. destruct (ctxDone c), (noMoreCh c), tie; intros H;
    try discriminate; injection H as <- <-; reflexivity.
Qed.

Lemma step_conserves st ev st' :
  step st ev = Some st' ->
  sent st' ++ buf (src st') = (sent st ++ buf (src st)) ++ writes ev.
Proof.
  intros H. unfold step in H.
  destruct (panicked st); [discriminate|].
  destruct ev as [ok| | |tie size| |b|[e|]|]; cbn [writes].
  - destruct (spc st); try discriminate. destruct ok; injection H as <-;
      cbn; rewrite List.app_nil_r; reflexivity.
  - destruct (spc st); try discriminate. injection H as <-.
    cbn; rewrite List.app_nil_r; reflexivity.
  - destruct (spc st); try discriminate.
    destruct (finishedClosed st).
    + injection H as <-. cbn; rewrite List.app_nil_r; reflexivity.
    + destruct (upc st); try discriminate. injection H as <-.
      cbn; rewrite List.app_nil_r; reflexivity.
  - destruct (bpc st) as [|[|]|]; try discriminate.
    + destruct (readBuffered (repeat Byte.x00 size) (src st)) as [[r c']|] eqn:E.
      * destruct (readBuffered_conserves _ _ _ _ E) as (n & p' & -> & Hc).
        injection H as <-. cbn. rewrite List.app_nil_r, <- List.app_assoc, Hc.
        reflexivity.
      * injection H as <-. cbn; rewrite List.app_nil_r; reflexivity.
    + destruct (readSelect tie (src st)) as [[r c']|] eqn:E.
      * apply readSelect_buf in E. injection H as <-.
        cbn. rewrite List.app_nil_r, E. reflexivity.
      * injection H as <-. cbn; rewrite List.app_nil_r; reflexivity.
  - destruct (bpc st); try discriminate. injection H as <-.
    cbn; rewrite List.app_nil_r; reflexivity.
  - destruct (upc st); try discriminate. injection H as <-.
    cbn. rewrite List.app_assoc. reflexivity.
  - destruct (upc st); try discriminate.
    destruct e; cbn in H; injection H as <-; cbn;
      rewrite ?List.app_nil_r, ?List.app_assoc; reflexivity.
  - destruct (upc st); try discriminate. injection H as <-.
    cbn; rewrite List.app_nil_r; reflexivity.
  - injection H as <-. cbn; rewrite List.app_nil_r; reflexivity.
Qed.

Lemma run_conserves evs : forall st st',
  run st evs = Some st' ->
  sent st' ++ buf (src st') = (sent st ++ buf (src st)) ++ written evs.
Proof.
  induction evs as [|ev evs IH]; intros st st' H; cbn [run written] in *.
  - injection H as <-. rewrite List.app_nil_r. reflexivity.
  - destruct (step st ev) as [st1|] eqn:E; [|discriminate].
    rewrite (IH _ _ H), (step_conserves _ _ _ E), <- !List.app_assoc. reflexivity.
Qed.

(** X12. The bridge neither loses, nor repeats, nor reorders bytes: at every
    point of a push unit, the bytes handed to the transport so far, followed
    by the bytes still in the buffer, are exactly the bytes written into the
    bridge so far, in the order they were written. *)
Theorem bridge_conserves_bytes (evs : list event) (st : state) :
  run init evs = Some st ->
  sent st ++ buf (src st) = written evs.
Proof. intros H. apply run_conserves in H. exact H. Qed.

(** X13. A unit can complete its whole handshake, without an error and
    without a panic, and yet upload nothing of what [writeSegment] wrote:
    when [Read] has found the buffer empty and all of the segment is written
    and [stopCh] signalled before [Read] reaches its [select], [Read] reports
    end-of-stream and the segment stays in the buffer. *)
Theorem completed_unit_may_drop_bytes (b : bytes) (size : nat) (tie : bool) :
  exists st,
    run init [StartRuns true; BodyStep tie size; Produce b; Produced None;
              BodyStep tie size; DoReturns; StartSends] = Some st
    /\ upc st = UReturned /\ spc st = SReturned /\ wgDone st = true
    /\ panicked st = false /\ sent st = [] /\ buf (src st) = b.
Proof.
  eexists. split.
  - cbn [run step init panicked spc upc bpc src finishedClosed wgDone sent logged mk].
    rewrite readBuffered_empty by reflexivity.
    cbn. reflexivity.
  - cbn. repeat split.
Qed.

(** *** Further properties of the push unit: when nothing fails *)

(** [finishedCh] is closed, the wait group released and the unit returned all
    at once and only after the request goroutine has returned; the unit gets
    past its send on [stopCh] only when the transport has seen end-of-stream. *)
Definition orderly (st : state) : Prop :=
  panicked st = false
  /\ (finishedClosed st = true \/ wgDone st = true \/ upc st = UReturned ->
      upc st = UReturned /\ spc st = SReturned /\ finishedClosed st = true
      /\ wgDone st = true)
  /\ (upc st = UWaitFinished \/ upc st = UReturned -> bpc st = BEnded)
  /\ (bpc st <> BNotStarted -> spc st <> SNew).

Lemma step_orderly st ev st' :
  isFailure ev = false -> step st ev = Some st' -> orderly st -> orderly st'.
Proof.
  intros Hev H (Hp & Hc & Hb & Hn). unfold orderly.
  destruct ev as [ok| | |tie size| |b|[e|]|]; try discriminate Hev;
    step_cases H; cbn [panicked finishedClosed wgDone upc spc bpc mk unitReturns];
    try solve [exfalso; destruct Hc as (_ & ? & _); [auto | congruence]];
    (split; [reflexivity|]);
    (split; [intros Hx | split; intros Hx]);
    try solve [intuition congruence];
    try solve [exfalso; apply Hn; [rewrite Hb by exact Hx; discriminate | assumption]].
Qed.

Lemma run_orderly evs : forall st st',
  forallb (fun ev => negb (isFailure ev)) evs = true ->
  run st evs = Some st' -> orderly st -> orderly st'.
Proof.
  induction evs as [|ev evs IH]; intros st st' Hall H Ho; cbn [run forallb] in *.
  - injection H as <-. exact Ho.
  - apply andb_prop in Hall as [Hev Hall].
    destruct (step st ev) as [st1|] eqn:E; [|discriminate].
    eapply IH; [exact Hall | exact H|].
    eapply step_orderly; [|exact E | exact Ho].
    destruct (isFailure ev); [discriminate | reflexivity].
Qed.

(** X14. As long as [writeSegment] does not fail, a push unit never panics,
    and the unit returns (releasing the round's wait group and closing
    [finishedCh]) only after the transport has seen the end of the body and
    the request goroutine has made its send on [finishedCh] and returned. *)
Theorem no_failure_no_panic (evs : list event) (st : state) :
  forallb (fun ev => negb (isFailure ev)) evs = true ->
  run init evs = Some st ->
  panicked st = false
  /\ (wgDone st = true \/ upc st = UReturned \/ finishedClosed st = true ->
      upc st = UReturned /\ wgDone st = true /\ finishedClosed st = true
      /\ spc st = SReturned /\ bpc st = BEnded).
Proof.
  intros Hall H.
  assert (Hinit : orderly init).
  { unfold orderly. cbn. split; [reflexivity|].
    split; [|split]; intuition discriminate. }
  destruct (run_orderly _ _ _ Hall H Hinit) as (Hp & Hc & Hb & _).
  split; [exact Hp|]. intros Hx.
  assert (Hy : finishedClosed st = true \/ wgDone st = true \/ upc st = UReturned)
    by tauto.
  destruct (Hc Hy) as (Hu & Hs & Hf & Hw).
  repeat split; auto.
Qed.

(** *** Further properties of the push unit: a body nobody reads *)

(** The unit is blocked in its send on [stopCh], the request goroutine has
    started, and the transport is not reading the body (it never began, or it
    has stopped). *)
Definition blocked (st : state) : Prop :=
  upc st = USendStop /\ spc st <> SNew /\ spc st <> SReturned
  /\ (bpc st = BEnded \/ bpc st = BNotStarted)
  /\ finishedClosed st = false /\ wgDone st = false /\ panicked st = false.

(** The wait group is released, and a panic happens, only with [finishedCh]
    closed. *)
Definition sealed (st : state) : Prop :=
  wgDone st = true \/ panicked st = true -> finishedClosed st = true.

Lemma step_sealed st ev st' : step st ev = Some st' -> sealed st -> sealed st'.
Proof.
  intros H Hs. unfold sealed in *.
  step_cases H; cbn [panicked finishedClosed wgDone mk unitReturns];
    intuition congruence.
Qed.

Lemma run_sealed evs : forall st st', run st evs = Some st' -> sealed st -> sealed st'.
Proof.
  induction evs as [|ev evs IH]; intros st st' H Hs; cbn [run] in H.
  - injection H as <-. exact Hs.
  - destruct (step st ev) as [st1|] eqn:E; [|discriminate].
    eapply IH; [exact H|]. eapply step_sealed; eassumption.
Qed.

Lemma step_blocked st ev st' :
  step st ev = Some st' -> blocked st -> blocked st' /\ sent st' = sent st.
Proof.
  intros H (Hu & Hn & Hr & Hb & Hf & Hw & Hp). unfold blocked.
  step_cases H; cbn [panicked finishedClosed wgDone upc spc bpc sent mk unitReturns];
    try congruence; try (destruct Hb; congruence);
    (split; [|reflexivity]);
    repeat (split; [first [assumption | congruence | reflexivity]|]);
    first [assumption | congruence | reflexivity].
Qed.

Lemma run_blocked evs : forall st st',
  run st evs = Some st' -> blocked st -> blocked st' /\ sent st' = sent st.
Proof.
  induction evs as [|ev evs IH]; intros st st' H Hb; cbn [run] in H.
  - injection H as <-. split; [exact Hb | reflexivity].
  - destruct (step st ev) as [st1|] eqn:E; [|discriminate].
    destruct (step_blocked _ _ _ E Hb) as [Hb1 Hs1].
    destruct (IH _ _ H Hb1) as [Hb' Hs']. split; [exact Hb' | congruence].
Qed.

(** X15. When [writeSegment] has succeeded and the unit is in its send on
    [stopCh] while nobody reads the request body (the request could not be
    created, so that the transport never began, or the transport has stopped
    reading), the unit is blocked for good: whatever happens afterwards,
    cancellation included, it stays in that send, the round's wait group is
    never released, the request goroutine never returns from its own send on
    [finishedCh], and no further byte is uploaded. *)
Theorem unread_body_blocks_unit (pre post : list event) (st1 st : state) :
  run init pre = Some st1 ->
  upc st1 = USendStop ->
  spc st1 <> SNew ->
  bpc st1 = BEnded \/ bpc st1 = BNotStarted ->
  run st1 post = Some st ->
  upc st = USendStop /\ wgDone st = false /\ spc st <> SReturned
  /\ panicked st = false /\ sent st = sent st1.
Proof.
  intros H1 Hu Hn Hb H2.
  assert (He : early init) by (intros _; split; [discriminate | reflexivity]).
  assert (Hs : sealed init) by (intros [H|H]; discriminate H).
  pose proof (run_early _ _ _ H1 He) as He1.
  pose proof (run_sealed _ _ _ H1 Hs) as Hs1.
  destruct He1 as [Hr Hf]; [congruence|].
  assert (Hbl : blocked st1).
  { unfold blocked. unfold sealed in Hs1.
    split; [exact Hu|]. split; [exact Hn|]. split; [exact Hr|].
    split; [exact Hb|]. split; [exact Hf|].
    split; [destruct (wgDone st1); [|reflexivity]; intuition congruence|].
    destruct (panicked st1); [|reflexivity]. intuition congruence. }
  destruct (run_blocked _ _ _ H2 Hbl) as ((Hu' & _ & Hr' & _ & _ & Hw' & Hp') & Hsent).
  repeat split; assumption.
Qed.

(** Three bytes written, two of them handed to the transport so far. *)
Lemma bridge_conserves_bytes_witness :
  exists st,
    run init [StartRuns true; BodyStep false 4; Produce [Byte.x01; Byte.x02; Byte.x03];
              BodyStep false 2] = Some st
    /\ sent st ++ buf (src st) = [Byte.x01; Byte.x02; Byte.x03].
Proof.
  destruct (run init [StartRuns true; BodyStep false 4;
                      Produce [Byte.x01; Byte.x02; Byte.x03]; BodyStep false 2])
    as [st|] eqn:E; [|vm_compute in E; discriminate].
  exists st. split; [reflexivity|].
  exact (bridge_conserves_bytes _ st E).
Defined.

(** A segment of three bytes, delivered in two reads. *)
Definition deliveredTrace : list event :=
  [StartRuns true; BodyStep false 4; Produce [Byte.x01; Byte.x02; Byte.x03];
   BodyStep false 2; BodyStep false 2; Produced None;
   BodyStep false 2; BodyStep false 2; BodyStep false 2;
   DoReturns; StartSends].

Lemma no_failure_no_panic_witness :
  exists st,
    (forallb (fun ev => negb (isFailure ev)) deliveredTrace = true
     /\ run init deliveredTrace = Some st)
    /\ panicked st = false
    /\ (wgDone st = true \/ upc st = UReturned \/ finishedClosed st = true ->
        upc st = UReturned /\ wgDone st = true /\ finishedClosed st = true
        /\ spc st = SReturned /\ bpc st = BEnded).
Proof.
  destruct (run init deliveredTrace) as [st|] eqn:E; [|vm_compute in E; discriminate].
  assert (H : forallb (fun ev => negb (isFailure ev)) deliveredTrace = true)
    by reflexivity.
  exists st. split; [auto|].
  exact (no_failure_no_panic deliveredTrace st H E).
Defined.

(** The destination refuses the connection: the transport gives the body up,
    [Do] returns an error, and the unit, its segment written, stays in its
    send on [stopCh], also when the context is cancelled. *)
Lemma unread_body_blocks_unit_witness :
  let pre := [StartRuns true; BodyAbandoned; Produce [Byte.x01]; Produced None] in
  let post := [DoReturns; Cancel] in
  exists st1 st,
    (run init pre = Some st1
     /\ upc st1 = USendStop /\ spc st1 <> SNew
     /\ (bpc st1 = BEnded \/ bpc st1 = BNotStarted)
     /\ run st1 post = Some st)
    /\ upc st = USendStop /\ wgDone st = false /\ spc st <> SReturned
    /\ panicked st = false /\ sent st = sent st1.
Proof.
  intros pre post.
  destruct (run init pre) as [st1|] eqn:E1; [|vm_compute in E1; discriminate].
  assert (E : st1 = mk USendStop SDo BEnded
                      (set_noMoreCh (set_buf newCmafSource [Byte.x01]) SenderWaiting)
                      false false [] [] false)
    by (vm_compute in E1; injection E1 as <-; reflexivity).
  destruct (run st1 post) as [st|] eqn:E2; [|rewrite E in E2; vm_compute in E2; discriminate].
  assert (H1 : upc st1 = USendStop) by (rewrite E; reflexivity).
  assert (H2 : spc st1 <> SNew) by (rewrite E; discriminate).
  assert (H3 : bpc st1 = BEnded \/ bpc st1 = BNotStarted) by (left; rewrite E; reflexivity).
  exists st1, st. split; [auto|].
  exact (unread_body_blocks_unit pre post st1 st E1 H1 H2 H3 E2).
Defined.

End PushUnit.

(** ** The ingest session: [cmafIngester]

    [start] is run against two tapes. [clock] holds the instants, in
    nanoseconds since the epoch, at which the session looks at the clock: at
    [time.Now()] and when it arms the timer ([time.NewTimer], [timer.Reset]).
    [wakes] holds, for each [select] of the main loop, the case that becomes
    ready and the instant at which it does. *)

Module Session.

Definition bytes : Type := list Byte.byte.

Inductive level := LevelDebug | LevelInfo | LevelError.

Record logLine := {
  lvl : level;
  msg : string;
  attrs : list string
}.

(** A PUT of an init segment that [sendInitSegment] issued. *)
Record initPut := {
  putURL : string;
  putMime : string;
  putBody : bytes
}.

(** How a PUT ends for [sendInitSegment]: the request cannot be built, it
    cannot be sent, the response body cannot be read, or a response with some
    status code arrives and is read. *)
Inductive putOutcome :=
| RequestError (cause : string)
| SendError (cause : string)
| BodyError (statusCode : Z) (cause : string)
| Response (statusCode : Z).

(** One goroutine [go c.sendMediaSegment(ctx, &wg, segPath, segPart, segNr,
    nowMS, rd)]. *)
Record pushUnit := {
  uRep : cmafRepData;
  uSegPath : string;
  uSegPart : string;
  uSegNr : Z;
  uNowMS : Z
}.

Inductive roundResult :=
| RoundOk
| RoundError (err : string)
| RoundPanic.

(** One call of [sendMediaSegments]: its arguments, the units it started and
    what it returned. *)
Record round := {
  segNr : Z;
  rNowMS : Z;
  units : list pushUnit;
  result : roundResult
}.

(** The timer of [start]: armed with a deadline, or fired and received. *)
Inductive timerState :=
| Armed (deadline : Z)
| Received.

Inductive wake :=
| TimerFired
| Triggered
| CtxDone.

(** How a run of [start] against its tapes ends. [Returned]: [start] has
    returned. [StuckInDefer]: [start] is leaving but its deferred function
    waits on the channel of a timer that has fired and been received.
    [Waiting]: it is blocked in the [select], no wake-up is left.
    [ClockMissing]: the clock tape is used up. [NotDue]: the tape fires the
    timer before its deadline, or a timer that is not armed; no execution
    does that. [Panicked]: a slice expression is out of range. *)
Inductive outcome :=
| Returned
| StuckInDefer
| Waiting
| ClockMissing
| NotDue
| Panicked.

(** [time.Duration(availabilityTime-int64(nowMS)) * time.Millisecond]. *)
Definition duration (availabilityTime nowMS : Z) : Z :=
  Go.int (Go.int (availabilityTime - nowMS) * Go.Millisecond).

(** [int(time.Now().UnixNano() / 1e6)]. *)
Definition unixMS (ns : Z) : Z := Go.int (Z.quot ns 1000000).

(** [strings.Join(parts, "/")]. *)
Definition joinPath (parts : list string) : string := String.concat "/" parts.

(** [URLParts[2 : len(URLParts)-1]]; [None] when the bounds are out of
    range. *)
Definition assetPartsOf (parts : list string) : option (list string) :=
  if (3 <=? length parts)%nat
  then Some (firstn (length parts - 3) (skipn 2 parts))
  else None.

Section Start.

Variables Fields Asset RepData SegEntries WrapTimes InitMatch : Type.

Abbreviation Config := (ResponseConfig Fields).
Abbreviation Ingester := (cmafIngester Fields Asset).

(** [matchTimeSubsInitLang]: prefix, language, ok, error. *)
Variable matchTimeSubsInitLang : Config -> string -> string * string * bool * option string.
(** [createTimeSubsInitSegment(prefix, lang, SUBS_TIME_TIMESCALE)] and its
    encoding: the bytes, or the text of the encoding error. *)
Variable encodeTimeSubsInit : string -> string -> bytes + string.
(** [matchInit]: the match and the error. *)
Variable matchInit : string -> Config -> Asset -> InitMatch * option string.
Variable isInit : InitMatch -> bool.
Variable init : InitMatch -> bytes.
(** [match.rep.SegmentType()]: [None] when the call panics. *)
Variable repSegmentType : InitMatch -> option string.
(** The network, for the PUT of an init segment to a URL. *)
Variable httpPut : string -> string -> bytes -> putOutcome.
Variable refRep : Asset -> RepData.
Variable findLastSegNr : Config -> Asset -> Z -> RepData -> Z.
Variable calcSegmentAvailabilityTime : Asset -> RepData -> Z -> Config -> Z + string.
Variable calcWrapTimes : Asset -> Config -> Z -> Z -> WrapTimes.
(** [int(cfg.getAvailabilityTimeOffsetS() * 1000)]. *)
Variable availabilityTimeOffsetMS : Config -> Z.
Variable generateTimelineEntries : Asset -> string -> WrapTimes -> Z -> SegEntries.
Variable generateTimelineEntriesFromRef : Asset -> SegEntries -> string -> SegEntries.
Variable lastTime : SegEntries -> Z.
(** The zero value of [segEntries]. *)
Variable noSegEntries : SegEntries.
Variable replaceTimeOrNr : string -> Z -> string.

(** The session while [start] runs: the ingester (its report grows, the
    [URLParts] of its configuration are written to), the log, the init PUTs
    and the rounds. *)
Record state := {
  ingester : Ingester;
  logged : list logLine;
  initPuts : list initPut;
  rounds : list round
}.

Definition set_ingester (st : state) (c : Ingester) : state :=
  {| ingester := c; logged := logged st; initPuts := initPuts st; rounds := rounds st |}.

Definition set_report (c : Ingester) (r : list string) : Ingester :=
  {| user := user c; passWord := passWord c; dest := dest c; url := url c;
     log := log c; TestNowMS := TestNowMS c; cfg := cfg c; asset := asset c;
     repsData := repsData c; report := r |}.

Definition set_cfg (c : Ingester) (g : Config) : Ingester :=
  {| user := user c; passWord := passWord c; dest := dest c; url := url c;
     log := log c; TestNowMS := TestNowMS c; cfg := g; asset := asset c;
     repsData := repsData c; report := report c |}.

Definition logLn (l : level) (m : string) (a : list string) (st : state) : state :=
  {| ingester := ingester st;
     logged := logged st ++ [ {| lvl := l; msg := m; attrs := a |} ];
     initPuts := initPuts st; rounds := rounds st |}.

(** [c.report = append(c.report, msg); c.log.Error(msg)]. *)
Definition fail (m : string) (st : state) : state :=
  logLn LevelError m [] (set_ingester st (set_report (ingester st) (report (ingester st) ++ [m]))).

(** [append(assetParts, part)], for [assetParts] the sub-slice
    [URLParts[2 : len-1]]: the sub-slice has room for one more element, so
    the new element is written over the last element of [URLParts]. The
    result is the new slice and the configuration. *)
Definition appendPart (assetParts : list string) (g : Config) (part : string)
  : list string * Config :=
  (assetParts ++ [part],
   {| URLParts := firstn (length (URLParts g) - 1) (URLParts g) ++ [part];
      SegTimelineFlag := SegTimelineFlag g;
      otherFields := otherFields g |}).

(** [sendInitSegment]: the PUT it issued, if it got that far, and the error
    it returns. The status code of the response is not looked at. *)
Definition sendInitSegment (c : Ingester) (filename mimeType : string) (data : bytes)
  : option initPut * option string :=
  let u := (dest c +:+ "/" +:+ filename)%string in
  let put := {| putURL := u; putMime := mimeType; putBody := data |} in
  match httpPut u mimeType data with
  | RequestError cause => (None, Some ("Error creating request: " +:+ cause)%string)
  | SendError cause => (Some put, Some ("Error sending request: " +:+ cause)%string)
  | BodyError _ cause => (Some put, Some ("Error reading response body: " +:+ cause)%string)
  | Response _ => (Some put, None)
  end.

(** *** The round: [sendMediaSegments] *)

Definition mkUnit (rd : cmafRepData) (segPath segPart : string) (nextSegNr nowMS : Z)
  : pushUnit :=
  {| uRep := rd; uSegPath := segPath; uSegPart := segPart;
     uSegNr := nextSegNr; uNowMS := nowMS |}.

Definition isIndependent (contentType : string) : bool :=
  String.eqb contentType "video" || String.eqb contentType "text"
  || String.eqb contentType "image".

(** The loop of the segment-timeline branch, from index [idx] on. *)
Fixpoint timelineLoop (a : Asset) (wTimes : WrapTimes) (atoMS : Z)
  (assetParts : list string) (nextSegNr nowMS : Z)
  (idx : nat) (rds : list cmafRepData) (refSegEntries : SegEntries)
  (g : Config) (started : list pushUnit) : list pushUnit * roundResult * Config :=
  match rds with
  | [] => (started, RoundOk, g)
  | rd :: rds' =>
      let entries : option (SegEntries * SegEntries) :=
        if (idx =? 0)%nat then
          let r := generateTimelineEntries a (repID rd) wTimes atoMS in Some (r, r)
        else if isIndependent (contentType rd) then
          Some (generateTimelineEntries a (repID rd) wTimes atoMS, refSegEntries)
        else if String.eqb (contentType rd) "audio" then
          Some (generateTimelineEntriesFromRef a refSegEntries (repID rd), refSegEntries)
        else None in
      match entries with
      | None =>
          (started, RoundError ("unknown content type " +:+ contentType rd)%string, g)
      | Some (se, refSegEntries') =>
          let segTime := Go.int (lastTime se) in
          let segPart := replaceTimeOrNr (mediaPattern rd) segTime in
          let '(parts, g') := appendPart assetParts g segPart in
          let segPath := joinPath parts in
          timelineLoop a wTimes atoMS assetParts nextSegNr nowMS (S idx) rds'
            refSegEntries' g' (started ++ [mkUnit rd segPath segPart nextSegNr nowMS])
      end
  end.

(** The loop of the other branch: the pattern is filled with the number. *)
Fixpoint numberLoop (assetParts : list string) (nextSegNr nowMS : Z)
  (rds : list cmafRepData) (g : Config) (started : list pushUnit)
  : list pushUnit * Config :=
  match rds with
  | [] => (started, g)
  | rd :: rds' =>
      let segPart := replaceTimeOrNr (mediaPattern rd) nextSegNr in
      let '(parts, g') := appendPart assetParts g segPart in
      let segPath := joinPath parts in
      numberLoop assetParts nextSegNr nowMS rds' g'
        (started ++ [mkUnit rd segPath segPart nextSegNr nowMS])
  end.

(** [sendMediaSegments]. What a unit does with its segment is in [PushUnit];
    when all units end, [wg.Wait()] returns and the result is [nil]. *)
Definition sendMediaSegments (c : Ingester) (nextSegNr nowMS : Z) : round * Ingester :=
  match assetPartsOf (URLParts (cfg c)) with
  | None =>
      ({| segNr := nextSegNr; rNowMS := nowMS; units := []; result := RoundPanic |}, c)
  | Some assetParts =>
      let wTimes := calcWrapTimes (asset c) (cfg c) (Go.int (nowMS + 50))
                      (100 * Go.Millisecond) in
      if SegTimelineFlag (cfg c) then
        let atoMS := availabilityTimeOffsetMS (cfg c) in
        let '(started, res, g) :=
          timelineLoop (asset c) wTimes atoMS assetParts nextSegNr nowMS 0
            (repsData c) noSegEntries (cfg c) [] in
        ({| segNr := nextSegNr; rNowMS := nowMS; units := started; result := res |},
         set_cfg c g)
      else
        let '(started, g) := numberLoop assetParts nextSegNr nowMS (repsData c) (cfg c) [] in
        ({| segNr := nextSegNr; rNowMS := nowMS; units := started; result := RoundOk |},
         set_cfg c g)
  end.

(** A call of [sendMediaSegments] from [start]. *)
Definition pushRound (st : state) (nextSegNr nowMS : Z) : roundResult * state :=
  let st := logLn LevelDebug "Start media segment" [Go.fmt_d nextSegNr; Go.fmt_d nowMS] st in
  let '(r, c) := sendMediaSegments (ingester st) nextSegNr nowMS in
  (result r,
   {| ingester := c; logged := logged st; initPuts := initPuts st;
      rounds := rounds st ++ [r] |}).

(** *** The init segments: the first loop of [start] *)

Inductive initResult :=
| InitDone (st : state) (initBin : bytes) (contentType : string)
| InitReturned (st : state)
| InitPanicked (st : state).

Definition recordPut (put : option initPut) (st : state) : state :=
  match put with
  | Some p => {| ingester := ingester st; logged := logged st;
                 initPuts := initPuts st ++ [p]; rounds := rounds st |}
  | None => st
  end.

Definition logInit (rd : cmafRepData) (contentType : string) (initBin : bytes)
  (st : state) : state :=
  logLn LevelInfo "Sending init segment"
    [initPath rd; contentType; Go.fmt_d (Z.of_nat (length initBin))] st.

(** [for _, rd := range c.repsData]; [initBin] and [contentType] are declared
    before the loop and live across its rounds. *)
Fixpoint sendInits (rds : list cmafRepData) (st : state) (initBin : bytes)
  (contentType : string) : initResult :=
  match rds with
  | [] => InitDone st initBin contentType
  | rd :: rds' =>
      let '(prefix, lang, ok, err) :=
        matchTimeSubsInitLang (cfg (ingester st)) (initPath rd) in
      if ok then
        match err with
        | Some e =>
            InitReturned (fail ("error matching time subs init lang: " +:+ e)%string st)
        | None =>
            match encodeTimeSubsInit prefix lang with
            | inr e => InitReturned (fail ("Error encoding init segment: " +:+ e)%string st)
            | inl initBin => sendInits rds' (logInit rd contentType initBin st) initBin contentType
            end
        end
      else
        let '(m, err) := matchInit (initPath rd) (cfg (ingester st)) (asset (ingester st)) in
        let st := match err with
                  | Some e => fail ("Error matching init segment: " +:+ e)%string st
                  | None => st
                  end in
        let st := if negb (isInit m)
                  then fail ("Error matching init segment: " +:+ Go.fmt_v err)%string st
                  else st in
        match repSegmentType m with
        | None => InitPanicked st
        | Some contentType =>
        let initBin := init m in
        match assetPartsOf (URLParts (cfg (ingester st))) with
        | None => InitPanicked st
        | Some assetParts =>
        let '(initPathParts, g) := appendPart assetParts (cfg (ingester st)) (initPath rd) in
        let st := set_ingester st (set_cfg (ingester st) g) in
        let '(put, err) :=
          sendInitSegment (ingester st) (joinPath initPathParts) (mimeType rd) initBin in
        let st := recordPut put st in
        let st := match err with
                  | Some e => fail ("error uploading init segment: " +:+ e)%string st
                  | None => st
                  end in
        sendInits rds' (logInit rd contentType initBin st) initBin contentType
        end end
  end.

(** *** The main loop of [start] *)

(** The deferred function of [start]: [timer.Stop()] reports false for a
    timer that has fired and been received, and the receive on its channel
    that follows never ends. *)
Definition leave (timer : timerState) : outcome :=
  match timer with Armed _ => Returned | Received => StuckInDefer end.

(** The [select]: go on to send, with the timer as it is then; return; or a
    wake-up that cannot happen. *)
Inductive selected :=
| Send (timer : timerState)
| Leave
| Never.

Definition select (w : wake) (at_ : Z) (timer : timerState) : selected :=
  match w with
  | TimerFired =>
      match timer with
      | Armed deadline => if deadline <=? at_ then Send Received else Never
      | Received => Never
      end
  | Triggered => Send timer
  | CtxDone => Leave
  end.

(** How the inner loop of [start] (wall-clock mode) ends: the availability
    time is ahead and [timer.Reset(deltaTime)] is next; [start] returns;
    a slice expression panics; the clock tape is used up. *)
Inductive caughtUp :=
| Ahead (st : state) (nextSegNr availabilityTime deltaTime : Z) (clock : list Z)
| Stopped (st : state)
| CatchUpPanicked (st : state)
| CatchUpClockMissing (st : state).

Definition driftLine (availabilityTime : Z) : string :=
  ("Segment availability time in the past: " +:+ Go.fmt_d availabilityTime)%string.

(** The inner [for] of [start]. Each round of it reads the clock once. *)
Fixpoint catchUp (clock : list Z) (st : state)
  (nextSegNr availabilityTime deltaTime : Z) {struct clock} : caughtUp :=
  if 0 <? deltaTime then Ahead st nextSegNr availabilityTime deltaTime clock
  else
    let st := fail (driftLine availabilityTime) st in
    match pushRound st nextSegNr (Go.int availabilityTime) with
    | (RoundError e, st) => Stopped (fail ("Error sending media segments: " +:+ e)%string st)
    | (RoundPanic, st) => CatchUpPanicked st
    | (RoundOk, st) =>
        let nextSegNr := Go.int (nextSegNr + 1) in
        match calcSegmentAvailabilityTime (asset (ingester st)) (refRep (asset (ingester st)))
                (Go.uint32 nextSegNr) (cfg (ingester st)) with
        | inr e =>
            Stopped (fail ("Error calculating segment availability time: " +:+ e)%string st)
        | inl availabilityTime =>
            match clock with
            | [] => CatchUpClockMissing st
            | t :: clock' =>
                let nowMS := unixMS t in
                catchUp clock' st nextSegNr availabilityTime (duration availabilityTime nowMS)
            end
        end
    end.

(** One round of the outer [for] of [start], from the [select] on: the loop
    goes round again, or [start] ends. *)
Inductive bodyResult :=
| Again (st : state) (nextSegNr availabilityTime : Z) (timer : timerState)
    (clock : list Z)
| Exit (o : outcome) (st : state).

(** The body of the outer [for], after the [select] has let it through. *)
Definition body (clock : list Z) (st : state) (nextSegNr availabilityTime : Z)
  (timer : timerState) : bodyResult :=
  match pushRound st nextSegNr (Go.int availabilityTime) with
  | (RoundError e, st) =>
      Exit (leave timer) (fail ("Error sending media segments: " +:+ e)%string st)
  | (RoundPanic, st) => Exit Panicked st
  | (RoundOk, st) =>
      let nextSegNr := Go.int (nextSegNr + 1) in
      match calcSegmentAvailabilityTime (asset (ingester st))
              (refRep (asset (ingester st))) (Go.uint32 nextSegNr)
              (cfg (ingester st)) with
      | inr e =>
          Exit (leave timer)
            (fail ("Error calculating segment availability time: " +:+ e)%string st)
      | inl availabilityTime =>
          match TestNowMS (ingester st) with
          | Some _ =>
              let st := logLn LevelInfo "Next segment availability time"
                          [Go.fmt_d availabilityTime] st in
              Again st nextSegNr availabilityTime timer clock
          | None =>
              match clock with
              | [] => Exit ClockMissing st
              | t :: clock =>
                  let nowMS := unixMS t in
                  let st := logLn LevelInfo "Next segment availability time"
                              [Go.fmt_d availabilityTime] st in
                  match catchUp clock st nextSegNr availabilityTime
                          (duration availabilityTime nowMS) with
                  | Stopped st => Exit (leave timer) st
                  | CatchUpPanicked st => Exit Panicked st
                  | CatchUpClockMissing st => Exit ClockMissing st
                  | Ahead st nextSegNr availabilityTime deltaTime clock =>
                      match clock with
                      | [] => Exit ClockMissing st
                      | armedAt :: clock =>
                          (* timer.Reset(deltaTime) *)
                          Again st nextSegNr availabilityTime
                            (Armed (armedAt + deltaTime)) clock
                      end
                  end
              end
          end
      end
  end.

(** The outer [for] of [start]. The variable [nowMS] is assigned before each
    of its uses in the loop and is not carried. *)
Fixpoint loop (wakes : list (wake * Z)) (clock : list Z) (st : state)
  (nextSegNr availabilityTime : Z) (timer : timerState) {struct wakes}
  : outcome * state :=
  let st := logLn LevelInfo "Waiting for next segment" [] st in
  match wakes with
  | [] => (Waiting, st)
  | (w, at_) :: wakes' =>
      match select w at_ timer with
      | Never => (NotDue, st)
      | Leave => (leave timer, logLn LevelInfo "Context done, stopping ingest" [] st)
      | Send timer =>
          match body clock st nextSegNr availabilityTime timer with
          | Exit o st => (o, st)
          | Again st nextSegNr availabilityTime timer clock =>
              loop wakes' clock st nextSegNr availabilityTime timer
          end
      end
  end.

(** "Now" at the start: the fixed time of the session or the wall clock. *)
Definition startNow (c : Ingester) (clock : list Z) : option (Z * list Z) :=
  match TestNowMS c with
  | Some t => Some (t, clock)
  | None => match clock with
            | [] => None
            | t :: clock' => Some (unixMS t, clock')
            end
  end.

(** [start] after the init segments: the first segment number, its
    availability time, the timer, the loop. *)
Definition firstSegment (st : state) (clock : list Z) (wakes : list (wake * Z))
  : outcome * state :=
  let c := ingester st in
  match startNow c clock with
  | None => (ClockMissing, st)
  | Some (nowMS, clock) =>
      let lastNr := findLastSegNr (cfg c) (asset c) nowMS (refRep (asset c)) in
      let nextSegNr := Go.int (lastNr + 1) in
      let st := logLn LevelDebug "Next segment number at start" [Go.fmt_d nextSegNr] st in
      match calcSegmentAvailabilityTime (asset c) (refRep (asset c))
              (Go.uint32 nextSegNr) (cfg c) with
      | inr e =>
          (Returned, fail ("Error calculating segment availability time: " +:+ e)%string st)
      | inl availabilityTime =>
          let st := logLn LevelInfo "Next segment availability time"
                      [Go.fmt_d availabilityTime] st in
          let deltaTime := match TestNowMS c with
                           | Some _ => 24 * Go.Hour
                           | None => duration availabilityTime nowMS
                           end in
          match clock with
          | [] => (ClockMissing, st)
          | armedAt :: clock =>
              (* time.NewTimer(deltaTime) *)
              loop wakes clock st nextSegNr availabilityTime (Armed (armedAt + deltaTime))
          end
      end
  end.

Definition newState (c : Ingester) : state :=
  {| ingester := c; logged := []; initPuts := []; rounds := [] |}.

Definition start (c : Ingester) (clock : list Z) (wakes : list (wake * Z))
  : outcome * state :=
  match sendInits (repsData c) (newState c) [] "application/mp4" with
  | InitReturned st => (Returned, st)
  | InitPanicked st => (Panicked, st)
  | InitDone st _ _ => firstSegment st clock wakes
  end.

(** How many wake-ups of a tape are explicit advance signals. *)
Fixpoint triggers (wakes : list (wake * Z)) : nat :=
  match wakes with
  | (Triggered, _) :: wakes' => S (triggers wakes')
  | _ :: wakes' => triggers wakes'
  | [] => 0
  end.

(** *** What the steps keep *)

Lemma fail_rounds m st : rounds (fail m st) = rounds st.
Proof. reflexivity. Qed.

Lemma fail_report m st :
  report (ingester (fail m st)) = report (ingester st) ++ [m].
Proof. reflexivity. Qed.

Lemma sendMediaSegments_round c n now :
  segNr (fst (sendMediaSegments c n now)) = n
  /\ rNowMS (fst (sendMediaSegments c n now)) = now
  /\ TestNowMS (snd (sendMediaSegments c n now)) = TestNowMS c
  /\ report (snd (sendMediaSegments c n now)) = report c
  /\ asset (snd (sendMediaSegments c n now)) = asset c
  /\ repsData (snd (sendMediaSegments c n now)) = repsData c.
Proof.
  unfold sendMediaSegments.
  destruct (assetPartsOf (URLParts (cfg c))) as [parts|]; [|repeat split].
  destruct (SegTimelineFlag (cfg c)).
  - destruct (timelineLoop _ _ _ _ _ _ _ _ _ _ _) as [[started res] g].
    repeat split.
  - destruct (numberLoop _ _ _ _ _ _) as [started g]. repeat split.
Qed.

Lemma pushRound_spec st n now :
  exists r,
    rounds (snd (pushRound st n now)) = rounds st ++ [r]
    /\ segNr r = n /\ rNowMS r = now /\ result r = fst (pushRound st n now)
    /\ TestNowMS (ingester (snd (pushRound st n now))) = TestNowMS (ingester st)
    /\ report (ingester (snd (pushRound st n now))) = report (ingester st)
    /\ initPuts (snd (pushRound st n now)) = initPuts st.
Proof.
  unfold pushRound. cbn [logLn ingester logged initPuts rounds].
  destruct (sendMediaSegments_round (ingester st) n now) as (H1 & H2 & H3 & H4 & _).
  destruct (sendMediaSegments (ingester st) n now) as [r c]; cbn [fst snd] in *.
  exists r. cbn. repeat split; assumption.
Qed.

(** *** Fixed simulated time *)

(** In fixed-time mode a round of the loop pushes one round of segments and
    leaves the timer as it is. *)
Lemma body_fixed_time clock st n a timer t :
  TestNowMS (ingester st) = Some t ->
  match body clock st n a timer with
  | Again st' _ _ timer' _ =>
      timer' = timer /\ TestNowMS (ingester st') = Some t
      /\ length (rounds st') = S (length (rounds st))
  | Exit _ st' => length (rounds st') = S (length (rounds st))
  end.
Proof.
  intros Ht. unfold body.
  destruct (pushRound_spec st n (Go.int a)) as (r & Hr & _ & _ & _ & Ht1 & _).
  destruct (pushRound st n (Go.int a)) as [res st1]; cbn [fst snd] in *.
  assert (Hlen : length (rounds st1) = S (length (rounds st))).
  { rewrite Hr, length_app. cbn. lia. }
  destruct res as [|e|]; [|exact Hlen|exact Hlen].
  destruct (calcSegmentAvailabilityTime _ _ _ _) as [a'|e]; [|exact Hlen].
  rewrite Ht1, Ht. cbn [logLn ingester rounds]. rewrite Ht1, Ht. auto.
Qed.

(** In fixed-time mode the loop never arms the timer again: every round
    comes from an advance signal, except one round at most, which comes from
    the timer that [start] armed, and only once its deadline has passed. *)
Lemma loop_fixed_time wakes : forall clock st n a timer t,
  TestNowMS (ingester st) = Some t ->
  (length (rounds (snd (loop wakes clock st n a timer)))
   <= length (rounds st) + triggers wakes
      + match timer with Armed _ => 1 | Received => 0 end)%nat
  /\ (match timer with
      | Armed deadline => Forall (fun w => snd w < deadline) wakes
      | Received => True
      end ->
      (length (rounds (snd (loop wakes clock st n a timer)))
       <= length (rounds st) + triggers wakes)%nat).
Proof.
  induction wakes as [|[w at_] wakes IH]; intros clock st n a timer t Ht.
  - cbn. split; [lia | intros _; lia].
  - cbn [loop].
    set (st0 := logLn LevelInfo "Waiting for next segment" [] st).
    assert (Hr0 : rounds st0 = rounds st) by reflexivity.
    assert (Ht0 : TestNowMS (ingester st0) = Some t) by exact Ht.
    clearbody st0. rewrite <- Hr0.
    destruct w; cbn [select triggers].
    + (* the timer *)
      destruct timer as [deadline|]; [|cbn; split; [lia | intros _; lia]].
      destruct (Z.leb_spec deadline at_) as [Hdue|Hnot];
        [|cbn; split; [lia | intros _; lia]].
      pose proof (body_fixed_time clock st0 n a Received t Ht0) as Hb.
      destruct (body clock st0 n a Received) as [st1 n1 a1 timer1 clock1|o st1].
      * destruct Hb as (-> & Ht1 & Hlen).
        destruct (IH clock1 st1 n1 a1 Received t Ht1) as [_ IH2].
        specialize (IH2 I). split; [lia|].
        intros Hall. apply Forall_cons in Hall as [Hall _]. cbn in Hall. lia.
      * cbn [snd]. split; [lia|].
        intros Hall. apply Forall_cons in Hall as [Hall _]. cbn in Hall. lia.
    + (* an advance signal *)
      pose proof (body_fixed_time clock st0 n a timer t Ht0) as Hb.
      destruct (body clock st0 n a timer) as [st1 n1 a1 timer1 clock1|o st1].
      * destruct Hb as (-> & Ht1 & Hlen).
        destruct (IH clock1 st1 n1 a1 timer t Ht1) as [IH1 IH2].
        split; [lia|]. intros Hall.
        assert (Hall' : match timer with
                        | Armed deadline => Forall (fun w => snd w < deadline) wakes
                        | Received => True
                        end).
        { destruct timer; [|exact I]. apply Forall_cons in Hall as [_ Hall]. exact Hall. }
        specialize (IH2 Hall'). lia.
      * cbn [snd]. split; [lia | intros _; lia].
    + (* the context *)
      cbn. split; [lia | intros _; lia].
Qed.

(** The init loop sends no round and leaves the session's time mode, asset
    and representations alone. *)
Definition keeps (st st' : state) : Prop :=
  TestNowMS (ingester st') = TestNowMS (ingester st)
  /\ asset (ingester st') = asset (ingester st)
  /\ repsData (ingester st') = repsData (ingester st)
  /\ dest (ingester st') = dest (ingester st)
  /\ rounds st' = rounds st
  /\ length (URLParts (cfg (ingester st'))) = length (URLParts (cfg (ingester st))).

Definition initState (r : initResult) : state :=
  match r with InitDone st _ _ | InitReturned st | InitPanicked st => st end.

Lemma keeps_refl st : keeps st st.
Proof. repeat split. Qed.

Lemma keeps_trans st1 st2 st3 : keeps st1 st2 -> keeps st2 st3 -> keeps st1 st3.
Proof.
  unfold keeps. intros (A1 & A2 & A3 & A4 & A5 & A6) (B1 & B2 & B3 & B4 & B5 & B6).
  repeat split; congruence.
Qed.

Lemma keeps_fail m st : keeps st (fail m st).
Proof. repeat split. Qed.

Lemma keeps_logLn l m a st : keeps st (logLn l m a st).
Proof. repeat split. Qed.

Lemma keeps_recordPut put st : keeps st (recordPut put st).
Proof. destruct put; repeat split. Qed.

Lemma assetPartsOf_Some parts ps :
  assetPartsOf parts = Some ps -> (3 <= length parts)%nat.
Proof.
  unfold assetPartsOf. destruct (Nat.leb_spec 3 (length parts)); [lia | discriminate].
Qed.

Lemma assetPartsOf_long parts :
  (3 <= length parts)%nat ->
  assetPartsOf parts = Some (firstn (length parts - 3) (skipn 2 parts)).
Proof.
  intros H. unfold assetPartsOf.
  destruct (Nat.leb_spec 3 (length parts)); [reflexivity | lia].
Qed.

Lemma appendPart_length ps g part :
  (1 <= length (URLParts g))%nat ->
  length (URLParts (snd (appendPart ps g part))) = length (URLParts g).
Proof.
  intros H. cbn. rewrite length_app, length_firstn. cbn. lia.
Qed.

Lemma keeps_set_cfg st ps part :
  (1 <= length (URLParts (cfg (ingester st))))%nat ->
  keeps st (set_ingester st
              (set_cfg (ingester st) (snd (appendPart ps (cfg (ingester st)) part)))).
Proof.
  intros H. unfold keeps. cbn [set_ingester set_cfg ingester rounds TestNowMS asset
    repsData dest cfg].
  repeat split. apply appendPart_length, H.
Qed.

Lemma sendInits_keeps rds : forall st b ct,
  keeps st (initState (sendInits rds st b ct)).
Proof.
  induction rds as [|rd rds IH]; intros st b ct; cbn [sendInits initState].
  - apply keeps_refl.
  - destruct (matchTimeSubsInitLang _ _) as [[[prefix lang] ok] err].
    destruct ok.
    + destruct err as [e|]; [apply keeps_fail|].
      destruct (encodeTimeSubsInit prefix lang) as [b'|e]; [|apply keeps_fail].
      eapply keeps_trans; [|apply IH]. apply keeps_logLn.
    + destruct (matchInit _ _ _) as [m merr].
      set (st1 := match merr with Some e => _ | None => st end).
      assert (K1 : keeps st st1)
        by (subst st1; destruct merr; [apply keeps_fail | apply keeps_refl]).
      clearbody st1.
      set (st2 := if negb (isInit m) then _ else st1).
      assert (K2 : keeps st st2).
      { subst st2. destruct (negb (isInit m)); [|exact K1].
        eapply keeps_trans; [exact K1 | apply keeps_fail]. }
      clearbody st2.
      destruct (repSegmentType m) as [ct'|]; [|exact K2].
      destruct (assetPartsOf _) as [ps|] eqn:Hps; [|exact K2].
      apply assetPartsOf_Some in Hps.
      cbn [appendPart].
      match goal with |- context [set_ingester st2 (set_cfg (ingester st2) ?g)] =>
        set (st3 := set_ingester st2 (set_cfg (ingester st2) g)) end.
      assert (K3 : keeps st st3).
      { eapply keeps_trans; [exact K2|].
        apply (keeps_set_cfg st2 ps (initPath rd)). lia. }
      clearbody st3.
      destruct (sendInitSegment _ _ _ _) as [put err'].
      eapply keeps_trans; [|apply IH].
      eapply keeps_trans; [exact K3|].
      eapply keeps_trans; [apply keeps_recordPut|].
      destruct err'; [|apply keeps_logLn].
      eapply keeps_trans; [apply keeps_fail | apply keeps_logLn].
Qed.

(** *** Rounds only get added *)

Definition caughtUpState (r : caughtUp) : state :=
  match r with
  | Ahead st _ _ _ _ | Stopped st | CatchUpPanicked st | CatchUpClockMissing st => st
  end.

Definition bodyState (r : bodyResult) : state :=
  match r with Again st _ _ _ _ | Exit _ st => st end.


(** The inner loop: what it adds to the rounds and to the report, and the
    delta it leaves with. *)
Lemma catchUp_spec clock : forall st n a d,
  (exists more lines,
      rounds (caughtUpState (catchUp clock st n a d)) = rounds st ++ more
      /\ report (ingester (caughtUpState (catchUp clock st n a d)))
         = report (ingester st) ++ lines
      /\ (0 < d -> more = [] /\ lines = [])
      /\ (d <= 0 -> exists r more' lines',
             more = r :: more' /\ segNr r = n /\ rNowMS r = Go.int a
             /\ lines = driftLine a :: lines'))
  /\ (forall st' n' a' d' clock',
        catchUp clock st n a d = Ahead st' n' a' d' clock' ->
        0 < d'
        /\ ((st' = st /\ n' = n /\ a' = a /\ d' = d /\ clock' = clock)
            \/ exists t, In t clock /\ d' = duration a' (unixMS t))).
Proof.
  assert (Hstep : forall clock,
    (forall st n a d t clock', clock = t :: clock' ->
       (exists more lines,
           rounds (caughtUpState (catchUp clock' st n a d)) = rounds st ++ more
           /\ report (ingester (caughtUpState (catchUp clock' st n a d)))
              = report (ingester st) ++ lines)
       /\ (forall st' n' a' d' clock'',
             catchUp clock' st n a d = Ahead st' n' a' d' clock'' ->
             0 < d'
             /\ ((d' = d /\ a' = a) \/ exists t, In t clock' /\ d' = duration a' (unixMS t)))) ->
    forall st n a d,
    (exists more lines,
        rounds (caughtUpState (catchUp clock st n a d)) = rounds st ++ more
        /\ report (ingester (caughtUpState (catchUp clock st n a d)))
           = report (ingester st) ++ lines
        /\ (0 < d -> more = [] /\ lines = [])
        /\ (d <= 0 -> exists r more' lines',
               more = r :: more' /\ segNr r = n /\ rNowMS r = Go.int a
               /\ lines = driftLine a :: lines'))
    /\ (forall st' n' a' d' clock',
          catchUp clock st n a d = Ahead st' n' a' d' clock' ->
          0 < d'
          /\ ((st' = st /\ n' = n /\ a' = a /\ d' = d /\ clock' = clock)
              \/ exists t, In t clock /\ d' = duration a' (unixMS t)))).
  { intros clock0 IH st n a d.
    assert (E : catchUp clock0 st n a d
      = if 0 <? d then Ahead st n a d clock0
        else
          match pushRound (fail (driftLine a) st) n (Go.int a) with
          | (RoundError e, st1) =>
              Stopped (fail ("Error sending media segments: " +:+ e)%string st1)
          | (RoundPanic, st1) => CatchUpPanicked st1
          | (RoundOk, st1) =>
              match calcSegmentAvailabilityTime (asset (ingester st1))
                      (refRep (asset (ingester st1))) (Go.uint32 (Go.int (n + 1)))
                      (cfg (ingester st1)) with
              | inr e =>
                  Stopped
                    (fail ("Error calculating segment availability time: " +:+ e)%string st1)
              | inl a1 =>
                  match clock0 with
                  | [] => CatchUpClockMissing st1
                  | t :: clock' =>
                      catchUp clock' st1 (Go.int (n + 1)) a1 (duration a1 (unixMS t))
                  end
              end
          end) by (destruct clock0; reflexivity).
    rewrite E. clear E.
    destruct (Z.ltb_spec 0 d) as [Hpos|Hneg].
    { split.
      - exists [], []. cbn [caughtUpState]. rewrite !List.app_nil_r.
        repeat split; try reflexivity. intros; lia.
      - intros st' n' a' d' clock' [= <- <- <- <- <-]. split; [exact Hpos|].
        left. repeat split. }
    destruct (pushRound_spec (fail (driftLine a) st) n (Go.int a))
      as (r & Hr & Hn & Hnow & _ & _ & Hrep & _).
    rewrite fail_rounds in Hr. rewrite fail_report in Hrep.
    destruct (pushRound (fail (driftLine a) st) n (Go.int a)) as [res st1];
      cbn [fst snd] in *.
    assert (Hdone : forall sx lx,
      rounds sx = rounds st1 -> report (ingester sx) = report (ingester st1) ++ lx ->
      exists more lines,
        rounds sx = rounds st ++ more
        /\ report (ingester sx) = report (ingester st) ++ lines
        /\ (0 < d -> more = [] /\ lines = [])
        /\ (d <= 0 -> exists r more' lines',
               more = r :: more' /\ segNr r = n /\ rNowMS r = Go.int a
               /\ lines = driftLine a :: lines')).
    { intros sx lx Hx1 Hx2. exists [r], (driftLine a :: lx).
      rewrite Hx1, Hx2, Hr, Hrep, <- List.app_assoc. cbn [app].
      repeat split; try reflexivity; try (intros; lia).
      intros _. exists r, [], lx. repeat split; assumption. }
    destruct res as [|e|].
    - destruct (calcSegmentAvailabilityTime _ _ _ _) as [a1|e].
      + destruct clock0 as [|t clock'].
        * split; [|discriminate]. cbn [caughtUpState].
          apply (Hdone st1 []); [reflexivity | now rewrite List.app_nil_r].
        * destruct (IH st1 (Go.int (n + 1)) a1 (duration a1 (unixMS t)) t clock' eq_refl)
            as [(more & lines & Hm & Hl) Hah].
          split.
          -- exists (r :: more), (driftLine a :: lines).
             rewrite Hm, Hl, Hr, Hrep, <- !List.app_assoc. cbn [app].
             repeat split; try reflexivity; try (intros; lia).
             intros _. exists r, more, lines. repeat split; assumption.
          -- intros st' n' a' d' clock'' Hc.
             destruct (Hah st' n' a' d' clock'' Hc) as [Hd Hor].
             split; [exact Hd|]. right.
             destruct Hor as [[-> ->]|(t' & Hin & ->)].
             ++ exists t. split; [left; reflexivity | reflexivity].
             ++ exists t'. split; [right; exact Hin | reflexivity].
      + split; [|discriminate]. cbn [caughtUpState].
        eapply Hdone; [apply fail_rounds | apply fail_report].
    - split; [|discriminate]. cbn [caughtUpState].
      eapply Hdone; [apply fail_rounds | apply fail_report].
    - split; [|discriminate]. cbn [caughtUpState].
      apply (Hdone st1 []); [reflexivity | now rewrite List.app_nil_r]. }
  induction clock as [|t clock IH]; intros st n a d.
  - apply Hstep. intros; discriminate.
  - apply Hstep. intros st0 n0 a0 d0 t0 clock0 [= <- <-].
    destruct (IH st0 n0 a0 d0) as [(more & lines & Hm & Hl & _) Hah].
    split; [exists more, lines; split; assumption|].
    intros st' n' a' d' clock'' Hc.
    destruct (Hah st' n' a' d' clock'' Hc) as [Hd Hor].
    split; [exact Hd|].
    destruct Hor as [(_ & _ & -> & -> & _)|Hex]; [left; split; reflexivity | right; exact Hex].
Qed.

(** A round of the outer loop pushes the round numbered [nextSegNr] first. *)
Lemma body_rounds clock st n a timer :
  exists r more,
    rounds (bodyState (body clock st n a timer)) = rounds st ++ r :: more
    /\ segNr r = n /\ rNowMS r = Go.int a.
Proof.
  unfold body.
  destruct (pushRound_spec st n (Go.int a)) as (r & Hr & Hn & Hnow & _).
  destruct (pushRound st n (Go.int a)) as [res st1]; cbn [fst snd] in *.
  assert (Hdone : forall sx, rounds sx = rounds st1 ->
    exists r more, rounds sx = rounds st ++ r :: more /\ segNr r = n /\ rNowMS r = Go.int a).
  { intros sx ->. exists r, []. rewrite Hr. repeat split; assumption. }
  destruct res as [|e|]; cbn [bodyState]; try (apply Hdone; reflexivity).
  destruct (calcSegmentAvailabilityTime _ _ _ _) as [a1|e]; cbn [bodyState];
    try (apply Hdone; reflexivity).
  destruct (TestNowMS (ingester st1)); cbn [bodyState]; try (apply Hdone; reflexivity).
  destruct clock as [|t clock]; cbn [bodyState]; try (apply Hdone; reflexivity).
  match goal with |- context [catchUp clock ?s ?n1 a1 ?d] =>
    destruct (catchUp_spec clock s n1 a1 d) as [(more & lines & Hm & _) _];
    destruct (catchUp clock s n1 a1 d) as [st2 n2 a2 d2 clock2|st2|st2|st2]
  end; cbn [caughtUpState logLn rounds] in Hm;
    try (destruct clock2); cbn [bodyState];
    exists r, more; rewrite Hm, Hr, <- List.app_assoc; repeat split; assumption.
Qed.

Lemma loop_rounds wakes : forall clock st n a timer,
  exists new,
    rounds (snd (loop wakes clock st n a timer)) = rounds st ++ new
    /\ forall r, hd_error new = Some r -> segNr r = n /\ rNowMS r = Go.int a.
Proof.
  induction wakes as [|[w at_] wakes IH]; intros clock st n a timer; cbn [loop].
  - exists []. cbn. rewrite List.app_nil_r. split; [reflexivity | discriminate].
  - set (st0 := logLn LevelInfo "Waiting for next segment" [] st).
    assert (Hr0 : rounds st0 = rounds st) by reflexivity. clearbody st0.
    rewrite <- Hr0.
    destruct (select w at_ timer) as [timer'| |]; cbn [snd].
    + destruct (body_rounds clock st0 n a timer') as (r & more & Hb & Hn & Hnow).
      destruct (body clock st0 n a timer') as [st1 n1 a1 timer1 clock1|o st1];
        cbn [bodyState snd] in *.
      * destruct (IH clock1 st1 n1 a1 timer1) as (new & Hl & _).
        exists (r :: more ++ new). rewrite Hl, Hb, <- List.app_assoc. cbn [app].
        split; [reflexivity|]. intros r' [= <-]. split; assumption.
      * exists (r :: more). split; [exact Hb|]. intros r' [= <-]. split; assumption.
    + exists []. cbn. rewrite List.app_nil_r. split; [reflexivity | discriminate].
    + exists []. cbn. rewrite List.app_nil_r. split; [reflexivity | discriminate].
Qed.

(** *** Fixed simulated time, the first segment, drift *)

(** C1 (as the code has it). In a session with a fixed simulated time,
    [start] arms its timer once, with 24 hours, and the loop never arms it
    again. So the session pushes at most one round more than it has received
    advance signals, and it pushes no round without an advance signal as long
    as every wake-up comes less than 24 hours after the timer was armed. *)
Theorem fixed_time_rounds_need_trigger (c : Ingester) (clock : list Z)
  (wakes : list (wake * Z)) (t : Z) :
  TestNowMS c = Some t ->
  (length (rounds (snd (start c clock wakes))) <= triggers wakes + 1)%nat
  /\ (forall armedAt,
        hd_error clock = Some armedAt ->
        Forall (fun w => snd w < armedAt + 24 * Go.Hour) wakes ->
        (length (rounds (snd (start c clock wakes))) <= triggers wakes)%nat).
Proof.
  intros Ht. unfold start.
  pose proof (sendInits_keeps (repsData c) (newState c) [] "application/mp4") as K.
  destruct (sendInits _ _ _ _) as [st b ct|st|st]; cbn [initState snd] in *;
    destruct K as (K1 & _ & _ & _ & K5 & _); cbn [newState ingester rounds] in K1, K5;
    try (rewrite K5; cbn; split; [lia | intros; lia]).
  unfold firstSegment, startNow. rewrite K1, Ht.
  destruct (calcSegmentAvailabilityTime _ _ _ _) as [a|e];
    [|cbn [snd]; rewrite fail_rounds; cbn [logLn rounds]; rewrite K5; cbn; split;
      [lia | intros; lia]].
  destruct clock as [|armedAt clock];
    [cbn [snd logLn rounds]; rewrite K5; cbn; split; [lia | intros; lia]|].
  match goal with |- context [loop wakes clock ?s ?n a ?tm] =>
    destruct (loop_fixed_time wakes clock s n a tm t) as [L1 L2] end.
  { cbn [logLn ingester]. congruence. }
  cbn [logLn rounds] in L1, L2. rewrite K5 in L1, L2. cbn [length] in L1, L2.
  split; [lia|]. intros armedAt' [= <-] Hall. specialize (L2 Hall). lia.
Qed.

(** C8. "Now" at the start of a session is its fixed simulated time when it
    has one and otherwise the wall clock in milliseconds, as [start] reads it
    after the init segments; and the first round the session pushes, if it
    pushes one, has the number one above [findLastSegNr] of the asset's
    reference representation at that "now". *)
Theorem first_segment_number (c : Ingester) (clock : list Z)
  (wakes : list (wake * Z)) (r : round) :
  hd_error (rounds (snd (start c clock wakes))) = Some r ->
  exists st initBin contentType nowMS clock',
    sendInits (repsData c) (newState c) [] "application/mp4"
    = InitDone st initBin contentType
    /\ startNow c clock = Some (nowMS, clock')
    /\ nowMS = match TestNowMS c with
               | Some t => t
               | None => unixMS (hd 0 clock)
               end
    /\ let lastNr := findLastSegNr (cfg (ingester st)) (asset c) nowMS (refRep (asset c)) in
       segNr r = Go.int (lastNr + 1)
       /\ (Go.MinInt <= lastNr < Go.MaxInt -> segNr r = lastNr + 1).
Proof.
  unfold start.
  pose proof (sendInits_keeps (repsData c) (newState c) [] "application/mp4") as K.
  destruct (sendInits _ _ _ _) as [st b ct|st|st]; cbn [initState snd] in *;
    destruct K as (K1 & K2 & _ & _ & K5 & _); cbn [newState ingester rounds] in K1, K2, K5;
    try (rewrite K5; discriminate).
  intros H. exists st, b, ct.
  unfold firstSegment in H. unfold startNow in *. rewrite K1, K2 in H.
  assert (Hnow : exists nowMS clock',
    match TestNowMS c with
    | Some t => Some (t, clock)
    | None => match clock with [] => None | t :: clock' => Some (unixMS t, clock') end
    end = Some (nowMS, clock')
    /\ nowMS = match TestNowMS c with Some t => t | None => unixMS (hd 0 clock) end).
  { destruct (TestNowMS c) as [t|]; [eauto|].
    destruct clock as [|t clock]; [|cbn; eauto].
    cbn [snd] in H. rewrite K5 in H. discriminate. }
  destruct Hnow as (nowMS & clock' & E & Hn). rewrite E in H.
  exists nowMS, clock'. split; [reflexivity|]. split; [exact E|]. split; [exact Hn|].
  cbn zeta.
  set (lastNr := findLastSegNr (cfg (ingester st)) (asset c) nowMS (refRep (asset c))) in *.
  assert (Hseg : segNr r = Go.int (lastNr + 1)).
  { destruct (calcSegmentAvailabilityTime _ _ _ _) as [a|e];
      [|cbn [snd] in H; rewrite fail_rounds in H; cbn [logLn rounds] in H;
        rewrite K5 in H; discriminate].
    destruct clock' as [|armedAt clock''];
      [cbn [snd logLn rounds] in H; rewrite K5 in H; discriminate|].
    match type of H with context [loop wakes clock'' ?s ?n a ?tm] =>
      destruct (loop_rounds wakes clock'' s n a tm) as (new & Hl & Hhd) end.
    rewrite Hl in H. cbn [logLn rounds] in H. rewrite K5 in H. cbn [app] in H.
    apply Hhd in H. apply H. }
  split; [exact Hseg|]. intros Hr. rewrite Hseg. apply Go.int_id.
  unfold Go.MinInt, Go.MaxInt in *. lia.
Qed.


(** *** Segment-timeline mode *)

(** The specification's words: the timeline entries of the representation at
    index [idx] of a list whose first element is [ref]. The first
    representation is the timing reference and generates the entries; any
    other generates its own when it is video, text or image and derives them
    from the reference's entries when it is audio. *)
Definition specEntries (a : Asset) (wTimes : WrapTimes) (atoMS : Z)
  (ref : cmafRepData) (idx : nat) (rd : cmafRepData) : option SegEntries :=
  let refEntries := generateTimelineEntries a (repID ref) wTimes atoMS in
  match idx with
  | O => Some refEntries
  | S _ =>
      if String.eqb (contentType rd) "audio"
      then Some (generateTimelineEntriesFromRef a refEntries (repID rd))
      else if isIndependent (contentType rd)
      then Some (generateTimelineEntries a (repID rd) wTimes atoMS)
      else None
  end.

Definition knownType (contentType : string) : bool :=
  isIndependent contentType || String.eqb contentType "audio".

Lemma isIndependent_not_audio ct :
  isIndependent ct = true -> String.eqb ct "audio" = false.
Proof.
  unfold isIndependent. intros H.
  destruct (String.eqb_spec ct "audio") as [->|]; [|reflexivity].
  discriminate.
Qed.

Lemma timelineLoop_spec a wTimes atoMS ps n now ref rds :
  forall idx refSE g started,
  (idx <> 0%nat -> refSE = generateTimelineEntries a (repID ref) wTimes atoMS) ->
  (idx = 0%nat -> rds = [] \/ hd_error rds = Some ref) ->
  exists new,
    fst (fst (timelineLoop a wTimes atoMS ps n now idx rds refSE g started))
    = started ++ new
    /\ (forall j u, nth_error new j = Some u ->
          exists rd se,
            nth_error rds j = Some rd /\ uRep u = rd
            /\ specEntries a wTimes atoMS ref (idx + j) rd = Some se
            /\ uSegPart u = replaceTimeOrNr (mediaPattern rd) (Go.int (lastTime se))
            /\ uSegPath u = joinPath (ps ++ [uSegPart u])
            /\ uSegNr u = n /\ uNowMS u = now)
    /\ ((forall j rd, nth_error rds j = Some rd -> (idx + j <> 0)%nat ->
           knownType (contentType rd) = true) ->
        snd (fst (timelineLoop a wTimes atoMS ps n now idx rds refSE g started)) = RoundOk
        /\ length new = length rds).
Proof.
  induction rds as [|rd rds IH]; intros idx refSE g started Href Hfirst.
  - exists []. cbn. rewrite List.app_nil_r. split; [reflexivity|].
    split; [intros [|j] u; discriminate | auto].
  - cbn [timelineLoop].
    set (entries := if (idx =? 0)%nat then _ else _).
    assert (He : match entries with
                 | Some (se, refSE') =>
                     specEntries a wTimes atoMS ref idx rd = Some se
                     /\ refSE' = generateTimelineEntries a (repID ref) wTimes atoMS
                 | None => idx <> 0%nat /\ knownType (contentType rd) = false
                 end).
    { subst entries. unfold specEntries, knownType. destruct idx as [|idx].
      - cbn [Nat.eqb]. destruct (Hfirst eq_refl) as [|[= ->]]; [discriminate|]. auto.
      - cbn [Nat.eqb]. rewrite (Href ltac:(discriminate)).
        destruct (isIndependent (contentType rd)) eqn:Hi.
        + rewrite (isIndependent_not_audio _ Hi). auto.
        + destruct (String.eqb (contentType rd) "audio"); auto. }
    clearbody entries. destruct entries as [[se refSE']|].
    + destruct He as [Hse ->]. cbn [appendPart].
      match goal with |- context [timelineLoop a wTimes atoMS ps n now (S idx) rds _ ?g' ?st'] =>
        destruct (IH (S idx) (generateTimelineEntries a (repID ref) wTimes atoMS) g' st')
          as (new & Hn & Hu & Hok); [reflexivity | discriminate |] end.
      eexists (_ :: new). rewrite Hn, <- List.app_assoc. cbn [app].
      split; [reflexivity|]. split.
      * intros [|j] u Hj; cbn [nth_error] in Hj.
        -- injection Hj as <-. exists rd, se. rewrite Nat.add_0_r.
           cbn. repeat split; try reflexivity. exact Hse.
        -- destruct (Hu j u Hj) as (rd' & se' & H1 & H2 & H3 & H4).
           exists rd', se'. cbn [nth_error].
           replace (idx + S j)%nat with (S idx + j)%nat by lia.
           repeat split; try assumption; apply H4.
      * intros Hk. destruct Hok as [Hres Hlen].
        { intros j rd' Hj _. apply (Hk (S j) rd' Hj). lia. }
        split; [exact Hres | cbn; lia].
    + destruct He as [Hidx Hunk]. exists []. cbn [fst snd]. rewrite List.app_nil_r.
      split; [reflexivity|]. split; [intros [|j] u; discriminate|].
      intros Hk. specialize (Hk 0%nat rd eq_refl ltac:(lia)). congruence.
Qed.

(** C3. A round in segment-timeline mode starts one unit per representation,
    in the order of the session's list. The first representation is the
    timing reference: its entries are the ones it generates. Any other
    representation gets the entries it generates itself when its content type
    is video, text or image, and the entries derived from the reference's
    entries when it is audio ([specEntries]). Each unit's media pattern is
    filled with the last time of the entries of its representation, so for an
    audio representation that is not the first the time comes from
    [generateTimelineEntriesFromRef] on the reference's entries. When every
    representation after the first has one of these four content types the
    round starts all units and returns no error. *)
Theorem timeline_round (c : Ingester) (n now : Z) (ref : cmafRepData)
  (rest : list cmafRepData) :
  SegTimelineFlag (cfg c) = true ->
  (3 <= length (URLParts (cfg c)))%nat ->
  repsData c = ref :: rest ->
  let wTimes := calcWrapTimes (asset c) (cfg c) (Go.int (now + 50)) (100 * Go.Millisecond) in
  let atoMS := availabilityTimeOffsetMS (cfg c) in
  let refEntries := generateTimelineEntries (asset c) (repID ref) wTimes atoMS in
  let r := fst (sendMediaSegments c n now) in
  (forall i u, nth_error (units r) i = Some u ->
     exists rd se,
       nth_error (repsData c) i = Some rd /\ uRep u = rd
       /\ specEntries (asset c) wTimes atoMS ref i rd = Some se
       /\ uSegPart u = replaceTimeOrNr (mediaPattern rd) (Go.int (lastTime se))
       /\ uSegNr u = n /\ uNowMS u = now)
  /\ (forall i u, nth_error (units r) (S i) = Some u ->
        contentType (uRep u) = "audio"%string ->
        uSegPart u
        = replaceTimeOrNr (mediaPattern (uRep u))
            (Go.int (lastTime (generateTimelineEntriesFromRef (asset c) refEntries
                                 (repID (uRep u))))))
  /\ (Forall (fun rd => knownType (contentType rd) = true) rest ->
        result r = RoundOk /\ length (units r) = length (repsData c)).
Proof.
  intros Hflag Hlen Hreps wTimes atoMS refEntries r.
  subst r. unfold sendMediaSegments.
  rewrite (assetPartsOf_long _ Hlen), Hflag. fold wTimes atoMS. rewrite Hreps.
  set (ps := firstn _ _).
  destruct (timelineLoop_spec (asset c) wTimes atoMS ps n now ref (ref :: rest)
              0%nat noSegEntries (cfg c) [])
    as (new & Hn & Hu & Hok); [congruence | right; reflexivity |].
  destruct (timelineLoop _ _ _ _ _ _ _ _ _ _ _) as [[started res] g].
  cbn [fst snd units result app] in *. subst started.
  assert (Hall : forall i u, nth_error new i = Some u ->
     exists rd se,
       nth_error (ref :: rest) i = Some rd /\ uRep u = rd
       /\ specEntries (asset c) wTimes atoMS ref i rd = Some se
       /\ uSegPart u = replaceTimeOrNr (mediaPattern rd) (Go.int (lastTime se))
       /\ uSegNr u = n /\ uNowMS u = now).
  { intros i u Hi. destruct (Hu i u Hi) as (rd & se & H1 & H2 & H3 & H4 & _ & H6 & H7).
    exists rd, se. repeat split; assumption. }
  split; [exact Hall|]. split.
  - intros i u Hi Haudio.
    destruct (Hall (S i) u Hi) as (rd & se & _ & <- & Hse & Hpart & _).
    rewrite Hpart. unfold specEntries in Hse. rewrite Haudio in Hse.
    cbn in Hse. injection Hse as <-. reflexivity.
  - intros Hknown. apply Hok. intros [|j] rd Hj Hne; [lia|].
    cbn [nth_error] in Hj. rewrite List.Forall_forall in Hknown.
    apply Hknown. eapply List.nth_error_In. exact Hj.
Qed.

(** *** The init segments *)

(** The report lines a failed match leaves, and the lines a PUT leaves. *)
Definition matchLines (m : InitMatch) (err : option string) : list string :=
  match err with
  | Some e => [("Error matching init segment: " +:+ e)%string]
  | None => []
  end
  ++ (if isInit m then []
      else [("Error matching init segment: " +:+ Go.fmt_v err)%string]).

Definition putLines (o : putOutcome) : list string :=
  match o with
  | RequestError cause =>
      [("error uploading init segment: " +:+ ("Error creating request: " +:+ cause))%string]
  | SendError cause =>
      [("error uploading init segment: " +:+ ("Error sending request: " +:+ cause))%string]
  | BodyError _ cause =>
      [("error uploading init segment: " +:+ ("Error reading response body: " +:+ cause))%string]
  | Response _ => []
  end.

Definition putsOf (o : putOutcome) (put : initPut) : list initPut :=
  match o with RequestError _ => [] | _ => [put] end.

Definition isErrorLine (l : logLine) : bool :=
  match lvl l with LevelError => true | _ => false end.

Definition errorLines (l : list logLine) : list string :=
  List.map msg (List.filter isErrorLine l).

Definition isInitLine (l : logLine) : bool :=
  match lvl l with
  | LevelInfo => String.eqb (msg l) "Sending init segment"
  | _ => false
  end.

Definition initLines (l : list logLine) : nat :=
  length (List.filter isInitLine l).

(** The time-subtitles path of a representation does not fail: either the
    init path is not a time-subtitles path or it matches and encodes. *)
Definition timeSubsFine (g : Config) (rd : cmafRepData) : Prop :=
  let '(prefix, lang, ok, err) := matchTimeSubsInitLang g (initPath rd) in
  ok = true -> err = None /\ exists b, encodeTimeSubsInit prefix lang = inl b.

Lemma errorLines_app l1 l2 : errorLines (l1 ++ l2) = errorLines l1 ++ errorLines l2.
Proof. unfold errorLines. rewrite List.filter_app, List.map_app. reflexivity. Qed.

Lemma initLines_app l1 l2 : initLines (l1 ++ l2) = (initLines l1 + initLines l2)%nat.
Proof. unfold initLines. rewrite List.filter_app, length_app. reflexivity. Qed.

(** One representation whose init segment comes from the asset: whatever
    the match and the PUT give, the loop goes on to the next representation,
    and what failed is in the report and in the error log. *)
Lemma sendInits_asset_step rd rds st b ct prefix lang e0 m err ctype ps o :
  matchTimeSubsInitLang (cfg (ingester st)) (initPath rd) = (prefix, lang, false, e0) ->
  matchInit (initPath rd) (cfg (ingester st)) (asset (ingester st)) = (m, err) ->
  repSegmentType m = Some ctype ->
  assetPartsOf (URLParts (cfg (ingester st))) = Some ps ->
  httpPut (dest (ingester st) +:+ "/" +:+ joinPath (ps ++ [initPath rd]))%string
    (mimeType rd) (init m) = o ->
  let put := {| putURL := (dest (ingester st) +:+ "/"
                           +:+ joinPath (ps ++ [initPath rd]))%string;
                putMime := mimeType rd; putBody := init m |} in
  exists st',
    sendInits (rd :: rds) st b ct = sendInits rds st' (init m) ctype
    /\ report (ingester st') = report (ingester st) ++ matchLines m err ++ putLines o
    /\ errorLines (logged st') = errorLines (logged st) ++ matchLines m err ++ putLines o
    /\ initLines (logged st') = S (initLines (logged st))
    /\ initPuts st' = initPuts st ++ putsOf o put
    /\ keeps st st'.
Proof.
  intros Hts Hm Hty Hps Ho put.
  pose proof (assetPartsOf_Some _ _ Hps) as Hlen.
  cbn [sendInits]. rewrite Hts, Hm.
  unfold matchLines, errorLines, initLines.
  destruct err as [e|], (isInit m) eqn:Hi; cbn [negb];
    rewrite Hty; cbn [fail logLn set_ingester set_report ingester cfg];
    rewrite Hps; cbn [appendPart];
    unfold sendInitSegment;
    cbn [set_cfg set_report set_ingester ingester dest];
    rewrite Ho; destruct o; cbn [recordPut putLines putsOf];
    eexists; (split; [reflexivity|]);
    cbn [fail logInit logLn set_ingester set_report set_cfg ingester report logged
         initPuts rounds];
    rewrite ?List.filter_app, ?List.map_app, ?length_app; cbn;
    rewrite ?List.app_nil_r, <- ?List.app_assoc; cbn;
    (split; [reflexivity|]); (split; [reflexivity|]);
    (split; [lia|]); (split; [reflexivity|]);
    unfold keeps; cbn; repeat split;
    rewrite length_app, length_firstn; cbn; lia.
Qed.


(** The init loop runs through all representations when no time-subtitles
    path fails and no slice or method call panics; the report gets the lines
    of the error log and nothing else. *)
Lemma sendInits_total rds : forall st b ct,
  (3 <= length (URLParts (cfg (ingester st))))%nat ->
  (forall g rd, In rd rds -> timeSubsFine g rd) ->
  (forall g rd, In rd rds ->
     repSegmentType (fst (matchInit (initPath rd) g (asset (ingester st)))) <> None) ->
  exists st' b' ct' lines,
    sendInits rds st b ct = InitDone st' b' ct'
    /\ report (ingester st') = report (ingester st) ++ lines
    /\ errorLines (logged st') = errorLines (logged st) ++ lines
    /\ initLines (logged st') = (initLines (logged st) + length rds)%nat.
Proof.
  induction rds as [|rd rds IH]; intros st b ct Hlen Hts Hty.
  - exists st, b, ct, []. cbn. rewrite !List.app_nil_r. repeat split. lia.
  - assert (Hts' : forall g rd', In rd' rds -> timeSubsFine g rd')
      by (intros; apply Hts; right; assumption).
    pose proof (Hts (cfg (ingester st)) rd (or_introl eq_refl)) as Hrd.
    unfold timeSubsFine in Hrd.
    destruct (matchTimeSubsInitLang (cfg (ingester st)) (initPath rd))
      as [[[prefix lang] ok] e0] eqn:Ematch.
    destruct ok.
    + destruct (Hrd eq_refl) as (-> & b' & Henc).
      destruct (IH (logInit rd ct b' st) b' ct Hlen Hts') as (st' & b2 & ct2 & lines & E & R & L & N).
      { intros g rd' Hin. apply (Hty g rd'). right. exact Hin. }
      exists st', b2, ct2, lines. cbn [sendInits]. rewrite Ematch, Henc.
      split; [exact E|]. split; [exact R|]. split.
      * rewrite L. cbn [logInit logLn logged]. rewrite errorLines_app. cbn.
        rewrite List.app_nil_r. reflexivity.
      * rewrite N. cbn [logInit logLn logged length]. rewrite initLines_app. cbn. lia.
    + destruct (matchInit (initPath rd) (cfg (ingester st)) (asset (ingester st)))
        as [m err] eqn:Em.
      pose proof (Hty (cfg (ingester st)) rd (or_introl eq_refl)) as Hsome.
      rewrite Em in Hsome. cbn [fst] in Hsome.
      destruct (repSegmentType m) as [ctype|] eqn:Ety; [|congruence].
      destruct (sendInits_asset_step rd rds st b ct prefix lang e0 m err ctype _ _
                  Ematch Em Ety (assetPartsOf_long _ Hlen) eq_refl)
        as (st1 & E1 & R1 & L1 & N1 & _ & K).
      match type of R1 with _ = _ ++ ?l => set (lines1 := l) in * end.
      clearbody lines1.
      destruct K as (_ & Ka & _ & _ & _ & Kl).
      destruct (IH st1 (init m) ctype ltac:(lia) Hts') as (st' & b2 & ct2 & lines & E & R & L & N).
      { intros g rd' Hin. rewrite Ka. apply (Hty g rd'). right. exact Hin. }
      exists st', b2, ct2, (lines1 ++ lines). rewrite E1.
      split; [exact E|]. split; [|split].
      * rewrite R, R1, List.app_assoc. reflexivity.
      * rewrite L, L1, List.app_assoc. reflexivity.
      * rewrite N, N1. cbn [length]. lia.
Qed.

(** C4 (as the code has it). For a representation whose init segment comes
    from the asset, a failed match (an error from [matchInit], or a match that
    is no init segment) and a failed PUT (the request cannot be built or
    sent, or the response body cannot be read) each leave their line in the
    report and in the error log, and the loop goes on with the next
    representation; the status code of a response is not looked at, so a
    response leaves no line whatever its status. When no time-subtitles init
    fails, the URL has its three parts and [SegmentType] returns, the init
    loop handles every representation and [start] goes on to the first
    segment, with exactly the logged errors in its report. *)
Theorem init_failures_do_not_abort (c : Ingester) (clock : list Z)
  (wakes : list (wake * Z)) :
  (3 <= length (URLParts (cfg c)))%nat ->
  (forall g rd, In rd (repsData c) -> timeSubsFine g rd) ->
  (forall g rd, In rd (repsData c) ->
     repSegmentType (fst (matchInit (initPath rd) g (asset c))) <> None) ->
  (forall rd rds st b ct prefix lang e0 m err ctype ps o,
     matchTimeSubsInitLang (cfg (ingester st)) (initPath rd) = (prefix, lang, false, e0) ->
     matchInit (initPath rd) (cfg (ingester st)) (asset (ingester st)) = (m, err) ->
     repSegmentType m = Some ctype ->
     assetPartsOf (URLParts (cfg (ingester st))) = Some ps ->
     httpPut (dest (ingester st) +:+ "/" +:+ joinPath (ps ++ [initPath rd]))%string
       (mimeType rd) (init m) = o ->
     exists st',
       sendInits (rd :: rds) st b ct = sendInits rds st' (init m) ctype
       /\ report (ingester st') = report (ingester st) ++ matchLines m err ++ putLines o
       /\ errorLines (logged st')
          = errorLines (logged st) ++ matchLines m err ++ putLines o)
  /\ (forall status, putLines (Response status) = [])
  /\ exists st b ct,
       sendInits (repsData c) (newState c) [] "application/mp4" = InitDone st b ct
       /\ start c clock wakes = firstSegment st clock wakes
       /\ report (ingester st) = report c ++ errorLines (logged st)
       /\ initLines (logged st) = length (repsData c).
Proof.
  intros Hlen Hts Hty. split; [|split; [reflexivity|]].
  - intros rd rds st b ct prefix lang e0 m err ctype ps o H1 H2 H3 H4 H5.
    destruct (sendInits_asset_step rd rds st b ct prefix lang e0 m err ctype ps o
                H1 H2 H3 H4 H5) as (st' & E & R & L & _).
    exists st'. repeat split; assumption.
  - destruct (sendInits_total (repsData c) (newState c) [] "application/mp4" Hlen Hts Hty)
      as (st & b & ct & lines & E & R & L & N).
    exists st, b, ct. split; [exact E|]. split; [unfold start; rewrite E; reflexivity|].
    cbn [newState ingester logged] in R, L, N. cbn in L, N.
    split; [rewrite R, L; reflexivity | exact N].
Qed.

(** *** Further properties of the session: report, numbering, cancellation *)

(** The report and the error log grow by the same lines. *)
Definition grows (st st' : state) : Prop :=
  exists lines,
    report (ingester st') = report (ingester st) ++ lines
    /\ errorLines (logged st') = errorLines (logged st) ++ lines.

Lemma grows_refl st : grows st st.
Proof. exists []. rewrite !List.app_nil_r. split; reflexivity. Qed.

Lemma grows_trans st1 st2 st3 : grows st1 st2 -> grows st2 st3 -> grows st1 st3.
Proof.
  intros (l1 & R1 & L1) (l2 & R2 & L2). exists (l1 ++ l2).
  rewrite R2, R1, L2, L1, !List.app_assoc. split; reflexivity.
Qed.

Lemma grows_fail m st : grows st (fail m st).
Proof.
  exists [m]. split; [reflexivity|].
  cbn [fail logLn logged set_ingester]. rewrite errorLines_app. reflexivity.
Qed.

Lemma grows_quiet st st' :
  report (ingester st') = report (ingester st) ->
  errorLines (logged st') = errorLines (logged st) ->
  grows st st'.
Proof. intros R L. exists []. rewrite R, L, !List.app_nil_r. split; reflexivity. Qed.

Lemma grows_info m a st : grows st (logLn LevelInfo m a st).
Proof.
  apply grows_quiet; [reflexivity|].
  cbn [logLn logged]. rewrite errorLines_app. cbn. apply List.app_nil_r.
Qed.

Lemma grows_debug m a st : grows st (logLn LevelDebug m a st).
Proof.
  apply grows_quiet; [reflexivity|].
  cbn [logLn logged]. rewrite errorLines_app. cbn. apply List.app_nil_r.
Qed.

Lemma grows_pushRound st n now : grows st (snd (pushRound st n now)).
Proof.
  unfold pushRound.
  destruct (sendMediaSegments_round (ingester (logLn LevelDebug "Start media segment"
              [Go.fmt_d n; Go.fmt_d now] st)) n now) as (_ & _ & _ & Hr & _).
  destruct (sendMediaSegments _ n now) as [r c]; cbn [fst snd] in *.
  apply grows_quiet; cbn [ingester logged logLn] in *; [exact Hr|].
  rewrite errorLines_app. cbn. apply List.app_nil_r.
Qed.

Lemma sendInits_grows rds : forall st b ct, grows st (initState (sendInits rds st b ct)).
Proof.
  induction rds as [|rd rds IH]; intros st b ct; cbn [sendInits initState].
  - apply grows_refl.
  - destruct (matchTimeSubsInitLang _ _) as [[[prefix lang] ok] err].
    destruct ok.
    + destruct err as [e|]; [apply grows_fail|].
      destruct (encodeTimeSubsInit prefix lang) as [b'|e]; [|apply grows_fail].
      eapply grows_trans; [|apply IH]. apply grows_info.
    + destruct (matchInit _ _ _) as [m merr].
      set (st1 := match merr with Some e => _ | None => st end).
      assert (K1 : grows st st1)
        by (subst st1; destruct merr; [apply grows_fail | apply grows_refl]).
      clearbody st1.
      set (st2 := if negb (isInit m) then _ else st1).
      assert (K2 : grows st st2).
      { subst st2. destruct (negb (isInit m)); [|exact K1].
        eapply grows_trans; [exact K1 | apply grows_fail]. }
      clearbody st2.
      destruct (repSegmentType m) as [ct'|]; [|exact K2].
      destruct (assetPartsOf _) as [ps|]; [|exact K2].
      cbn [appendPart].
      match goal with |- context [set_ingester st2 (set_cfg (ingester st2) ?g)] =>
        set (st3 := set_ingester st2 (set_cfg (ingester st2) g)) end.
      assert (K3 : grows st st3).
      { eapply grows_trans; [exact K2|]. apply grows_quiet; reflexivity. }
      clearbody st3.
      destruct (sendInitSegment _ _ _ _) as [put err'].
      eapply grows_trans; [|apply IH].
      eapply grows_trans; [exact K3|].
      eapply grows_trans; [apply grows_quiet with (st' := recordPut put st3);
                           destruct put; reflexivity|].
      destruct err'; [|apply grows_info].
      eapply grows_trans; [apply grows_fail | apply grows_info].
Qed.

Lemma catchUp_grows clock : forall st n a d,
  grows st (caughtUpState (catchUp clock st n a d)).
Proof.
  assert (Hfirst : forall clock0 st n a d,
    (forall t clock', clock0 = t :: clock' -> forall st n a d,
        grows st (caughtUpState (catchUp clock' st n a d))) ->
    grows st (caughtUpState (catchUp clock0 st n a d))).
  { intros clock0 st n a d IH.
    assert (Hp : grows st (snd (pushRound (fail (driftLine a) st) n (Go.int a)))).
    { eapply grows_trans; [apply grows_fail | apply grows_pushRound]. }
    destruct clock0 as [|t clock']; cbn [catchUp];
      (destruct (0 <? d); [apply grows_refl|]);
      destruct (pushRound (fail (driftLine a) st) n (Go.int a)) as [res st1];
      cbn [fst snd] in *;
      (destruct res as [|e|]; cbn [caughtUpState];
       [|eapply grows_trans; [exact Hp | apply grows_fail]|exact Hp]);
      (destruct (calcSegmentAvailabilityTime _ _ _ _) as [a1|e]; cbn [caughtUpState];
       [|eapply grows_trans; [exact Hp | apply grows_fail]]).
    - exact Hp.
    - eapply grows_trans; [exact Hp | apply (IH t clock' eq_refl)]. }
  induction clock as [|t clock IH]; intros st n a d; apply Hfirst.
  - intros; discriminate.
  - intros t0 clock0 [= <- <-]. exact IH.
Qed.

Lemma body_grows clock st n a timer : grows st (bodyState (body clock st n a timer)).
Proof.
  unfold body.
  pose proof (grows_pushRound st n (Go.int a)) as Hp.
  destruct (pushRound st n (Go.int a)) as [res st1]; cbn [fst snd] in *.
  destruct res as [|e|]; cbn [bodyState];
    [|eapply grows_trans; [exact Hp | apply grows_fail]|exact Hp].
  destruct (calcSegmentAvailabilityTime _ _ _ _) as [a1|e]; cbn [bodyState];
    [|eapply grows_trans; [exact Hp | apply grows_fail]].
  destruct (TestNowMS (ingester st1)); cbn [bodyState];
    [eapply grows_trans; [exact Hp | apply grows_info]|].
  destruct clock as [|t clock]; cbn [bodyState]; [exact Hp|].
  match goal with |- context [catchUp clock ?s ?n1 a1 ?d] =>
    pose proof (catchUp_grows clock s n1 a1 d) as Hc;
    destruct (catchUp clock s n1 a1 d) as [st2 n2 a2 d2 clock2|st2|st2|st2]
  end; cbn [caughtUpState] in Hc; try (destruct clock2); cbn [bodyState];
    (eapply grows_trans; [exact Hp|]); (eapply grows_trans; [apply grows_info | exact Hc]).
Qed.

Lemma loop_grows wakes : forall clock st n a timer,
  grows st (snd (loop wakes clock st n a timer)).
Proof.
  induction wakes as [|[w at_] wakes IH]; intros clock st n a timer; cbn [loop].
  - apply grows_info.
  - destruct (select w at_ timer) as [timer'| |]; cbn [snd].
    + pose proof (body_grows clock (logLn LevelInfo "Waiting for next segment" [] st)
                    n a timer') as Hb.
      destruct (body _ _ _ _ _) as [st1 n1 a1 timer1 clock1|o st1]; cbn [bodyState snd] in *.
      * eapply grows_trans; [apply grows_info|].
        eapply grows_trans; [exact Hb | apply IH].
      * eapply grows_trans; [apply grows_info | exact Hb].
    + eapply grows_trans; apply grows_info.
    + apply grows_info.
Qed.

(** X4. The report only grows, and it grows by exactly the lines that
    [start] logs at error level, in the order they are logged: at the end
    of any run the report of the session is the report it started with
    followed by the session's error log. *)
Theorem report_is_error_log (c : Ingester) (clock : list Z) (wakes : list (wake * Z)) :
  report (ingester (snd (start c clock wakes)))
  = report c ++ errorLines (logged (snd (start c clock wakes))).
Proof.
  assert (H : grows (newState c) (snd (start c clock wakes))).
  { unfold start.
    pose proof (sendInits_grows (repsData c) (newState c) [] "application/mp4") as Hi.
    destruct (sendInits _ _ _ _) as [st b ct|st|st]; cbn [initState snd] in *;
      try exact Hi.
    eapply grows_trans; [exact Hi|]. unfold firstSegment.
    destruct (startNow (ingester st) clock) as [[nowMS clock']|]; [|apply grows_refl].
    destruct (calcSegmentAvailabilityTime _ _ _ _) as [a|e]; cbn [snd].
    - destruct clock' as [|armedAt clock'']; cbn [snd].
      + eapply grows_trans; [apply grows_debug | apply grows_info].
      + eapply grows_trans; [apply grows_debug|].
        eapply grows_trans; [apply grows_info | apply loop_grows].
    - eapply grows_trans; [apply grows_debug | apply grows_fail]. }
  destruct H as (lines & R & L). cbn [newState ingester logged] in R, L.
  cbn in L. rewrite R, L. reflexivity.
Qed.

(** Rounds numbered from [n] on, each one above the one before. *)
Fixpoint numbered (n : Z) (rs : list round) : Prop :=
  match rs with
  | [] => True
  | r :: rs' => segNr r = n /\ numbered (Go.int (n + 1)) rs'
  end.

Fixpoint advance (k : nat) (n : Z) : Z :=
  match k with
  | O => n
  | S k' => advance k' (Go.int (n + 1))
  end.

Lemma numbered_app rs1 : forall n rs2,
  numbered n (rs1 ++ rs2) <-> numbered n rs1 /\ numbered (advance (length rs1) n) rs2.
Proof.
  induction rs1 as [|r rs1 IH]; intros n rs2; cbn [app numbered length advance].
  - tauto.
  - rewrite IH. tauto.
Qed.

Lemma catchUp_numbered clock : forall st n a d,
  exists more,
    rounds (caughtUpState (catchUp clock st n a d)) = rounds st ++ more
    /\ numbered n more
    /\ forall st' n' a' d' clock',
         catchUp clock st n a d = Ahead st' n' a' d' clock' ->
         n' = advance (length more) n.
Proof.
  assert (Hfirst : forall clock0 st n a d,
    (forall t clock', clock0 = t :: clock' -> forall st n a d,
        exists more,
          rounds (caughtUpState (catchUp clock' st n a d)) = rounds st ++ more
          /\ numbered n more
          /\ forall st' n' a' d' clock'',
               catchUp clock' st n a d = Ahead st' n' a' d' clock'' ->
               n' = advance (length more) n) ->
    exists more,
      rounds (caughtUpState (catchUp clock0 st n a d)) = rounds st ++ more
      /\ numbered n more
      /\ forall st' n' a' d' clock',
           catchUp clock0 st n a d = Ahead st' n' a' d' clock' ->
           n' = advance (length more) n).
  { intros clock0 st n a d IH.
    assert (E : catchUp clock0 st n a d
      = if 0 <? d then Ahead st n a d clock0
        else
          match pushRound (fail (driftLine a) st) n (Go.int a) with
          | (RoundError e, st1) =>
              Stopped (fail ("Error sending media segments: " +:+ e)%string st1)
          | (RoundPanic, st1) => CatchUpPanicked st1
          | (RoundOk, st1) =>
              match calcSegmentAvailabilityTime (asset (ingester st1))
                      (refRep (asset (ingester st1))) (Go.uint32 (Go.int (n + 1)))
                      (cfg (ingester st1)) with
              | inr e =>
                  Stopped
                    (fail ("Error calculating segment availability time: " +:+ e)%string st1)
              | inl a1 =>
                  match clock0 with
                  | [] => CatchUpClockMissing st1
                  | t :: clock' =>
                      catchUp clock' st1 (Go.int (n + 1)) a1 (duration a1 (unixMS t))
                  end
              end
          end) by (destruct clock0; reflexivity).
    rewrite E. clear E.
    destruct (0 <? d).
    { exists []. cbn [caughtUpState]. rewrite List.app_nil_r.
      split; [reflexivity|]. split; [exact I|].
      intros st' n' a' d' clock' [= _ <- _ _ _]. reflexivity. }
    destruct (pushRound_spec (fail (driftLine a) st) n (Go.int a))
      as (r & Hr & Hn & _).
    rewrite fail_rounds in Hr.
    destruct (pushRound (fail (driftLine a) st) n (Go.int a)) as [res st1];
      cbn [fst snd] in *.
    assert (Hone : forall sx, rounds sx = rounds st1 ->
      exists more, rounds sx = rounds st ++ more /\ numbered n more).
    { intros sx ->. exists [r]. rewrite Hr. cbn. auto. }
    destruct res as [|e|].
    - destruct (calcSegmentAvailabilityTime _ _ _ _) as [a1|e].
      + destruct clock0 as [|t clock'].
        * destruct (Hone st1 eq_refl) as (more & Hm & Hnum).
          exists more. cbn [caughtUpState]. repeat split; try assumption. discriminate.
        * destruct (IH t clock' eq_refl st1 (Go.int (n + 1)) a1 (duration a1 (unixMS t)))
            as (more & Hm & Hnum & Hah).
          exists (r :: more). rewrite Hm, Hr, <- List.app_assoc. cbn [app numbered].
          split; [reflexivity|]. split; [auto|].
          intros st' n' a' d' clock'' Hc. cbn [length advance]. eapply Hah. exact Hc.
      + destruct (Hone (fail ("Error calculating segment availability time: " +:+ e)%string st1)
                    (fail_rounds _ _)) as (more & Hm & Hnum).
        exists more. cbn [caughtUpState]. repeat split; try assumption. discriminate.
    - destruct (Hone (fail ("Error sending media segments: " +:+ e)%string st1)
                  (fail_rounds _ _)) as (more & Hm & Hnum).
      exists more. cbn [caughtUpState]. repeat split; try assumption. discriminate.
    - destruct (Hone st1 eq_refl) as (more & Hm & Hnum).
      exists more. cbn [caughtUpState]. repeat split; try assumption. discriminate. }
  induction clock as [|t clock IH]; intros st n a d; apply Hfirst.
  - intros; discriminate.
  - intros t0 clock0 [= <- <-]. exact IH.
Qed.

Lemma body_numbered clock st n a timer :
  exists more,
    rounds (bodyState (body clock st n a timer)) = rounds st ++ more
    /\ numbered n more
    /\ forall st' n' a' timer' clock',
         body clock st n a timer = Again st' n' a' timer' clock' ->
         n' = advance (length more) n.
Proof.
  unfold body.
  destruct (pushRound_spec st n (Go.int a)) as (r & Hr & Hn & _).
  destruct (pushRound st n (Go.int a)) as [res st1]; cbn [fst snd] in *.
  assert (Hone : forall sx, rounds sx = rounds st1 ->
    exists more, rounds sx = rounds st ++ more /\ numbered n more
                 /\ advance (length more) n = Go.int (n + 1)).
  { intros sx ->. exists [r]. rewrite Hr. cbn. auto. }
  destruct res as [|e|]; cbn [bodyState].
  - destruct (calcSegmentAvailabilityTime _ _ _ _) as [a1|e]; cbn [bodyState].
    + destruct (TestNowMS (ingester st1)); cbn [bodyState].
      * destruct (Hone (logLn LevelInfo "Next segment availability time" [Go.fmt_d a1] st1)
                    eq_refl) as (more & Hm & Hnum & Hadv).
        exists more. split; [exact Hm|]. split; [exact Hnum|].
        intros st' n' a' timer' clock' [= _ <- _ _ _]. symmetry. exact Hadv.
      * destruct clock as [|t clock]; cbn [bodyState].
        { destruct (Hone st1 eq_refl) as (more & Hm & Hnum & _).
          exists more. repeat split; try assumption. discriminate. }
        match goal with |- context [catchUp clock ?s ?n1 a1 ?d] =>
          destruct (catchUp_numbered clock s n1 a1 d) as (more & Hm & Hnum & Hah);
          destruct (catchUp clock s n1 a1 d) as [st2 n2 a2 d2 clock2|st2|st2|st2]
        end; cbn [caughtUpState logLn rounds] in Hm;
          try (destruct clock2 as [|armedAt clock3]); cbn [bodyState];
          exists (r :: more); rewrite Hm, Hr, <- List.app_assoc; cbn [app numbered];
          (split; [reflexivity|]); (split; [auto|]); try discriminate.
        intros st' n' a' timer' clock' [= _ <- _ _ _]. cbn [length advance].
        eapply Hah. reflexivity.
    + destruct (Hone (fail ("Error calculating segment availability time: " +:+ e)%string st1)
                  (fail_rounds _ _)) as (more & Hm & Hnum & _).
      exists more. repeat split; try assumption. discriminate.
  - destruct (Hone (fail ("Error sending media segments: " +:+ e)%string st1)
                (fail_rounds _ _)) as (more & Hm & Hnum & _).
    exists more. repeat split; try assumption. discriminate.
  - destruct (Hone st1 eq_refl) as (more & Hm & Hnum & _).
    exists more. repeat split; try assumption. discriminate.
Qed.

Lemma loop_numbered wakes : forall clock st n a timer,
  exists new,
    rounds (snd (loop wakes clock st n a timer)) = rounds st ++ new /\ numbered n new.
Proof.
  induction wakes as [|[w at_] wakes IH]; intros clock st n a timer; cbn [loop].
  - exists []. cbn. rewrite List.app_nil_r. auto.
  - set (st0 := logLn LevelInfo "Waiting for next segment" [] st).
    assert (Hr0 : rounds st0 = rounds st) by reflexivity. clearbody st0.
    rewrite <- Hr0.
    destruct (select w at_ timer) as [timer'| |]; cbn [snd];
      try solve [exists []; cbn; rewrite List.app_nil_r; auto].
    destruct (body_numbered clock st0 n a timer') as (more & Hb & Hnum & Hnext).
    destruct (body clock st0 n a timer') as [st1 n1 a1 timer1 clock1|o st1];
      cbn [bodyState snd] in *.
    + destruct (IH clock1 st1 n1 a1 timer1) as (new & Hl & Hnum').
      exists (more ++ new). rewrite Hl, Hb, <- List.app_assoc.
      split; [reflexivity|]. apply numbered_app. split; [exact Hnum|].
      rewrite <- (Hnext _ _ _ _ _ eq_refl). exact Hnum'.
    + exists more. auto.
Qed.

(** X5. The rounds a session pushes are numbered consecutively: whatever
    wakes the loop (timer, advance signal) and however many rounds the drift
    correction adds, each round has the number of the round before it plus
    one (as an [int]), with no gap and no repetition. *)
Theorem rounds_numbered_consecutively (c : Ingester) (clock : list Z)
  (wakes : list (wake * Z)) (first : round) (later : list round) :
  rounds (snd (start c clock wakes)) = first :: later ->
  numbered (segNr first) (first :: later).
Proof.
  unfold start.
  pose proof (sendInits_keeps (repsData c) (newState c) [] "application/mp4") as K.
  destruct (sendInits _ _ _ _) as [st b ct|st|st]; cbn [initState snd] in *;
    destruct K as (_ & _ & _ & _ & K5 & _); cbn [newState rounds] in K5;
    try (rewrite K5; discriminate).
  unfold firstSegment.
  destruct (startNow (ingester st) clock) as [[nowMS clock']|];
    [|cbn [snd]; rewrite K5; discriminate].
  destruct (calcSegmentAvailabilityTime _ _ _ _) as [a|e];
    [|cbn [snd]; rewrite fail_rounds; cbn [logLn rounds]; rewrite K5; discriminate].
  destruct clock' as [|armedAt clock''];
    [cbn [snd logLn rounds]; rewrite K5; discriminate|].
  match goal with |- context [loop wakes clock'' ?s ?n a ?tm] =>
    destruct (loop_numbered wakes clock'' s n a tm) as (new & Hl & Hnum) end.
  rewrite Hl. cbn [logLn rounds]. rewrite K5. cbn [app]. intros ->.
  destruct Hnum as [Hn Hrest]. cbn [numbered]. rewrite Hn. auto.
Qed.


(** *** Further properties of the session: the round and the URL parts *)

(** [append] on the sub-slice writes over the last element. *)
Definition overwriteLast (parts : list string) (part : string) : list string :=
  firstn (length parts - 1) parts ++ [part].

Definition withURLParts (g : Config) (parts : list string) : Config :=
  {| URLParts := parts; SegTimelineFlag := SegTimelineFlag g;
     otherFields := otherFields g |}.

Lemma overwriteLast_twice parts p1 p2 :
  overwriteLast (overwriteLast parts p1) p2 = overwriteLast parts p2.
Proof.
  unfold overwriteLast. f_equal.
  rewrite length_app, length_firstn. cbn [length].
  replace (Nat.min (length parts - 1) (length parts) + 1 - 1)%nat
    with (length (firstn (length parts - 1) parts))
    by (rewrite length_firstn; lia).
  rewrite List.firstn_app, List.firstn_all, Nat.sub_diag. cbn [firstn].
  apply List.app_nil_r.
Qed.

Lemma overwriteLast_length parts p :
  (1 <= length parts)%nat -> length (overwriteLast parts p) = length parts.
Proof.
  intros H. unfold overwriteLast. rewrite length_app, length_firstn. cbn. lia.
Qed.

(** Writing over the last element leaves the asset path
    [URLParts[2 : len-1]] as it is. *)
Lemma assetPartsOf_overwriteLast parts p :
  (3 <= length parts)%nat ->
  assetPartsOf (overwriteLast parts p) = assetPartsOf parts.
Proof.
  intros H. rewrite !assetPartsOf_long by (rewrite ?overwriteLast_length; lia).
  rewrite overwriteLast_length by lia. f_equal.
  unfold overwriteLast.
  rewrite List.skipn_app, length_firstn.
  replace (2 - Nat.min (length parts - 1) (length parts))%nat with 0%nat by lia.
  cbn [skipn]. rewrite List.firstn_app, length_skipn, length_firstn.
  replace (length parts - 3 - (Nat.min (length parts - 1) (length parts) - 2))%nat
    with 0%nat by lia.
  cbn [firstn]. rewrite List.app_nil_r.
  rewrite List.skipn_firstn_comm.
  rewrite List.firstn_firstn. f_equal. lia.
Qed.

Lemma appendPart_cfg ps g part :
  snd (appendPart ps g part) = withURLParts g (overwriteLast (URLParts g) part).
Proof. reflexivity. Qed.

Definition numberUnit (ps : list string) (n now : Z) (rd : cmafRepData) : pushUnit :=
  mkUnit rd (joinPath (ps ++ [replaceTimeOrNr (mediaPattern rd) n]))
    (replaceTimeOrNr (mediaPattern rd) n) n now.

(** The configuration after units have been started: untouched when there
    is none, and otherwise with the segment name of the last unit in the
    place of the last URL part. *)
Definition cfgAfter (g : Config) (new : list pushUnit) : Config :=
  match List.rev new with
  | [] => g
  | u :: _ => withURLParts g (overwriteLast (URLParts g) (uSegPart u))
  end.

Lemma cfgAfter_cons g u new :
  cfgAfter (withURLParts g (overwriteLast (URLParts g) (uSegPart u))) new
  = cfgAfter g (u :: new).
Proof.
  unfold cfgAfter. cbn [List.rev].
  destruct (List.rev new) as [|v front] eqn:E; cbn [app].
  - reflexivity.
  - unfold withURLParts. cbn [URLParts SegTimelineFlag otherFields].
    rewrite overwriteLast_twice. reflexivity.
Qed.

Lemma numberLoop_spec ps n now rds : forall g started,
  numberLoop ps n now rds g started
  = (started ++ List.map (numberUnit ps n now) rds,
     cfgAfter g (List.map (numberUnit ps n now) rds)).
Proof.
  induction rds as [|rd rds IH]; intros g started; cbn [numberLoop List.map].
  - rewrite List.app_nil_r. reflexivity.
  - cbn [appendPart]. rewrite IH, <- List.app_assoc. cbn [app]. f_equal.
    apply (cfgAfter_cons g (numberUnit ps n now rd)).
Qed.

Lemma timelineLoop_cfg a wTimes atoMS ps n now rds : forall idx refSE g started,
  exists new,
    fst (fst (timelineLoop a wTimes atoMS ps n now idx rds refSE g started))
    = started ++ new
    /\ snd (timelineLoop a wTimes atoMS ps n now idx rds refSE g started)
       = cfgAfter g new
    /\ List.map uRep new = firstn (length new) rds
    /\ (Forall (fun rd => knownType (contentType rd) = true) rds ->
        snd (fst (timelineLoop a wTimes atoMS ps n now idx rds refSE g started))
        = RoundOk
        /\ List.map uRep new = rds).
Proof.
  induction rds as [|rd rds IH]; intros idx refSE g started.
  - exists []. cbn. rewrite List.app_nil_r. repeat split.
  - cbn [timelineLoop].
    set (entries := if (idx =? 0)%nat then _ else _).
    assert (He : knownType (contentType rd) = true -> entries <> None).
    { subst entries. unfold knownType. destruct (idx =? 0)%nat; [discriminate|].
      destruct (isIndependent (contentType rd)); [discriminate|].
      cbn [orb]. intros ->. discriminate. }
    clearbody entries. destruct entries as [[se refSE']|].
    + cbn [appendPart].
      match goal with |- context [timelineLoop a wTimes atoMS ps n now (S idx) rds _ ?g' ?st'] =>
        destruct (IH (S idx) refSE' g' st') as (new & Hn & Hg & Hm & Hok) end.
      match goal with |- context [started ++ [?u]] => exists (u :: new) end.
      rewrite Hn, Hg, <- List.app_assoc. cbn [app].
      split; [reflexivity|]. split.
      * match goal with |- cfgAfter ?g1 new = cfgAfter g (?u :: new) =>
          apply (cfgAfter_cons g u) end.
      * cbn [List.map length firstn uRep mkUnit]. split; [f_equal; exact Hm|].
        intros Hall. apply Forall_cons in Hall as [_ Hall].
        destruct (Hok Hall) as [Hres Hm']. split; [exact Hres | f_equal; exact Hm'].
    + exists []. cbn [fst snd]. rewrite List.app_nil_r.
      split; [reflexivity|]. split; [reflexivity|]. split; [reflexivity|].
      intros Hall. apply Forall_cons in Hall as [Hk _]. specialize (He Hk). congruence.
Qed.

(** X7. A round in number mode starts exactly one unit per representation,
    in the session's order; each unit carries the round's segment number and
    time, its segment name is the representation's media pattern filled with
    the segment number, and its path is the asset path [URLParts[2 : len-1]]
    followed by that name, joined by slashes. The round returns no error. *)
Theorem number_round (c : Ingester) (n now : Z) :
  SegTimelineFlag (cfg c) = false ->
  (3 <= length (URLParts (cfg c)))%nat ->
  let ps := firstn (length (URLParts (cfg c)) - 3) (skipn 2 (URLParts (cfg c))) in
  let r := fst (sendMediaSegments c n now) in
  result r = RoundOk
  /\ segNr r = n
  /\ units r
     = List.map (fun rd =>
         {| uRep := rd;
            uSegPath := joinPath (ps ++ [replaceTimeOrNr (mediaPattern rd) n]);
            uSegPart := replaceTimeOrNr (mediaPattern rd) n;
            uSegNr := n;
            uNowMS := now |}) (repsData c).
Proof.
  intros Hflag Hlen ps r. subst r. unfold sendMediaSegments.
  rewrite (assetPartsOf_long _ Hlen), Hflag. fold ps.
  rewrite numberLoop_spec. cbn. repeat split.
Qed.

(** X8. A round that starts units writes the segment name of the last unit
    it started over the last element of the configuration's [URLParts] (the
    manifest name), in both addressing modes, and changes nothing else in the
    configuration; the asset path [URLParts[2 : len-1]] that later rounds and
    init pushes use stays the same. A round that starts no unit leaves the
    configuration alone. *)
Theorem round_overwrites_last_url_part (c : Ingester) (n now : Z) :
  (3 <= length (URLParts (cfg c)))%nat ->
  let r := fst (sendMediaSegments c n now) in
  let c' := snd (sendMediaSegments c n now) in
  (units r = [] -> cfg c' = cfg c)
  /\ (forall front u, units r = front ++ [u] ->
        URLParts (cfg c')
        = firstn (length (URLParts (cfg c)) - 1) (URLParts (cfg c)) ++ [uSegPart u]
        /\ SegTimelineFlag (cfg c') = SegTimelineFlag (cfg c)
        /\ otherFields (cfg c') = otherFields (cfg c))
  /\ assetPartsOf (URLParts (cfg c')) = assetPartsOf (URLParts (cfg c)).
Proof.
  intros Hlen r c'. subst r c'.
  assert (Hafter : forall new,
    (new = [] -> cfgAfter (cfg c) new = cfg c)
    /\ (forall front u, new = front ++ [u] ->
          URLParts (cfgAfter (cfg c) new)
          = firstn (length (URLParts (cfg c)) - 1) (URLParts (cfg c)) ++ [uSegPart u]
          /\ SegTimelineFlag (cfgAfter (cfg c) new) = SegTimelineFlag (cfg c)
          /\ otherFields (cfgAfter (cfg c) new) = otherFields (cfg c))
    /\ assetPartsOf (URLParts (cfgAfter (cfg c) new)) = assetPartsOf (URLParts (cfg c))).
  { intros new. split; [intros ->; reflexivity|]. split.
    - intros front u ->. unfold cfgAfter. rewrite List.rev_app_distr. cbn.
      repeat split.
    - unfold cfgAfter. destruct (List.rev new); [reflexivity|].
      cbn [withURLParts URLParts]. apply assetPartsOf_overwriteLast, Hlen. }
  unfold sendMediaSegments.
  destruct (assetPartsOf (URLParts (cfg c))) as [ps|] eqn:Hps;
    [|rewrite assetPartsOf_long in Hps by exact Hlen; discriminate].
  rewrite ?Hps in Hafter.
  destruct (SegTimelineFlag (cfg c)).
  - destruct (timelineLoop_cfg (asset c)
                (calcWrapTimes (asset c) (cfg c) (Go.int (now + 50)) (100 * Go.Millisecond))
                (availabilityTimeOffsetMS (cfg c)) ps n now (repsData c) 0%nat
                noSegEntries (cfg c) []) as (new & Hn & Hg & _).
    destruct (timelineLoop _ _ _ _ _ _ _ _ _ _ _) as [[started res] g].
    cbn [fst snd units set_cfg cfg app] in *. subst started g. apply Hafter.
  - rewrite numberLoop_spec. cbn [fst snd units set_cfg cfg app]. apply Hafter.
Qed.

(** X9. For a session whose representations all have content type video,
    audio or text (as every session that [NewCmafIngester] stores has), a
    round returns no error in either addressing mode and starts exactly one
    unit per representation, in the session's order. *)
Theorem round_starts_every_unit (c : Ingester) (n now : Z) :
  (3 <= length (URLParts (cfg c)))%nat ->
  Forall (fun rd => contentType rd = "video"%string
                    \/ contentType rd = "audio"%string
                    \/ contentType rd = "text"%string) (repsData c) ->
  result (fst (sendMediaSegments c n now)) = RoundOk
  /\ List.map uRep (units (fst (sendMediaSegments c n now))) = repsData c
  /\ Forall (fun u => uSegNr u = n /\ uNowMS u = now)
       (units (fst (sendMediaSegments c n now))).
Proof.
  intros Hlen Htypes.
  assert (Hknown : Forall (fun rd => knownType (contentType rd) = true) (repsData c)).
  { eapply Forall_impl; [exact Htypes|]. cbn. intros rd [-> | [-> | ->]]; reflexivity. }
  unfold sendMediaSegments. rewrite (assetPartsOf_long _ Hlen).
  set (ps := firstn _ _).
  destruct (SegTimelineFlag (cfg c)).
  - destruct (timelineLoop_cfg (asset c)
                (calcWrapTimes (asset c) (cfg c) (Go.int (now + 50)) (100 * Go.Millisecond))
                (availabilityTimeOffsetMS (cfg c)) ps n now (repsData c) 0%nat
                noSegEntries (cfg c) []) as (new & Hn & _ & _ & Hok).
    destruct (timelineLoop_spec (asset c)
                (calcWrapTimes (asset c) (cfg c) (Go.int (now + 50)) (100 * Go.Millisecond))
                (availabilityTimeOffsetMS (cfg c)) ps n now
                (hd (Build_cmafRepData "" "" "" "" "") (repsData c)) (repsData c) 0%nat
                noSegEntries (cfg c) []) as (new' & Hn' & Hu & _);
      [congruence | destruct (repsData c); [left | right]; reflexivity |].
    destruct (timelineLoop _ _ _ _ _ _ _ _ _ _ _) as [[started res] g].
    cbn [fst snd units result app] in *. subst started.
    destruct (Hok Hknown) as [-> Hm]. split; [reflexivity|]. split; [exact Hm|].
    subst new'. rewrite List.Forall_forall. intros u Hin.
    apply List.In_nth_error in Hin as [j Hj].
    destruct (Hu j u Hj) as (rd & se & _ & _ & _ & _ & _ & H6 & H7). auto.
  - rewrite numberLoop_spec. cbn [fst snd units result app].
    split; [reflexivity|]. split.
    + rewrite List.map_map. cbn. apply List.map_id.
    + rewrite List.Forall_forall. intros u Hin.
      apply List.in_map_iff in Hin as (rd & <- & _). split; reflexivity.
Qed.

(** *** Further properties of the session: the init pushes *)

(** A PUT of the init segment of one of [rds], which is not on the
    time-subtitles path, to the destination [d] under the asset path [ps]. *)
Definition initPutOf (d : string) (a : Asset) (ps : list string)
  (rds : list cmafRepData) (p : initPut) : Prop :=
  exists rd g,
    In rd rds
    /\ snd (fst (matchTimeSubsInitLang g (initPath rd))) = false
    /\ putURL p = (d +:+ "/" +:+ joinPath (ps ++ [initPath rd]))%string
    /\ putMime p = mimeType rd
    /\ putBody p = init (fst (matchInit (initPath rd) g a)).

Lemma initPutOf_weaken d a ps rd rds p :
  initPutOf d a ps rds p -> initPutOf d a ps (rd :: rds) p.
Proof.
  intros (rd' & g & Hin & H). exists rd', g. split; [right; exact Hin | exact H].
Qed.

Lemma sendInits_puts d a ps rds : forall st b ct,
  dest (ingester st) = d ->
  asset (ingester st) = a ->
  assetPartsOf (URLParts (cfg (ingester st))) = Some ps ->
  exists new,
    initPuts (initState (sendInits rds st b ct)) = initPuts st ++ new
    /\ (length new <= length rds)%nat
    /\ Forall (initPutOf d a ps rds) new.
Proof.
  induction rds as [|rd rds IH]; intros st b ct Hd Ha Hps; cbn [sendInits initState].
  - exists []. rewrite List.app_nil_r.
    split; [reflexivity|]. split; [cbn; lia | constructor].
  - assert (Hnone : forall sx, initPuts sx = initPuts st ->
      exists new, initPuts sx = initPuts st ++ new
                  /\ (length new <= length (rd :: rds))%nat
                  /\ Forall (initPutOf d a ps (rd :: rds)) new).
    { intros sx ->. exists []. rewrite List.app_nil_r.
      split; [reflexivity|]. split; [cbn; lia | constructor]. }
    assert (Hnext : forall sx b' ct' front,
      dest (ingester sx) = d -> asset (ingester sx) = a ->
      assetPartsOf (URLParts (cfg (ingester sx))) = Some ps ->
      initPuts sx = initPuts st ++ front ->
      (length front <= 1)%nat ->
      Forall (initPutOf d a ps (rd :: rds)) front ->
      exists new,
        initPuts (initState (sendInits rds sx b' ct')) = initPuts st ++ new
        /\ (length new <= length (rd :: rds))%nat
        /\ Forall (initPutOf d a ps (rd :: rds)) new).
    { intros sx b' ct' front Hd' Ha' Hps' Hfront Hlen Hall.
      destruct (IH sx b' ct' Hd' Ha' Hps') as (new & Hn & Hl & Hf).
      exists (front ++ new). rewrite Hn, Hfront, <- List.app_assoc.
      split; [reflexivity|]. split; [rewrite length_app; cbn [length]; lia|].
      apply List.Forall_app. split; [exact Hall|].
      eapply Forall_impl; [exact Hf|]. intros p. apply initPutOf_weaken. }
    destruct (matchTimeSubsInitLang (cfg (ingester st)) (initPath rd))
      as [[[prefix lang] ok] err] eqn:Ets.
    destruct ok.
    + destruct err as [e|]; cbn [initState]; [apply Hnone; reflexivity|].
      destruct (encodeTimeSubsInit prefix lang) as [b'|e]; cbn [initState];
        [|apply Hnone; reflexivity].
      apply (Hnext _ _ _ []); try assumption;
        [symmetry; apply List.app_nil_r | cbn; lia | constructor].
    + destruct (matchInit (initPath rd) (cfg (ingester st)) (asset (ingester st)))
        as [m merr] eqn:Em.
      set (st1 := match merr with Some e => _ | None => st end).
      assert (K1 : ingester st1 = ingester st \/
                   exists r, ingester st1 = set_report (ingester st) r)
        by (subst st1; destruct merr; [right; eexists; reflexivity | left; reflexivity]).
      assert (P1 : initPuts st1 = initPuts st) by (subst st1; destruct merr; reflexivity).
      clearbody st1.
      set (st2 := if negb (isInit m) then _ else st1).
      assert (K2 : dest (ingester st2) = d /\ asset (ingester st2) = a
                   /\ cfg (ingester st2) = cfg (ingester st)
                   /\ initPuts st2 = initPuts st).
      { subst st2.
        destruct (negb (isInit m)); cbn [fail logLn set_ingester ingester initPuts];
          destruct K1 as [-> | [r ->]]; cbn; auto. }
      clearbody st2. destruct K2 as (Hd2 & Ha2 & Hc2 & P2).
      destruct (repSegmentType m) as [ct'|]; cbn [initState]; [|apply Hnone; exact P2].
      rewrite Hc2, Hps. cbn [appendPart].
      unfold sendInitSegment. cbn [set_ingester set_cfg ingester dest]. rewrite Hd2.
      pose proof (assetPartsOf_Some _ _ Hps) as Hlen.
      set (u := (d +:+ "/" +:+ joinPath (ps ++ [initPath rd]))%string).
      set (put := {| putURL := u; putMime := mimeType rd; putBody := init m |}).
      assert (Hput : initPutOf d a ps (rd :: rds) put).
      { exists rd, (cfg (ingester st)). split; [left; reflexivity|].
        rewrite Ets, <- Ha, Em. repeat split. }
      destruct (httpPut u (mimeType rd) (init m)) as [cause|cause|code cause|code];
        cbn [recordPut];
        [ eapply (Hnext _ _ _ []) | eapply (Hnext _ _ _ [put])
        | eapply (Hnext _ _ _ [put]) | eapply (Hnext _ _ _ [put]) ];
        cbn [fail logInit logLn set_ingester set_cfg set_report ingester dest asset cfg
             initPuts URLParts];
        try assumption;
        try (rewrite <- Hps;
             exact (assetPartsOf_overwriteLast (URLParts (cfg (ingester st)))
                      (initPath rd) Hlen));
        try (rewrite P2; try rewrite List.app_nil_r; reflexivity);
        try (cbn; lia);
        try (repeat constructor; exact Hput).
Qed.


(** X10. The init loop issues at most one PUT per representation, and every
    PUT it issues is for a representation that is not on the time-subtitles
    path: it goes to the destination, under the asset path
    [URLParts[2 : len-1]] followed by the representation's init path, with
    the representation's MIME type and the init bytes of the match. The
    synthetic init segment of a time-subtitles representation is never
    pushed. *)
Theorem init_pushes (c : Ingester) (ps : list string) :
  assetPartsOf (URLParts (cfg c)) = Some ps ->
  let st := initState (sendInits (repsData c) (newState c) [] "application/mp4") in
  (length (initPuts st) <= length (repsData c))%nat
  /\ Forall (initPutOf (dest c) (asset c) ps (repsData c)) (initPuts st).
Proof.
  intros Hps st. subst st.
  destruct (sendInits_puts (dest c) (asset c) ps (repsData c) (newState c) []
              "application/mp4" eq_refl eq_refl Hps) as (new & Hn & Hl & Hf).
  rewrite Hn. cbn [newState initPuts app]. split; assumption.
Qed.

(** *** Further properties of the session: leaving [start] *)









End Start.

(** *** A small world to run a session in

    One asset with segments of one second, segment [n] being available at
    [(n + 1)] seconds; a video and an audio representation; a destination
    that answers 200, one that answers 507 and one that is down. *)

Module World.

Definition cfgOf (timeline : bool) : ResponseConfig unit :=
  {| URLParts := [""; "livesim2"; "testpic"; "Manifest.mpd"]%string;
     SegTimelineFlag := timeline;
     otherFields := tt |}.

Definition video : cmafRepData :=
  {| repID := "V300"; contentType := "video"; mimeType := "video/mp4";
     initPath := "V300/init.mp4"; mediaPattern := "V300/" |}.

Definition audio : cmafRepData :=
  {| repID := "A48"; contentType := "audio"; mimeType := "audio/mp4";
     initPath := "A48/init.mp4"; mediaPattern := "A48/" |}.

Definition session (destination : string) (testNowMS : option Z) (timeline : bool)
  : cmafIngester unit unit :=
  {| user := ""; passWord := ""; dest := destination; url := "/livesim2/testpic/Manifest.mpd";
     log := 1; TestNowMS := testNowMS; cfg := cfgOf timeline; asset := tt;
     repsData := [video; audio]; report := [] |}.

Definition matchTimeSubsInitLang (g : ResponseConfig unit) (path : string)
  : string * string * bool * option string :=
  if String.eqb path "timesubs-en/init.mp4"
  then ("timesubs"%string, "en"%string, true, None)
  else (""%string, ""%string, false, None).

Definition encodeTimeSubsInit (prefix lang : string) : bytes + string :=
  inl [Byte.x00].

Definition matchInit (path : string) (g : ResponseConfig unit) (a : unit)
  : (bool * bytes) * option string :=
  if String.eqb path "V300/init.mp4" || String.eqb path "A48/init.mp4"
  then ((true, [Byte.x01; Byte.x02]), None)
  else ((false, []), None).

Definition repSegmentType (m : bool * bytes) : option string := Some "video/mp4"%string.

Definition httpPut (u mime : string) (data : bytes) : putOutcome :=
  if String.prefix "http://down" u then SendError "connection refused"
  else if String.prefix "http://full" u then Response 507
  else Response 200.

Definition findLastSegNr (g : ResponseConfig unit) (a : unit) (nowMS : Z) (r : unit) : Z :=
  nowMS / 1000 - 1.

Definition calcSegmentAvailabilityTime (a r : unit) (nr : Z) (g : ResponseConfig unit)
  : Z + string :=
  inl ((nr + 1) * 1000).

Definition calcWrapTimes (a : unit) (g : ResponseConfig unit) (nowMS d : Z) : Z := nowMS.

Definition generateTimelineEntries (a : unit) (id : string) (w ato : Z) : list Z :=
  if String.eqb id "V300" then [w / 1000 * 90000] else [w / 1000 * 48000 + 1024].

Definition generateTimelineEntriesFromRef (a : unit) (ref : list Z) (id : string) : list Z :=
  List.map (fun t => t * 48000 / 90000) ref.

Definition lastTime (l : list Z) : Z := List.last l 0.

Definition replaceTimeOrNr (pattern : string) (v : Z) : string :=
  (pattern +:+ Go.fmt_d v +:+ ".m4s")%string.

Abbreviation start :=
  (Session.start unit unit unit (list Z) Z (bool * bytes)
     matchTimeSubsInitLang encodeTimeSubsInit matchInit fst snd repSegmentType httpPut
     (fun a => a) findLastSegNr calcSegmentAvailabilityTime calcWrapTimes (fun _ => 0)
     generateTimelineEntries generateTimelineEntriesFromRef lastTime [] replaceTimeOrNr).

Abbreviation sendMediaSegments :=
  (Session.sendMediaSegments unit unit (list Z) Z
     calcWrapTimes (fun _ => 0)
     generateTimelineEntries generateTimelineEntriesFromRef lastTime [] replaceTimeOrNr).

Abbreviation catchUp :=
  (Session.catchUp unit unit unit (list Z) Z
     (fun a => a) calcSegmentAvailabilityTime calcWrapTimes (fun _ => 0)
     generateTimelineEntries generateTimelineEntriesFromRef lastTime [] replaceTimeOrNr).

(** Wall-clock instants: seconds since the epoch as nanoseconds. *)
Definition sec (s : Z) : Z := s * 1000000000.

End World.

(** A fixed-time session and two advance signals: rounds 1 and 2. *)
Example fixed_time_two_triggers :
  let r := World.start (World.session "http://dest" (Some 1000) false) [0]
             [(Triggered, World.sec 1); (Triggered, World.sec 2)] in
  fst r = Waiting
  /\ List.map segNr (rounds _ _ (snd r)) = [1; 2]
  /\ List.map (fun r => List.map uSegPath (units r)) (rounds _ _ (snd r))
     = [["testpic/V300/1.m4s"; "testpic/A48/1.m4s"];
        ["testpic/V300/2.m4s"; "testpic/A48/2.m4s"]]%string
  /\ List.map putURL (initPuts _ _ (snd r))
     = ["http://dest/testpic/V300/init.mp4"; "http://dest/testpic/A48/init.mp4"]%string
  /\ URLParts (cfg (ingester _ _ (snd r)))
     = [""; "livesim2"; "testpic"; "A48/2.m4s"]%string.
Proof. vm_compute. repeat split. Qed.

(** A wall-clock session that wakes up 2.5 seconds late: rounds 5, 6 and 7
    are pushed at once, with a drift line each for 6 and 7, and the timer is
    armed for round 8. *)
Example wall_clock_catches_up :
  let r := World.start (World.session "http://dest" None false)
             [World.sec 5; World.sec 5; 8500000000; 8600000000; 8700000000; 8800000000]
             [(TimerFired, 8500000000)] in
  fst r = Waiting
  /\ List.map segNr (rounds _ _ (snd r)) = [5; 6; 7]
  /\ report (ingester _ _ (snd r))
     = ["Segment availability time in the past: 7000";
        "Segment availability time in the past: 8000"]%string.
Proof. vm_compute. repeat split. Qed.

(** C1 as stated fails: a session with a fixed simulated time, left alone
    for 24 hours, pushes a round although no advance signal has come. *)
Lemma fixed_time_timer_pushes_round :
  let c := World.session "http://dest" (Some 1000) false in
  let wakes := [(TimerFired, World.sec 0 + 24 * Go.Hour)] in
  TestNowMS c = Some 1000
  /\ triggers wakes = 0%nat
  /\ List.map segNr (rounds _ _ (snd (World.start c [World.sec 0] wakes))) = [1]
  /\ ~ (length (rounds _ _ (snd (World.start c [World.sec 0] wakes)))
        <= triggers wakes)%nat.
Proof.
  cbv zeta. split; [reflexivity|]. split; [reflexivity|].
  split; [vm_compute; reflexivity|]. vm_compute. lia.
Qed.

Lemma fixed_time_rounds_need_trigger_witness :
  let c := World.session "http://dest" (Some 1000) false in
  let clock := [World.sec 0] in
  let wakes := [(Triggered, World.sec 10); (TimerFired, World.sec 20);
                (Triggered, World.sec 30)] in
  TestNowMS c = Some 1000
  /\ (length (rounds _ _ (snd (World.start c clock wakes))) <= triggers wakes + 1)%nat
  /\ (forall armedAt,
        hd_error clock = Some armedAt ->
        Forall (fun w => snd w < armedAt + 24 * Go.Hour) wakes ->
        (length (rounds _ _ (snd (World.start c clock wakes))) <= triggers wakes)%nat).
Proof.
  intros c clock wakes.
  assert (H : TestNowMS c = Some 1000) by reflexivity.
  split; [exact H|].
  exact (fixed_time_rounds_need_trigger unit unit unit (list Z) Z (bool * bytes)
           World.matchTimeSubsInitLang World.encodeTimeSubsInit World.matchInit fst snd
           World.repSegmentType World.httpPut (fun a => a) World.findLastSegNr
           World.calcSegmentAvailabilityTime World.calcWrapTimes (fun _ => 0)
           World.generateTimelineEntries World.generateTimelineEntriesFromRef
           World.lastTime [] World.replaceTimeOrNr c clock wakes 1000 H).
Defined.

Lemma first_segment_number_witness :
  let c := World.session "http://dest" None false in
  let clock := [World.sec 5; World.sec 5] in
  let wakes := [(Triggered, World.sec 5)] in
  exists r,
    hd_error (rounds _ _ (snd (World.start c clock wakes))) = Some r
    /\ exists st initBin contentType nowMS clock',
         sendInits unit unit (bool * bytes) World.matchTimeSubsInitLang
           World.encodeTimeSubsInit World.matchInit fst snd World.repSegmentType
           World.httpPut (repsData c) (newState _ _ c) [] "application/mp4"
         = InitDone _ _ st initBin contentType
         /\ startNow _ _ c clock = Some (nowMS, clock')
         /\ nowMS = match TestNowMS c with
                    | Some t => t
                    | None => unixMS (hd 0 clock)
                    end
         /\ let lastNr := World.findLastSegNr (cfg (ingester _ _ st)) (asset c) nowMS
                            (asset c) in
            segNr r = Go.int (lastNr + 1)
            /\ (Go.MinInt <= lastNr < Go.MaxInt -> segNr r = lastNr + 1).
Proof.
  intros c clock wakes.
  destruct (hd_error (rounds _ _ (snd (World.start c clock wakes)))) as [r|] eqn:E;
    [|vm_compute in E; discriminate].
  exists r. split; [reflexivity|].
  exact (first_segment_number unit unit unit (list Z) Z (bool * bytes)
           World.matchTimeSubsInitLang World.encodeTimeSubsInit World.matchInit fst snd
           World.repSegmentType World.httpPut (fun a => a) World.findLastSegNr
           World.calcSegmentAvailabilityTime World.calcWrapTimes (fun _ => 0)
           World.generateTimelineEntries World.generateTimelineEntriesFromRef
           World.lastTime [] World.replaceTimeOrNr c clock wakes r E).
Defined.

(** The first round of that session has number 5: the clock reads 5000 ms and
    segment 4 is the last one available then. *)
Example first_segment_number_is_5 :
  List.map segNr
    (rounds _ _ (snd (World.start (World.session "http://dest" None false)
                        [World.sec 5; World.sec 5] [(Triggered, World.sec 5)])))
  = [5].
Proof. vm_compute. reflexivity. Qed.


Lemma timeline_round_witness :
  let c := World.session "http://dest" None true in
  let r := fst (World.sendMediaSegments c 5 6000) in
  (SegTimelineFlag (cfg c) = true
   /\ (3 <= length (URLParts (cfg c)))%nat
   /\ repsData c = World.video :: [World.audio])
  /\ (forall i u, nth_error (units r) (S i) = Some u ->
        contentType (uRep u) = "audio"%string ->
        uSegPart u
        = World.replaceTimeOrNr (mediaPattern (uRep u))
            (Go.int (World.lastTime
               (World.generateTimelineEntriesFromRef (asset c)
                  (World.generateTimelineEntries (asset c) (repID World.video)
                     (World.calcWrapTimes (asset c) (cfg c) (Go.int (6000 + 50))
                        (100 * Go.Millisecond)) 0)
                  (repID (uRep u))))))
  /\ (Forall (fun rd => knownType (contentType rd) = true) [World.audio] ->
        result r = RoundOk /\ length (units r) = length (repsData c)).
Proof.
  intros c r.
  assert (H1 : SegTimelineFlag (cfg c) = true) by reflexivity.
  assert (H2 : (3 <= length (URLParts (cfg c)))%nat) by (vm_compute; lia).
  assert (H3 : repsData c = World.video :: [World.audio]) by reflexivity.
  split; [auto|].
  destruct (timeline_round unit unit (list Z) Z
              World.calcWrapTimes (fun _ => 0) World.generateTimelineEntries
              World.generateTimelineEntriesFromRef World.lastTime []
              World.replaceTimeOrNr c 5 6000 World.video [World.audio] H1 H2 H3)
    as (_ & Haudio & Hall).
  split; [exact Haudio | exact Hall].
Defined.

(** In that round the video segment is named by the video's own last time
    and the audio segment by the reference's last time converted to the
    audio timescale, not by the audio's own entries (which end 1024 later). *)
Example timeline_round_paths :
  List.map uSegPath
    (units (fst (World.sendMediaSegments (World.session "http://dest" None true) 5 6000)))
  = ["testpic/V300/540000.m4s"; "testpic/A48/288000.m4s"]%string.
Proof. vm_compute. reflexivity. Qed.

(** C4 as stated fails: both init PUTs are answered with status 507 and the
    report and the error log stay empty. *)
Lemma non_2xx_init_push_not_recorded :
  let c := World.session "http://full" (Some 1000) false in
  let st := snd (World.start c [World.sec 0] []) in
  length (initPuts _ _ st) = 2%nat
  /\ Forall (fun p => World.httpPut (putURL p) (putMime p) (putBody p) = Response 507)
       (initPuts _ _ st)
  /\ report (ingester _ _ st) = []
  /\ errorLines (logged _ _ st) = [].
Proof.
  cbv zeta. split; [vm_compute; reflexivity|]. split.
  - vm_compute. repeat constructor.
  - split; vm_compute; reflexivity.
Qed.

Lemma World_timeSubsFine g rd :
  timeSubsFine unit World.matchTimeSubsInitLang World.encodeTimeSubsInit g rd.
Proof.
  unfold timeSubsFine, World.matchTimeSubsInitLang.
  destruct (String.eqb (initPath rd) "timesubs-en/init.mp4").
  - intros _. split; [reflexivity|]. eexists. reflexivity.
  - discriminate.
Qed.

Lemma init_failures_do_not_abort_witness :
  let c := World.session "http://down" (Some 1000) false in
  (3 <= length (URLParts (cfg c)))%nat
  /\ exists st b ct,
       sendInits unit unit (bool * bytes) World.matchTimeSubsInitLang
         World.encodeTimeSubsInit World.matchInit fst snd World.repSegmentType
         World.httpPut (repsData c) (newState _ _ c) [] "application/mp4"
       = InitDone _ _ st b ct
       /\ World.start c [World.sec 0] []
          = firstSegment unit unit unit (list Z) Z (fun a => a) World.findLastSegNr
              World.calcSegmentAvailabilityTime World.calcWrapTimes (fun _ => 0)
              World.generateTimelineEntries World.generateTimelineEntriesFromRef
              World.lastTime [] World.replaceTimeOrNr st [World.sec 0] []
       /\ report (ingester _ _ st) = report c ++ errorLines (logged _ _ st)
       /\ initLines (logged _ _ st) = length (repsData c).
Proof.
  intros c.
  assert (H1 : (3 <= length (URLParts (cfg c)))%nat) by (vm_compute; lia).
  split; [exact H1|].
  apply (init_failures_do_not_abort unit unit unit (list Z) Z (bool * bytes)
           World.matchTimeSubsInitLang World.encodeTimeSubsInit World.matchInit fst snd
           World.repSegmentType World.httpPut (fun a => a) World.findLastSegNr
           World.calcSegmentAvailabilityTime World.calcWrapTimes (fun _ => 0)
           World.generateTimelineEntries World.generateTimelineEntriesFromRef
           World.lastTime [] World.replaceTimeOrNr c [World.sec 0] [] H1).
  - intros g rd _. apply World_timeSubsFine.
  - intros g rd _. discriminate.
Defined.

(** With the destination down, both init PUTs fail and both failures are in
    the report; the session still waits for its first segment. *)
Example init_push_failures_recorded :
  let r := World.start (World.session "http://down" (Some 1000) false) [World.sec 0] [] in
  fst r = Waiting
  /\ report (ingester _ _ (snd r))
     = ["error uploading init segment: Error sending request: connection refused";
        "error uploading init segment: Error sending request: connection refused"]%string.
Proof. vm_compute. split; reflexivity. Qed.

(** The rounds of the session that wakes up late are numbered 5, 6, 7. *)
Lemma rounds_numbered_consecutively_witness :
  let c := World.session "http://dest" None false in
  let clock := [World.sec 5; World.sec 5; 8500000000; 8600000000; 8700000000; 8800000000] in
  let wakes := [(TimerFired, 8500000000)] in
  exists first later,
    rounds _ _ (snd (World.start c clock wakes)) = first :: later
    /\ numbered (segNr first) (first :: later).
Proof.
  intros c clock wakes.
  destruct (rounds _ _ (snd (World.start c clock wakes))) as [|first later] eqn:E;
    [vm_compute in E; discriminate|].
  exists first, later. split; [reflexivity|].
  exact (rounds_numbered_consecutively unit unit unit (list Z) Z (bool * bytes)
           World.matchTimeSubsInitLang World.encodeTimeSubsInit World.matchInit fst snd
           World.repSegmentType World.httpPut (fun a => a) World.findLastSegNr
           World.calcSegmentAvailabilityTime World.calcWrapTimes (fun _ => 0)
           World.generateTimelineEntries World.generateTimelineEntriesFromRef
           World.lastTime [] World.replaceTimeOrNr c clock wakes first later E).
Defined.

Lemma number_round_witness :
  let c := World.session "http://dest" None false in
  let ps := firstn (length (URLParts (cfg c)) - 3) (skipn 2 (URLParts (cfg c))) in
  let r := fst (World.sendMediaSegments c 5 6000) in
  (SegTimelineFlag (cfg c) = false /\ (3 <= length (URLParts (cfg c)))%nat)
  /\ result r = RoundOk
  /\ segNr r = 5
  /\ units r
     = List.map (fun rd =>
         {| uRep := rd;
            uSegPath := joinPath (ps ++ [World.replaceTimeOrNr (mediaPattern rd) 5]);
            uSegPart := World.replaceTimeOrNr (mediaPattern rd) 5;
            uSegNr := 5;
            uNowMS := 6000 |}) (repsData c).
Proof.
  intros c ps r.
  assert (H1 : SegTimelineFlag (cfg c) = false) by reflexivity.
  assert (H2 : (3 <= length (URLParts (cfg c)))%nat) by (vm_compute; lia).
  split; [auto|].
  exact (number_round unit unit (list Z) Z
           World.calcWrapTimes (fun _ => 0) World.generateTimelineEntries
           World.generateTimelineEntriesFromRef World.lastTime []
           World.replaceTimeOrNr c 5 6000 H1 H2).
Defined.

Lemma round_overwrites_last_url_part_witness :
  let c := World.session "http://dest" None false in
  let r := fst (World.sendMediaSegments c 5 6000) in
  let c' := snd (World.sendMediaSegments c 5 6000) in
  (3 <= length (URLParts (cfg c)))%nat
  /\ (units r = [] -> cfg c' = cfg c)
  /\ (forall front u,
        units r = front ++ [u] ->
        URLParts (cfg c')
        = firstn (length (URLParts (cfg c)) - 1) (URLParts (cfg c)) ++ [uSegPart u]
        /\ SegTimelineFlag (cfg c') = SegTimelineFlag (cfg c)
        /\ otherFields (cfg c') = otherFields (cfg c))
  /\ assetPartsOf (URLParts (cfg c')) = assetPartsOf (URLParts (cfg c)).
Proof.
  intros c r c'.
  assert (H : (3 <= length (URLParts (cfg c)))%nat) by (vm_compute; lia).
  split; [exact H|].
  exact (round_overwrites_last_url_part unit unit (list Z) Z
           World.calcWrapTimes (fun _ => 0) World.generateTimelineEntries
           World.generateTimelineEntriesFromRef World.lastTime []
           World.replaceTimeOrNr c 5 6000 H).
Defined.

(** After round 5 the session's URL parts end in the audio segment of that
    round, where [Manifest.mpd] was. *)
Example round_leaves_last_segment_part :
  URLParts (cfg (snd (World.sendMediaSegments (World.session "http://dest" None false) 5 6000)))
  = [""; "livesim2"; "testpic"; "A48/5.m4s"]%string.
Proof. vm_compute. reflexivity. Qed.

Lemma round_starts_every_unit_witness :
  let c := World.session "http://dest" None true in
  ((3 <= length (URLParts (cfg c)))%nat
   /\ Forall (fun rd => contentType rd = "video"%string
                        \/ contentType rd = "audio"%string
                        \/ contentType rd = "text"%string) (repsData c))
  /\ result (fst (World.sendMediaSegments c 5 6000)) = RoundOk
  /\ List.map uRep (units (fst (World.sendMediaSegments c 5 6000))) = repsData c
  /\ Forall (fun u => uSegNr u = 5 /\ uNowMS u = 6000)
       (units (fst (World.sendMediaSegments c 5 6000))).
Proof.
  intros c.
  assert (H1 : (3 <= length (URLParts (cfg c)))%nat) by (vm_compute; lia).
  assert (H2 : Forall (fun rd => contentType rd = "video"%string
                                 \/ contentType rd = "audio"%string
                                 \/ contentType rd = "text"%string) (repsData c)).
  { constructor; [left; reflexivity|]. constructor; [right; left; reflexivity|].
    constructor. }
  split; [auto|].
  exact (round_starts_every_unit unit unit (list Z) Z
           World.calcWrapTimes (fun _ => 0) World.generateTimelineEntries
           World.generateTimelineEntriesFromRef World.lastTime []
           World.replaceTimeOrNr c 5 6000 H1 H2).
Defined.

Lemma init_pushes_witness :
  let c := World.session "http://dest" (Some 1000) false in
  let st := initState _ _
              (sendInits unit unit (bool * bytes) World.matchTimeSubsInitLang
                 World.encodeTimeSubsInit World.matchInit fst snd World.repSegmentType
                 World.httpPut (repsData c) (newState _ _ c) [] "application/mp4") in
  assetPartsOf (URLParts (cfg c)) = Some ["testpic"%string]
  /\ (length (initPuts _ _ st) <= length (repsData c))%nat
  /\ Forall (initPutOf unit unit (bool * bytes) World.matchTimeSubsInitLang
               World.matchInit snd (dest c) (asset c) ["testpic"%string] (repsData c))
       (initPuts _ _ st).
Proof.
  intros c st.
  assert (H : assetPartsOf (URLParts (cfg c)) = Some ["testpic"%string]) by reflexivity.
  split; [exact H|].
  exact (init_pushes unit unit (bool * bytes) World.matchTimeSubsInitLang
           World.encodeTimeSubsInit World.matchInit fst snd World.repSegmentType
           World.httpPut c ["testpic"%string] H).
Defined.

(** A wall-clock session with a second representation whose content type
    the timeline loop does not know: the timer fires, the round fails, and
    [start] is stuck in its deferred function with the error in the report. *)
Definition stuckSession : cmafIngester unit unit :=
  {| user := ""; passWord := ""; dest := "http://dest";
     url := "/livesim2/testpic/Manifest.mpd";
     log := 1; TestNowMS := None; cfg := World.cfgOf true; asset := tt;
     repsData := [World.video;
                  {| repID := "M1"; contentType := "metadata"; mimeType := "application/mp4";
                     initPath := "A48/init.mp4"; mediaPattern := "M1/" |}];
     report := [] |}.


Example stuck_session_report :
  report (ingester _ _ (snd (World.start stuckSession [World.sec 5; World.sec 5]
                               [(TimerFired, World.sec 6)])))
  = ["Error sending media segments: unknown content type metadata"]%string.
Proof. vm_compute. reflexivity. Qed.

End Session.
